(** * Hina: adaptive quiz generation, session lifecycle and progress scoring

    A shallow embedding of the quiz core of the Hina application
    (features/quizzes): the weighting engine and adaptive selector of
    [lib/start-quiz], the answer paths of [lib/submit-answer] and
    [lib/submit-answers-batch], the progress aggregator of
    [lib/complete-quiz] and the client answer queue of
    [hooks/useAnswerQueue].

    Modelling conventions.
    - A JavaScript [number] that holds a count, a score or a timestamp is
      a [Z]; one that holds a percentage, a weight or a random draw is an
      exact rational [Q].  IEEE rounding, [NaN] and the infinities are
      outside the model; the only division whose divisor can be zero is
      [score / totalItems] in [completeQuiz], and no statement below
      depends on its value for [totalItems = 0].
    - Strings are [string]; [toLowerCase] folds the ASCII letters.
    - The Prisma tables are fields of a record [DB]; a server function is
      a computation in the state-and-exception monad [Srv] over [DB], and
      [prisma.$transaction] rolls the store back when its body throws.
    - [Math.random] reads a stream of draws from the unit interval that is
      threaded through the functions which call it.
    - [Date.now()] and generated row ids are arguments of the function
      that needs them.
    - The answer queue is modelled twice: [processQueue] runs a delivery
      pass to its end, and [run] interleaves passes, timers and settled
      deliveries the way the event loop does; [run_settle_processLoop]
      relates the two. *)

From Stdlib Require Import ZArith QArith Qround Qminmax Lqa Lia.
From stdpp Require Import gmap strings list fin_maps sorting.

Open Scope Z_scope.

(** ** JavaScript primitives *)

Module JS.

(** [String.prototype.toLowerCase], on the ASCII letters; other characters
    are left as they are.  The comparison of answers is used on both sides
    through the same function, and what is proved relates the two. *)
Definition lowerAscii (c : Ascii.ascii) : Ascii.ascii :=
  let n := Ascii.N_of_ascii c in
  if ((65 <=? n) && (n <=? 90))%N then Ascii.ascii_of_N (n + 32) else c.

Fixpoint toLowerCase (s : string) : string :=
  match s with
  | EmptyString => EmptyString
  | String c rest => String (lowerAscii c) (toLowerCase rest)
  end.

(** [a === b] on strings. *)
Definition strictEq (a b : string) : bool := bool_decide (a = b).

Definition Math_max (a b : Q) : Q := Qmax a b.
Definition Math_min (a b : Q) : Q := Qmin a b.

(** [a >= b] on numbers. *)
Definition geq (a b : Q) : bool := Qle_bool b a.

(** A value returned by [Math.random()]: a number in [[0, 1)]. *)
Record draw : Type := Draw {
  draw_val :> Q;
  draw_range : Qle_bool 0 draw_val && negb (Qle_bool 1 draw_val) = true
}.

(** The pending results of [Math.random()], in call order. *)
Definition RandomSource : Type := nat -> draw.

Definition Math_random (g : RandomSource) : draw * RandomSource :=
  (g 0%nat, fun n => g (S n)).

(** [Math.floor(r * n)] as an array index. *)
Definition floorIndex (r : Q) (n : nat) : nat :=
  Z.to_nat (Qfloor (r * inject_Z (Z.of_nat n))).

(** [array.slice(0, count)]: a negative [count] is taken from the end. *)
Definition slice0 {T} (count : Z) (array : list T) : list T :=
  if count <? 0
  then take (Z.to_nat (Z.max (Z.of_nat (length array) + count) 0)) array
  else take (Z.to_nat count) array.

(** [[...new Set(array)]]: the first occurrence of every value, in
    insertion order. *)
Fixpoint uniqueFrom (seen : list string) (array : list string) : list string :=
  match array with
  | [] => []
  | x :: rest =>
      if decide (x ∈ seen) then uniqueFrom seen rest
      else x :: uniqueFrom (x :: seen) rest
  end.

Definition Set_spread (array : list string) : list string := uniqueFrom [] array.

(** [[a[i], a[j]] = [a[j], a[i]]] for indices inside the array (the only
    ones a draw from the unit interval produces in [shuffleArray]). *)
Definition swap {T} (i j : nat) (a : list T) : list T :=
  match a !! j, a !! i with
  | Some aj, Some ai => <[j := ai]> (<[i := aj]> a)
  | _, _ => a
  end.

End JS.

(** ** Quiz types ([features/quizzes/types]) *)

Inductive CharacterType : Type := HIRAGANA | KATAKANA.

Record QuizCharacter : Type := mkQuizCharacter {
  qc_id : string;
  qc_character : string;
  qc_reading : string;
  qc_type : CharacterType
}.

Record QuizQuestion : Type := mkQuizQuestion {
  qq_character : QuizCharacter;
  options : list string;
  correctAnswer : string
}.

Record QuizConfig : Type := mkQuizConfig {
  questionCount : Z;
  optionsCount : Z;
  weakCharacterWeight : Q;
  minAttemptsForMastery : Z;
  masteryThreshold : Q
}.

Definition DEFAULT_QUIZ_CONFIG : QuizConfig :=
  {| questionCount := 10;
     optionsCount := 4;
     weakCharacterWeight := 3;
     minAttemptsForMastery := 5;
     masteryThreshold := 0.8 |}.

(** The value type of the [userStats] map handed to the weighting engine. *)
Record StatsEntry : Type := mkStatsEntry {
  se_totalAttempts : Z;
  se_correctCount : Z
}.

Record WeightedCharacter : Type := mkWeightedCharacter {
  wc_character : QuizCharacter;
  weight : Q;
  accuracy : Q
}.

(** ** Weighting engine and adaptive selector ([lib/start-quiz]) *)

Section Selector.
Import JS.

(** One iteration of the Fisher-Yates loop body per value of [i], from
    [i] down to 1. *)
Fixpoint shuffleLoop {T} (i : nat) (shuffled : list T) (g : RandomSource)
  : list T * RandomSource :=
  match i with
  | O => (shuffled, g)
  | S i' =>
      let (r, g) := Math_random g in
      let j := floorIndex r (i + 1) in
      shuffleLoop i' (swap i j shuffled) g
  end.

Definition shuffleArray {T} (array : list T) (g : RandomSource)
  : list T * RandomSource :=
  shuffleLoop (length array - 1)%nat array g.

(** The [for ... of] loop of [weightedRandomSelect]; the position of the
    returned item stands for its object identity.  Weights and draws are
    exact rationals: which item a given draw selects can differ from the
    source's double arithmetic in the last place, and what is proved of
    the selection (an item of the list is returned, the loop ends) does
    not depend on it. *)
Fixpoint selectScan {T} (wt : T -> Q) (items : list T) (pos : nat) (random : Q)
  : option (nat * T) :=
  match items with
  | [] => None
  | item :: rest =>
      let random := (random - wt item)%Q in
      if Qle_bool random 0 then Some (pos, item)
      else selectScan wt rest (S pos) random
  end.

(** [items[items.length - 1]], with its position; [None] is
    [undefined]. *)
Definition lastItem {T} (items : list T) : option (nat * T) :=
  match last items with
  | Some item => Some ((length items - 1)%nat, item)
  | None => None
  end.

Definition weightedRandomSelect {T} (wt : T -> Q) (items : list T)
    (g : RandomSource) : option (nat * T) * RandomSource :=
  let totalWeight := fold_left (fun sum item => (sum + wt item)%Q) items 0%Q in
  let (r, g) := Math_random g in
  let random := (r * totalWeight)%Q in
  match selectScan wt items 0 random with
  | Some hit => (Some hit, g)
  | None => (lastItem items, g)
  end.

Definition generateWrongOptions (correctReading : string)
    (allReadings : list string) (count : Z) (g : RandomSource)
  : list string * RandomSource :=
  let available := filter (fun r => r ≠ correctReading) allReadings in
  let (shuffled, g) := shuffleArray available g in
  (slice0 count shuffled, g).

(** The callback of [characters.map] in [calculateCharacterWeights]. *)
Definition weighCharacter (userStats : gmap string StatsEntry)
    (config : QuizConfig) (character : QuizCharacter) : WeightedCharacter :=
  match userStats !! qc_id character with
  | None => {| wc_character := character; weight := 2; accuracy := 0 |}
  | Some stats =>
      if se_totalAttempts stats =? 0
      then {| wc_character := character; weight := 2; accuracy := 0 |}
      else
        let accuracy :=
          (inject_Z (se_correctCount stats) / inject_Z (se_totalAttempts stats))%Q in
        let weight := ((1 - accuracy) * weakCharacterWeight config + 1)%Q in
        {| wc_character := character; weight := weight; accuracy := accuracy |}
  end.

Definition calculateCharacterWeights (characters : list QuizCharacter)
    (userStats : gmap string StatsEntry) (config : QuizConfig)
  : list WeightedCharacter :=
  map (weighCharacter userStats config) characters.

(** The [while] loop of [selectAdaptiveCharacters].  [None] stands for a
    run that needs more than [fuel] iterations, or that reads
    [chosen.character] of [undefined]; neither happens
    ([selectAdaptiveCharacters_total]). *)
Fixpoint selectLoop (fuel : nat) (count : Z) (selected : list QuizCharacter)
    (available : list WeightedCharacter) (g : RandomSource)
  : option (list QuizCharacter * RandomSource) :=
  if (Z.of_nat (length selected) <? count) && (0 <? Z.of_nat (length available))
  then
    match fuel with
    | O => None
    | S fuel' =>
        match weightedRandomSelect weight available g with
        | (Some (index, chosen), g) =>
            selectLoop fuel' count (selected ++ [wc_character chosen])
                       (delete index available) g
        | (None, _) => None
        end
    end
  else Some (selected, g).

Definition selectAdaptiveCharacters (weightedCharacters : list WeightedCharacter)
    (count : Z) (g : RandomSource)
  : option (list QuizCharacter * RandomSource) :=
  selectLoop (length weightedCharacters) count [] weightedCharacters g.

(** The callback of [selectedCharacters.map] in [buildQuestions]. *)
Definition buildQuestion (allReadings : list string) (optionsCount : Z)
    (character : QuizCharacter) (g : RandomSource)
  : QuizQuestion * RandomSource :=
  let (wrongOptions, g) :=
    generateWrongOptions (qc_reading character) allReadings (optionsCount - 1) g in
  let (options, g) := shuffleArray (qc_reading character :: wrongOptions) g in
  ({| qq_character := character;
      options := options;
      correctAnswer := qc_reading character |}, g).

Fixpoint buildQuestions (selectedCharacters : list QuizCharacter)
    (allReadings : list string) (optionsCount : Z) (g : RandomSource)
  : list QuizQuestion * RandomSource :=
  match selectedCharacters with
  | [] => ([], g)
  | character :: rest =>
      let (question, g) := buildQuestion allReadings optionsCount character g in
      let (questions, g) := buildQuestions rest allReadings optionsCount g in
      (question :: questions, g)
  end.

End Selector.

(** ** Progress aggregator: the pure rule ([lib/complete-quiz]) *)

Definition UNLOCK_THRESHOLD : Q := 80.
Definition COMPLETION_THRESHOLD : Q := 100.

Definition calculateNewProgress (currentProgress quizPercentage : Q)
    (sessionCount : Z) : Q :=
  if sessionCount <=? 1 then quizPercentage
  else
    let weight := 0.4%Q in
    let newProgress :=
      (currentProgress * (1 - weight) + quizPercentage * weight)%Q in
    let minProgress := JS.Math_max 0 (currentProgress - 10) in
    JS.Math_max minProgress (JS.Math_min 100 newProgress).

(** ** The data store *)

Record CharacterRow : Type := mkCharacterRow {
  ch_id : string;
  ch_character : string;
  ch_reading : string;
  ch_type : CharacterType;
  ch_order : Z
}.

(** A [Module] row together with the result of
    [include: { moduleCharacters: { orderBy: { order: "asc" }, include: { character: true } } }]:
    the module's characters in ascending order of the join row. *)
Record ModuleRow : Type := mkModuleRow {
  mod_id : string;
  mod_name : string;
  mod_order : Z;
  moduleCharacters : list CharacterRow
}.

Record QuizSessionRow : Type := mkQuizSessionRow {
  qs_id : string;
  qs_userId : string;
  qs_moduleId : string;
  qs_totalItems : Z;
  qs_score : Z;
  qs_startedAt : Z;
  qs_completedAt : option Z
}.

Record QuizAnswerRow : Type := mkQuizAnswerRow {
  qa_sessionId : string;
  qa_characterId : string;
  qa_userAnswer : string;
  qa_isCorrect : bool;
  qa_responseTimeMs : option Z
}.

Record UserCharacterStatsRow : Type := mkUserCharacterStatsRow {
  totalAttempts : Z;
  correctCount : Z;
  streakCount : Z;
  lastAttemptAt : Z
}.

(** [quizSession] is keyed by its id, [userCharacterStats] by
    [userId_characterId], [userProgress] (its [percentage]) by
    [userId_moduleId]; [quizAnswer] is append-only. *)
Record DB : Type := mkDB {
  character : gmap string CharacterRow;
  module : gmap string ModuleRow;
  quizSession : gmap string QuizSessionRow;
  quizAnswer : list QuizAnswerRow;
  userCharacterStats : gmap (string * string) UserCharacterStatsRow;
  userProgress : gmap (string * string) Q
}.

(** Modelled from the spec: the Prisma schema is not part of the sources;
    a session is created with [score = 0] and no completion timestamp
    ("creates a session with totalItems = number of generated questions,
    score = 0"). *)
Definition QuizSession_create (newId userId moduleId : string) (totalItems now : Z)
  : QuizSessionRow :=
  {| qs_id := newId; qs_userId := userId; qs_moduleId := moduleId;
     qs_totalItems := totalItems; qs_score := 0;
     qs_startedAt := now; qs_completedAt := None |}.

(** ** Server computations: store state and thrown errors *)

Inductive outcome (A : Type) : Type :=
| Returned (value : A)
| Thrown (message : string).
Arguments Returned {A} value.
Arguments Thrown {A} message.

Definition Srv (A : Type) : Type := DB -> DB * outcome A.

Definition ret {A} (a : A) : Srv A := fun db => (db, Returned a).

Definition bind {A B} (m : Srv A) (k : A -> Srv B) : Srv B :=
  fun db =>
    match m db with
    | (db', Returned a) => k a db'
    | (db', Thrown e) => (db', Thrown e)
    end.

Definition throw {A} (message : string) : Srv A := fun db => (db, Thrown message).

Definition query {A} (f : DB -> A) : Srv A := fun db => (db, Returned (f db)).

Definition write (f : DB -> DB) : Srv unit := fun db => (f db, Returned tt).

(** [prisma.$transaction]: all of the body's writes, or none. *)
Definition transaction {A} (body : Srv A) : Srv A :=
  fun db =>
    match body db with
    | (db', Returned a) => (db', Returned a)
    | (_, Thrown e) => (db, Thrown e)
    end.

Declare Scope srv_scope.
Delimit Scope srv_scope with srv.
Notation "x <- m ;; k" := (bind m (fun x => k))
  (at level 100, m at next level, right associativity) : srv_scope.
Notation "m ;;; k" := (bind m (fun _ => k))
  (at level 100, right associativity) : srv_scope.

(** The statements of a [for ... of] loop, in order. *)
Fixpoint forEach {A} (items : list A) (body : A -> Srv unit) : Srv unit :=
  match items with
  | [] => ret tt
  | item :: rest => bind (body item) (fun _ => forEach rest body)
  end.

(** *** Table operations *)

Definition set_quizSession (f : gmap string QuizSessionRow -> gmap string QuizSessionRow)
    (db : DB) : DB :=
  {| character := character db; module := module db;
     quizSession := f (quizSession db); quizAnswer := quizAnswer db;
     userCharacterStats := userCharacterStats db; userProgress := userProgress db |}.

Definition set_quizAnswer (f : list QuizAnswerRow -> list QuizAnswerRow) (db : DB) : DB :=
  {| character := character db; module := module db;
     quizSession := quizSession db; quizAnswer := f (quizAnswer db);
     userCharacterStats := userCharacterStats db; userProgress := userProgress db |}.

Definition set_userCharacterStats
    (f : gmap (string * string) UserCharacterStatsRow ->
         gmap (string * string) UserCharacterStatsRow) (db : DB) : DB :=
  {| character := character db; module := module db;
     quizSession := quizSession db; quizAnswer := quizAnswer db;
     userCharacterStats := f (userCharacterStats db); userProgress := userProgress db |}.

Definition set_userProgress (f : gmap (string * string) Q -> gmap (string * string) Q)
    (db : DB) : DB :=
  {| character := character db; module := module db;
     quizSession := quizSession db; quizAnswer := quizAnswer db;
     userCharacterStats := userCharacterStats db; userProgress := f (userProgress db) |}.

(** [quizSession.findFirst({ where: { id, userId } })]. *)
Definition findSession (sessionId userId : string) (db : DB) : option QuizSessionRow :=
  match quizSession db !! sessionId with
  | Some session =>
      if decide (qs_userId session = userId) then Some session else None
  | None => None
  end.

(** [quizSession.findFirst({ where: { id, userId, completedAt: null } })]. *)
Definition findActiveSession (sessionId userId : string) (db : DB)
  : option QuizSessionRow :=
  match findSession sessionId userId db with
  | Some session =>
      match qs_completedAt session with
      | None => Some session
      | Some _ => None
      end
  | None => None
  end.

(** The [quizAnswer] rows of a session. *)
Definition answersOf (sessionId : string) (db : DB) : list QuizAnswerRow :=
  filter (fun a => qa_sessionId a = sessionId) (quizAnswer db).

(** [quizAnswer.findFirst({ where: { sessionId, characterId } })]. *)
Definition findAnswer (sessionId characterId : string) (db : DB)
  : option QuizAnswerRow :=
  head (filter (fun a => qa_characterId a = characterId) (answersOf sessionId db)).

(** [quizAnswer.count({ where: { sessionId } })]. *)
Definition countAnswers (sessionId : string) (db : DB) : Z :=
  Z.of_nat (length (answersOf sessionId db)).

(** [quizSession.count({ where: { userId, moduleId, completedAt: { not: null } } })]. *)
Definition countCompletedSessions (userId moduleId : string) (db : DB) : Z :=
  Z.of_nat (length (filter
    (fun kv => qs_userId (snd kv) = userId /\ qs_moduleId (snd kv) = moduleId
               /\ qs_completedAt (snd kv) <> None)
    (map_to_list (quizSession db)))).

(** [quizSession.update({ where: { id }, data })]; the row must exist. *)
Definition updateSession (sessionId : string) (f : QuizSessionRow -> QuizSessionRow)
  : Srv unit :=
  fun db =>
    match quizSession db !! sessionId with
    | Some session =>
        (set_quizSession (insert sessionId (f session)) db, Returned tt)
    | None => (db, Thrown "Record to update not found")
    end.

Definition with_score (score : Z) (s : QuizSessionRow) : QuizSessionRow :=
  {| qs_id := qs_id s; qs_userId := qs_userId s; qs_moduleId := qs_moduleId s;
     qs_totalItems := qs_totalItems s; qs_score := score;
     qs_startedAt := qs_startedAt s; qs_completedAt := qs_completedAt s |}.

Definition with_completedAt (completedAt : Z) (s : QuizSessionRow) : QuizSessionRow :=
  {| qs_id := qs_id s; qs_userId := qs_userId s; qs_moduleId := qs_moduleId s;
     qs_totalItems := qs_totalItems s; qs_score := qs_score s;
     qs_startedAt := qs_startedAt s; qs_completedAt := Some completedAt |}.

(** ** Answer submission ([lib/submit-answer], [lib/submit-answers-batch]) *)

Record AnswerResult : Type := mkAnswerResult {
  ar_isCorrect : bool;
  ar_correctAnswer : string;
  ar_streakCount : Z;
  ar_accuracy : Q
}.

Record BatchAnswer : Type := mkBatchAnswer {
  ba_characterId : string;
  ba_userAnswer : string;
  ba_isCorrect : bool;
  ba_responseTimeMs : Z
}.

Record BatchSubmitResult : Type := mkBatchSubmitResult {
  bs_score : Z;
  bs_totalItems : Z
}.

Section Server.
Local Open Scope srv_scope.

(** The comparison of a submitted text with a reading. *)
Definition sameReading (userAnswer reading : string) : bool :=
  JS.strictEq (JS.toLowerCase userAnswer) (JS.toLowerCase reading).

(** [now] is the value of [new Date()] inside the transaction. *)
Definition submitAnswer (now : Z) (userId sessionId characterId userAnswer : string)
    (responseTimeMs : option Z) : Srv AnswerResult :=
  session <- query (findActiveSession sessionId userId) ;;
  match session with
  | None => throw "Quiz session not found or already completed"
  | Some _ =>
      existingAnswer <- query (findAnswer sessionId characterId) ;;
      match existingAnswer with
      | Some _ => throw "Character already answered in this session"
      | None =>
          found <- query (fun db => character db !! characterId) ;;
          match found with
          | None => throw "Character not found"
          | Some ch =>
              let isCorrect := sameReading userAnswer (ch_reading ch) in
              transaction (
                write (set_quizAnswer (fun rows => rows ++
                  [ {| qa_sessionId := sessionId; qa_characterId := characterId;
                       qa_userAnswer := userAnswer; qa_isCorrect := isCorrect;
                       qa_responseTimeMs := responseTimeMs |} ])) ;;;
                (if isCorrect
                 then updateSession sessionId (fun s => with_score (qs_score s + 1) s)
                 else ret tt) ;;;
                existingStats <-
                  query (fun db => userCharacterStats db !! (userId, characterId)) ;;
                let '(newStreakCount, newTotalAttempts, newCorrectCount) :=
                  match existingStats with
                  | Some st =>
                      (if isCorrect then streakCount st + 1 else 0,
                       totalAttempts st + 1,
                       correctCount st + (if isCorrect then 1 else 0))
                  | None =>
                      (if isCorrect then 1 else 0, 1, if isCorrect then 1 else 0)
                  end in
                write (set_userCharacterStats (insert (userId, characterId)
                  {| totalAttempts := newTotalAttempts;
                     correctCount := newCorrectCount;
                     streakCount := newStreakCount;
                     lastAttemptAt := now |})) ;;;
                let accuracy :=
                  if 0 <? newTotalAttempts
                  then (inject_Z newCorrectCount / inject_Z newTotalAttempts)%Q
                  else 0%Q in
                ret {| ar_isCorrect := isCorrect;
                       ar_correctAnswer := ch_reading ch;
                       ar_streakCount := newStreakCount;
                       ar_accuracy := accuracy |})
          end
      end
  end.

(** The row written by [quizAnswer.createMany] for one batch entry. *)
Definition batchRow (sessionId : string) (answer : BatchAnswer) : QuizAnswerRow :=
  {| qa_sessionId := sessionId;
     qa_characterId := ba_characterId answer;
     qa_userAnswer := ba_userAnswer answer;
     qa_isCorrect := ba_isCorrect answer;
     qa_responseTimeMs := Some (ba_responseTimeMs answer) |}.

(** The body of the [for (const answer of answers)] loop. *)
Definition batchStats (now : Z) (userId : string) (answer : BatchAnswer) : Srv unit :=
  existingStats <-
    query (fun db => userCharacterStats db !! (userId, ba_characterId answer)) ;;
  match existingStats with
  | Some st =>
      write (set_userCharacterStats (insert (userId, ba_characterId answer)
        {| totalAttempts := totalAttempts st + 1;
           correctCount :=
             if ba_isCorrect answer then correctCount st + 1 else correctCount st;
           streakCount := if ba_isCorrect answer then streakCount st + 1 else 0;
           lastAttemptAt := now |}))
  | None =>
      write (set_userCharacterStats (insert (userId, ba_characterId answer)
        {| totalAttempts := 1;
           correctCount := if ba_isCorrect answer then 1 else 0;
           streakCount := if ba_isCorrect answer then 1 else 0;
           lastAttemptAt := now |}))
  end.

Definition submitAnswersBatch (now : Z) (userId sessionId : string)
    (answers : list BatchAnswer) : Srv BatchSubmitResult :=
  session <- query (findActiveSession sessionId userId) ;;
  match session with
  | None => throw "Quiz session not found or already completed"
  | Some _ =>
      existingAnswers <- query (countAnswers sessionId) ;;
      if 0 <? existingAnswers
      then throw "Answers already submitted for this session"
      else
        let score :=
          Z.of_nat (length (filter (fun a => ba_isCorrect a = true) answers)) in
        transaction (
          write (set_quizAnswer (fun rows => rows ++ map (batchRow sessionId) answers)) ;;;
          updateSession sessionId (with_score score) ;;;
          forEach answers (batchStats now userId)) ;;;
        ret {| bs_score := score; bs_totalItems := Z.of_nat (length answers) |}
  end.

End Server.

(** ** Completion ([lib/complete-quiz]) *)

Record QuizResult : Type := mkQuizResult {
  qr_sessionId : string;
  qr_score : Z;
  qr_totalItems : Z;
  qr_percentage : Q;
  qr_timeSpentMs : Z;
  moduleProgressUpdated : bool;
  newModuleProgress : Q;
  isModuleCompleted : bool;
  unlockedNextModule : bool
}.

Section Completion.
Local Open Scope srv_scope.

(** [currentProgress?.percentage ?? 0]. *)
Definition storedProgress (userId moduleId : string) (db : DB) : Q :=
  default 0%Q (userProgress db !! (userId, moduleId)).

(** The function reads the clock twice: [now] is the value of [Date.now()]
    from which [timeSpentMs] is taken, [completedAt] the [new Date()]
    written to the session inside the transaction, after the two queries.
    The percentage is the exact quotient; for [totalItems = 0] the source's
    quotient is not a finite number, and what is proved of the value of the
    percentage is stated for sessions of at least one item. *)
Definition completeQuiz (now completedAt : Z) (userId sessionId : string)
  : Srv QuizResult :=
  found <- query (findSession sessionId userId) ;;
  match found with
  | None => throw "Quiz session not found"
  | Some session =>
      match qs_completedAt session with
      | Some _ => throw "Quiz session already completed"
      | None =>
          let timeSpentMs := now - qs_startedAt session in
          let percentage :=
            (inject_Z (qs_score session) / inject_Z (qs_totalItems session) * 100)%Q in
          oldProgress <- query (storedProgress userId (qs_moduleId session)) ;;
          sessionCount <- query (countCompletedSessions userId (qs_moduleId session)) ;;
          let newProgress :=
            calculateNewProgress oldProgress percentage (sessionCount + 1) in
          let wasAboveThreshold := JS.geq oldProgress UNLOCK_THRESHOLD in
          let isAboveThreshold := JS.geq newProgress UNLOCK_THRESHOLD in
          let unlockedNextModule := negb wasAboveThreshold && isAboveThreshold in
          let wasCompleted := JS.geq oldProgress COMPLETION_THRESHOLD in
          let isModuleCompleted := JS.geq newProgress COMPLETION_THRESHOLD in
          transaction (
            updateSession sessionId (with_completedAt completedAt) ;;;
            write (set_userProgress
                     (insert (userId, qs_moduleId session) newProgress))) ;;;
          ret {| qr_sessionId := sessionId;
                 qr_score := qs_score session;
                 qr_totalItems := qs_totalItems session;
                 qr_percentage := percentage;
                 qr_timeSpentMs := timeSpentMs;
                 moduleProgressUpdated := negb (Qeq_bool newProgress oldProgress);
                 newModuleProgress := newProgress;
                 isModuleCompleted := isModuleCompleted && negb wasCompleted;
                 unlockedNextModule := unlockedNextModule |}
      end
  end.

(** [quizSession.delete] removes the session; its answers go with it: the
    source relies on the schema's cascade ("Delete the session and its
    answers (cascade)"). *)
Definition abandonQuiz (userId sessionId : string) : Srv unit :=
  session <- query (findActiveSession sessionId userId) ;;
  match session with
  | None => throw "Quiz session not found or already completed"
  | Some _ =>
      write (fun db =>
        set_quizAnswer (filter (fun a => qa_sessionId a <> sessionId))
          (set_quizSession (delete sessionId) db))
  end.

End Completion.

(** ** Quiz start ([lib/start-quiz]) *)

(** The session handed to the client. *)
Record QuizSession : Type := mkQuizSession {
  session_id : string;
  session_moduleId : string;
  session_moduleName : string;
  questions : list QuizQuestion;
  session_totalItems : Z;
  session_startedAt : Z
}.

Section Start.
Local Open Scope srv_scope.

Definition toQuizCharacter (c : CharacterRow) : QuizCharacter :=
  {| qc_id := ch_id c; qc_character := ch_character c;
     qc_reading := ch_reading c; qc_type := ch_type c |}.

(** [userCharacterStats.findMany] for the module's characters, as the
    [statsMap] built from it. *)
Definition statsMapOf (userId : string) (characterIds : list string) (db : DB)
  : gmap string StatsEntry :=
  list_to_map (omap (fun cid =>
    match userCharacterStats db !! (userId, cid) with
    | Some st => Some (cid, {| se_totalAttempts := totalAttempts st;
                               se_correctCount := correctCount st |})
    | None => None
    end) characterIds).

(** [quizSession.create]; [newId] is the generated primary key. *)
Definition createSession (row : QuizSessionRow) : Srv QuizSessionRow :=
  fun db =>
    match quizSession db !! qs_id row with
    | Some _ => (db, Thrown "Unique constraint failed on the fields: (`id`)")
    | None => (set_quizSession (insert (qs_id row) row) db, Returned row)
    end.

Definition startQuiz (newId : string) (now : Z) (userId moduleId : string)
    (config : QuizConfig) (g : JS.RandomSource) : Srv (QuizSession * JS.RandomSource) :=
  found <- query (fun db => module db !! moduleId) ;;
  match found with
  | None => throw "Module not found"
  | Some m =>
      if (length (moduleCharacters m) =? 0)%nat
      then throw "Module has no characters"
      else
        let characterIds := map ch_id (moduleCharacters m) in
        statsMap <- query (statsMapOf userId characterIds) ;;
        let characters := map toQuizCharacter (moduleCharacters m) in
        let weightedCharacters :=
          calculateCharacterWeights characters statsMap config in
        let questionCount :=
          Z.min (questionCount config) (Z.of_nat (length characters)) in
        match selectAdaptiveCharacters weightedCharacters questionCount g with
        | None => throw "TypeError: Cannot read properties of undefined"
        | Some (selectedCharacters, g) =>
            let allReadings := JS.Set_spread (map qc_reading characters) in
            let (questions, g) :=
              buildQuestions selectedCharacters allReadings (optionsCount config) g in
            session <- createSession
              (QuizSession_create newId userId moduleId
                 (Z.of_nat (length questions)) now) ;;
            let (shuffledQuestions, g) := shuffleArray questions g in
            ret ({| session_id := qs_id session;
                    session_moduleId := mod_id m;
                    session_moduleName := mod_name m;
                    questions := shuffledQuestions;
                    session_totalItems := Z.of_nat (length questions);
                    session_startedAt := qs_startedAt session |}, g)
        end
  end.

End Start.

(** ** The quiz container ([components/QuizContainer]) *)

Inductive QuizState : Type := playing | feedback | completing | completed | error.

Record Container : Type := mkContainer {
  ct_session : QuizSession;
  currentIndex : nat;
  ct_state : QuizState;
  ct_feedback : option (bool * string);
  ct_localScore : Z;
  ct_answersRef : list BatchAnswer
}.

(** [handleAnswer(answer, timeMs)] up to the feedback it shows; the
    auto-advance timer is [advanceLast] below. *)
Definition handleAnswer (answer : string) (timeMs : Z) (c : Container) : Container :=
  match ct_state c, questions (ct_session c) !! currentIndex c with
  | playing, Some currentQuestion =>
      let isCorrect :=
        JS.strictEq (JS.toLowerCase answer)
                    (JS.toLowerCase (correctAnswer currentQuestion)) in
      {| ct_session := ct_session c;
         currentIndex := currentIndex c;
         ct_state := feedback;
         ct_feedback := Some (isCorrect, correctAnswer currentQuestion);
         ct_localScore := if isCorrect then ct_localScore c + 1 else ct_localScore c;
         ct_answersRef := ct_answersRef c ++
           [ {| ba_characterId := qc_id (qq_character currentQuestion);
                ba_userAnswer := answer;
                ba_isCorrect := isCorrect;
                ba_responseTimeMs := timeMs |} ] |}
  | _, _ => c
  end.

(** The timer callback after the last question: the batch is submitted,
    then the quiz is completed, for the authenticated user.  [batchNow] is
    the clock read of [submitAnswersBatch], [now] and [completedAt] the two
    of [completeQuiz]. *)
Definition advanceLast (batchNow now completedAt : Z) (userId : string)
    (c : Container) : Srv QuizResult :=
  bind (submitAnswersBatch batchNow userId (session_id (ct_session c))
          (ct_answersRef c))
       (fun _ => completeQuiz now completedAt userId (session_id (ct_session c))).

(** ** The client answer queue ([hooks/useAnswerQueue]) *)

Inductive SyncStatus : Type := pending | syncing | synced | failed.

Global Instance SyncStatus_eq_dec : EqDecision SyncStatus.
Proof. solve_decision. Defined.

Record PendingAnswer : Type := mkPendingAnswer {
  pa_id : string;
  pa_sessionId : string;
  pa_characterId : string;
  pa_userAnswer : string;
  pa_responseTimeMs : Z;
  pa_isCorrect : bool;
  pa_timestamp : Z;
  retryCount : Z;
  status : SyncStatus
}.

Definition MAX_RETRIES : Z := 3.
Definition RETRY_DELAYS : list Z := [1000; 2000; 5000].

(** The refs of the hook: the queue cell, the re-entrancy flag and the
    liveness flag. *)
Record Queue : Type := mkQueue {
  answersRef : list PendingAnswer;
  processingRef : bool;
  mountedRef : bool
}.

Section AnswerQueue.

Definition with_status (st : SyncStatus) (a : PendingAnswer) : PendingAnswer :=
  {| pa_id := pa_id a; pa_sessionId := pa_sessionId a;
     pa_characterId := pa_characterId a; pa_userAnswer := pa_userAnswer a;
     pa_responseTimeMs := pa_responseTimeMs a; pa_isCorrect := pa_isCorrect a;
     pa_timestamp := pa_timestamp a; retryCount := retryCount a; status := st |}.

Definition with_failure (a : PendingAnswer) : PendingAnswer :=
  {| pa_id := pa_id a; pa_sessionId := pa_sessionId a;
     pa_characterId := pa_characterId a; pa_userAnswer := pa_userAnswer a;
     pa_responseTimeMs := pa_responseTimeMs a; pa_isCorrect := pa_isCorrect a;
     pa_timestamp := pa_timestamp a; retryCount := retryCount a + 1;
     status := failed |}.

(** [prev.map((a) => a.id === id ? f(a) : a)]. *)
Definition updateById (id : string) (f : PendingAnswer -> PendingAnswer)
    (prev : list PendingAnswer) : list PendingAnswer :=
  map (fun a => if decide (pa_id a = id) then f a else a) prev.

(** The filter that opens a delivery pass. *)
Definition deliverable (a : PendingAnswer) : bool :=
  bool_decide (status a = pending)
  || (bool_decide (status a = failed) && (retryCount a <? MAX_RETRIES)).

(** [RETRY_DELAYS[Math.min(answer.retryCount, RETRY_DELAYS.length - 1)]]. *)
Definition retryDelay (answer : PendingAnswer) : option Z :=
  RETRY_DELAYS !! Z.to_nat (Z.min (retryCount answer)
                                  (Z.of_nat (length RETRY_DELAYS) - 1)).

(** What one delivery pass leaves behind: the queue cell, the answers it
    sent to the server and the delays of the retry timers it set. *)
Record PassTrace : Type := mkPassTrace {
  cell : list PendingAnswer;
  attempted : list PendingAnswer;
  timers : list (option Z)
}.

(** The [for (const answer of pendingAnswers)] loop of [processQueue].
    [deliver answer] tells whether [submitAnswerAction] succeeds for the
    captured [answer]; the pass runs with no other queue event between
    its steps. *)
Fixpoint processLoop (deliver : PendingAnswer -> bool) (mounted : bool)
    (pendingAnswers : list PendingAnswer) (t : PassTrace) : PassTrace :=
  match pendingAnswers with
  | [] => t
  | answer :: rest =>
      if negb mounted then t
      else
        let current := updateById (pa_id answer) (with_status syncing) (cell t) in
        if deliver answer
        then processLoop deliver mounted rest
               {| cell := updateById (pa_id answer) (with_status synced) current;
                  attempted := attempted t ++ [answer];
                  timers := timers t |}
        else processLoop deliver mounted rest
               {| cell := updateById (pa_id answer) with_failure current;
                  attempted := attempted t ++ [answer];
                  timers := timers t ++ [retryDelay answer] |}
  end.

Definition processQueue (deliver : PendingAnswer -> bool) (q : Queue)
  : Queue * PassTrace :=
  if processingRef q
  then (q, {| cell := answersRef q; attempted := []; timers := [] |})
  else
    let currentAnswers := answersRef q in
    let pendingAnswers := List.filter deliverable currentAnswers in
    let t := processLoop deliver (mountedRef q) pendingAnswers
               {| cell := currentAnswers; attempted := []; timers := [] |} in
    ({| answersRef := cell t; processingRef := false; mountedRef := mountedRef q |}, t).

(** The retry timer's callback. *)
Definition retryTimer (deliver : PendingAnswer -> bool) (q : Queue)
  : Queue * PassTrace :=
  if mountedRef q
  then processQueue deliver
         {| answersRef := answersRef q; processingRef := false;
            mountedRef := mountedRef q |}
  else (q, {| cell := answersRef q; attempted := []; timers := [] |}).

(** The queue's own [submitAnswer]: the entry it appends.  The updater
    passed to [setAnswers] is applied to the cell at once. *)
Definition enqueue (id sessionId characterId userAnswer correctAnswer : string)
    (responseTimeMs now : Z) (q : Queue) : Queue * bool :=
  let isCorrect :=
    JS.strictEq (JS.toLowerCase userAnswer) (JS.toLowerCase correctAnswer) in
  ({| answersRef := answersRef q ++
        [ {| pa_id := id; pa_sessionId := sessionId; pa_characterId := characterId;
             pa_userAnswer := userAnswer; pa_responseTimeMs := responseTimeMs;
             pa_isCorrect := isCorrect; pa_timestamp := now;
             retryCount := 0; status := pending |} ];
      processingRef := processingRef q; mountedRef := mountedRef q |}, isCorrect).

(** One run of [checkSync], [elapsed] milliseconds after [waitForSync]
    started: [Some b] is [resolve(b)], [None] is the next poll. *)
Definition checkSync (current : list PendingAnswer) (elapsed : Z) : option bool :=
  let pendingOnes := List.filter
    (fun a => bool_decide (status a = pending) || bool_decide (status a = syncing))
    current in
  let failedOnes := List.filter
    (fun a => bool_decide (status a = failed) && (MAX_RETRIES <=? retryCount a))
    current in
  if (length pendingOnes =? 0)%nat then Some ((length failedOnes =? 0)%nat)
  else if 10000 <? elapsed then Some false
  else None.

(** [waitForSync]: the pass it triggers, run to its end, then the run of
    [checkSync] that follows, [elapsed] milliseconds after the call.  (A
    run of [checkSync] during the pass finds the answer in flight
    [syncing] and schedules the next one.) *)
Definition waitForSync (deliver : PendingAnswer -> bool) (elapsed : Z) (q : Queue)
  : Queue * option bool :=
  let (q', _) := processQueue deliver q in
  (q', checkSync (answersRef q') elapsed).

(** *** The hook as an event loop

    [processQueue] is an [async] function: it runs until its next
    [await submitAnswerAction(...)], and resumes when that call settles.
    Between the two, other callbacks run: a retry timer, a
    [processQueue()] call from the queue's [submitAnswer] or from
    [waitForSync], or the continuation of another pass.  Every
    [setAnswers] updater is applied to [answersRef] before the next
    callback runs. *)

(** A pass suspended at its [await]: the captured [answer] whose delivery
    is in flight and the part of [pendingAnswers] still to be iterated. *)
Record Pass : Type := mkPass {
  inflight : PendingAnswer;
  upcoming : list PendingAnswer
}.

(** A call of [submitAnswerAction]: the id of the answer sent and the
    retry count the queue cell holds for it at that moment. *)
Record Sent : Type := mkSent {
  sent_id : string;
  sent_retryCount : option Z
}.

Record Hook : Type := mkHook {
  hk_queue : Queue;
  hk_passes : list Pass;
  hk_timers : list (option Z);
  hk_sent : list Sent
}.

Inductive Event : Type :=
| CallProcessQueue
| TimerFires
| Settled (pass : nat) (success : bool).

Definition with_answers (f : list PendingAnswer -> list PendingAnswer) (h : Hook) : Hook :=
  {| hk_queue := {| answersRef := f (answersRef (hk_queue h));
                    processingRef := processingRef (hk_queue h);
                    mountedRef := mountedRef (hk_queue h) |};
     hk_passes := hk_passes h; hk_timers := hk_timers h; hk_sent := hk_sent h |}.

Definition with_processing (b : bool) (h : Hook) : Hook :=
  {| hk_queue := {| answersRef := answersRef (hk_queue h);
                    processingRef := b;
                    mountedRef := mountedRef (hk_queue h) |};
     hk_passes := hk_passes h; hk_timers := hk_timers h; hk_sent := hk_sent h |}.

(** The [for] loop of [processQueue] from the top of an iteration to the
    next [await], or to the [finally] block. *)
Definition advance (rest : list PendingAnswer) (h : Hook) : Hook :=
  match rest with
  | [] => with_processing false h
  | answer :: rest' =>
      if negb (mountedRef (hk_queue h)) then with_processing false h
      else
        let h' := with_answers (updateById (pa_id answer) (with_status syncing)) h in
        {| hk_queue := hk_queue h';
           hk_passes := hk_passes h ++ [ {| inflight := answer; upcoming := rest' |} ];
           hk_timers := hk_timers h;
           hk_sent := hk_sent h ++
             [ {| sent_id := pa_id answer;
                  sent_retryCount :=
                    retryCount <$> List.find (fun a => bool_decide (pa_id a = pa_id answer))
                                             (answersRef (hk_queue h)) |} ] |}
  end.

(** [processQueue()] up to its first [await]. *)
Definition callProcessQueue (h : Hook) : Hook :=
  if processingRef (hk_queue h) then h
  else
    advance (List.filter deliverable (answersRef (hk_queue h)))
            (with_processing true h).

(** The continuation of the pass at position [pass] once its delivery has
    settled. *)
Definition settle (pass : nat) (success : bool) (h : Hook) : Hook :=
  match hk_passes h !! pass with
  | None => h
  | Some p =>
      let h := {| hk_queue := hk_queue h; hk_passes := delete pass (hk_passes h);
                  hk_timers := hk_timers h; hk_sent := hk_sent h |} in
      if negb (mountedRef (hk_queue h)) then with_processing false h
      else if success
      then advance (upcoming p)
             (with_answers (updateById (pa_id (inflight p)) (with_status synced)) h)
      else
        let h := with_answers (updateById (pa_id (inflight p)) with_failure) h in
        advance (upcoming p)
          {| hk_queue := hk_queue h; hk_passes := hk_passes h;
             hk_timers := hk_timers h ++ [retryDelay (inflight p)];
             hk_sent := hk_sent h |}
  end.

(** The oldest retry timer fires. *)
Definition fireTimer (h : Hook) : Hook :=
  match hk_timers h with
  | [] => h
  | _ :: later =>
      let h := {| hk_queue := hk_queue h; hk_passes := hk_passes h;
                  hk_timers := later; hk_sent := hk_sent h |} in
      if mountedRef (hk_queue h)
      then callProcessQueue (with_processing false h)
      else h
  end.

Definition handle (h : Hook) (e : Event) : Hook :=
  match e with
  | CallProcessQueue => callProcessQueue h
  | TimerFires => fireTimer h
  | Settled pass success => settle pass success h
  end.

Definition run (events : list Event) (h : Hook) : Hook := fold_left handle events h.

End AnswerQueue.

(** ** Reading a session back ([getQuizProgress], [getQuizResult],
    [getActiveQuizSession]) *)

Record QuizProgressInfo : Type := mkQuizProgressInfo {
  qp_score : Z;
  qp_answered : Z;
  qp_totalItems : Z
}.

Section Readers.
Local Open Scope srv_scope.

(** [quizSession.findUnique({ where: { id }, include: { _count: { select:
    { answers: true } } } })]: the caller's identity is not part of the
    query. *)
Definition getQuizProgress (sessionId : string) : Srv QuizProgressInfo :=
  found <- query (fun db => quizSession db !! sessionId) ;;
  match found with
  | None => throw "Quiz session not found"
  | Some session =>
      answered <- query (countAnswers sessionId) ;;
      ret {| qp_score := qs_score session;
             qp_answered := answered;
             qp_totalItems := qs_totalItems session |}
  end.

Definition getQuizResult (userId sessionId : string) : Srv (option QuizResult) :=
  found <- query (findSession sessionId userId) ;;
  match found with
  | None => ret None
  | Some session =>
      match qs_completedAt session with
      | None => ret None
      | Some completedAt =>
          stored <- query (fun db => userProgress db !! (userId, qs_moduleId session)) ;;
          let timeSpentMs := completedAt - qs_startedAt session in
          let percentage :=
            (inject_Z (qs_score session) / inject_Z (qs_totalItems session) * 100)%Q in
          ret (Some {| qr_sessionId := sessionId;
                       qr_score := qs_score session;
                       qr_totalItems := qs_totalItems session;
                       qr_percentage := percentage;
                       qr_timeSpentMs := timeSpentMs;
                       moduleProgressUpdated := true;
                       newModuleProgress := default percentage stored;
                       isModuleCompleted :=
                         JS.geq (default 0%Q stored) COMPLETION_THRESHOLD;
                       unlockedNextModule := false |})
      end
  end.

(** The session's module is a required relation; a store without the row
    makes [session.module.moduleCharacters] a read of [undefined]. *)
Definition getActiveQuizSession (userId sessionId : string) (g : JS.RandomSource)
  : Srv (option QuizSession * JS.RandomSource) :=
  found <- query (findActiveSession sessionId userId) ;;
  match found with
  | None => ret (None, g)
  | Some session =>
      related <- query (fun db => module db !! qs_moduleId session) ;;
      match related with
      | None => throw "TypeError: Cannot read properties of undefined"
      | Some m =>
          answers <- query (answersOf sessionId) ;;
          let answeredIds := map qa_characterId answers in
          let characters :=
            map toQuizCharacter
                (filter (fun c => ch_id c ∉ answeredIds) (moduleCharacters m)) in
          let allReadings := map ch_reading (moduleCharacters m) in
          let (questions, g) := buildQuestions characters allReadings 4 g in
          ret (Some {| session_id := qs_id session;
                       session_moduleId := qs_moduleId session;
                       session_moduleName := mod_name m;
                       questions := questions;
                       session_totalItems := qs_totalItems session;
                       session_startedAt := qs_startedAt session |}, g)
      end
  end.

End Readers.

(** ** Server actions ([actions/quiz-actions]) *)

(** [ActionResult<T>]. *)
Inductive ActionResult (A : Type) : Type :=
| Success (data : A)
| Failure (error : string).
Arguments Success {A} data.
Arguments Failure {A} error.

Definition Action (A : Type) : Type := DB -> DB * ActionResult A.

(** The [try { ... return { success: true, data } } catch (error) { return
    { success: false, error: message } }] of every action.  Whatever the
    library functions throw is an [Error], so [message] is its message. *)
Definition catching {A} (body : Srv A) : Action A :=
  fun db =>
    match body db with
    | (db', Returned data) => (db', Success data)
    | (db', Thrown message) => (db', Failure message)
    end.

(** [const user = await getUser(); if (!user) return { success: false,
    error: "Not authenticated" }]; [user] is the id [getUser] resolves to,
    if any. *)
Definition authenticated {A} (user : option string) (body : string -> Srv A)
  : Action A :=
  match user with
  | None => fun db => (db, Failure "Not authenticated")
  | Some userId => catching (body userId)
  end.

Definition startQuizAction (user : option string) (newId : string) (now : Z)
    (moduleId : string) (config : QuizConfig) (g : JS.RandomSource)
  : Action (QuizSession * JS.RandomSource) :=
  authenticated user (fun userId => startQuiz newId now userId moduleId config g).

Definition getActiveQuizAction (user : option string) (sessionId : string)
    (g : JS.RandomSource) : Action (option QuizSession * JS.RandomSource) :=
  authenticated user (fun userId => getActiveQuizSession userId sessionId g).

Definition submitAnswerAction (user : option string) (now : Z)
    (sessionId characterId userAnswer : string) (responseTimeMs : option Z)
  : Action AnswerResult :=
  authenticated user (fun userId =>
    submitAnswer now userId sessionId characterId userAnswer responseTimeMs).

Definition getQuizProgressAction (user : option string) (sessionId : string)
  : Action QuizProgressInfo :=
  authenticated user (fun _ => getQuizProgress sessionId).

Definition completeQuizAction (user : option string) (now completedAt : Z)
    (sessionId : string) : Action QuizResult :=
  authenticated user (fun userId => completeQuiz now completedAt userId sessionId).

Definition abandonQuizAction (user : option string) (sessionId : string)
  : Action unit :=
  authenticated user (fun userId => abandonQuiz userId sessionId).

Definition getQuizResultAction (user : option string) (sessionId : string)
  : Action (option QuizResult) :=
  authenticated user (fun userId => getQuizResult userId sessionId).

Definition submitAnswersBatchAction (user : option string) (now : Z)
    (sessionId : string) (answers : list BatchAnswer) : Action BatchSubmitResult :=
  authenticated user (fun userId => submitAnswersBatch now userId sessionId answers).

(** ** Ordering *)

(** [Array.prototype.sort(compare)], a stable sort, for a comparison given
    by [before a b], the test [compare(a, b) < 0]; it also stands for an
    [orderBy] of the store, rows of equal key staying in the order the
    table yields them. *)
Fixpoint insertSorted {T} (before : T -> T -> bool) (x : T) (sorted : list T)
  : list T :=
  match sorted with
  | [] => [x]
  | y :: rest =>
      if before y x then y :: insertSorted before x rest else x :: y :: rest
  end.

Definition Array_sort {T} (before : T -> T -> bool) (array : list T) : list T :=
  foldr (insertSorted before) [] array.

(** ** Modules and their unlock status ([features/modules/lib/get-modules]) *)

(** [ModuleWithProgress]; its [characters] have the fields of a
    [QuizCharacter]. *)
Record ModuleWithProgress : Type := mkModuleWithProgress {
  mp_id : string;
  mp_name : string;
  mp_order : Z;
  mp_characters : list QuizCharacter;
  mp_progress : Q;
  isUnlocked : bool;
  isCompleted : bool;
  isCurrent : bool
}.

Record ProgressSummary : Type := mkProgressSummary {
  totalModules : Z;
  completedModules : Z;
  currentModule : option ModuleWithProgress;
  nextModule : option ModuleWithProgress
}.

(** [module.findMany({ orderBy: { order: "asc" }, include: ... })]. *)
Definition modulesByOrder (db : DB) : list ModuleRow :=
  Array_sort (fun a b => mod_order a <? mod_order b)
             (map snd (map_to_list (module db))).

(** [progressMap.get(moduleId)], for the map built from the user's
    [userProgress] rows. *)
Definition progressMapGet (userId : string) (db : DB) (moduleId : string) : option Q :=
  userProgress db !! (userId, moduleId).

(** The callback of [modules.map((module, index) => ...)], from the entry
    at [index] on: [previous] is [modules[index - 1]] ([None] at index 0)
    and [currentModuleId] the variable the callback closes over. *)
Fixpoint withProgressFrom (progressMap : string -> option Q)
    (previous : option ModuleRow) (currentModuleId : option string)
    (modules : list ModuleRow) : list ModuleWithProgress :=
  match modules with
  | [] => []
  | m :: rest =>
      let progress := default 0%Q (progressMap (mod_id m)) in
      let isCompleted := JS.geq progress 100 in
      let isUnlocked :=
        match previous with
        | None => true
        | Some p => JS.geq (default 0%Q (progressMap (mod_id p))) UNLOCK_THRESHOLD
        end in
      let isCurrent :=
        isUnlocked && negb isCompleted && bool_decide (currentModuleId = None) in
      let currentModuleId :=
        if isCurrent then Some (mod_id m) else currentModuleId in
      {| mp_id := mod_id m; mp_name := mod_name m; mp_order := mod_order m;
         mp_characters := map toQuizCharacter (moduleCharacters m);
         mp_progress := progress;
         isUnlocked := isUnlocked; isCompleted := isCompleted;
         isCurrent := isCurrent |}
      :: withProgressFrom progressMap (Some m) currentModuleId rest
  end.

Definition getModulesWithProgress (userId : string) (db : DB)
  : list ModuleWithProgress :=
  withProgressFrom (progressMapGet userId db) None None (modulesByOrder db).

(** The part of [getProgressSummary] after the modules are fetched. *)
Definition summarize (modules : list ModuleWithProgress) : ProgressSummary :=
  let completedModules :=
    Z.of_nat (length (List.filter isCompleted modules)) in
  let currentModule := List.find isCurrent modules in
  let nextModule :=
    match currentModule with
    | Some current =>
        match list_find (fun m => mp_id m = mp_id current) modules with
        | Some (currentIndex, _) =>
            if Z.of_nat currentIndex <? Z.of_nat (length modules) - 1
            then modules !! (currentIndex + 1)%nat
            else None
        | None => None
        end
    | None => None
    end in
  {| totalModules := Z.of_nat (length modules);
     completedModules := completedModules;
     currentModule := currentModule;
     nextModule := nextModule |}.

Definition getProgressSummary (userId : string) (db : DB) : ProgressSummary :=
  summarize (getModulesWithProgress userId db).

(** The gate of the module page: [notFound()] for an unknown module,
    a redirect to the dashboard for a locked one. *)
Inductive PageAccess : Type := NotFound | RedirectDashboard | Shown.

Definition modulePageAccess (userId moduleId : string) (db : DB) : PageAccess :=
  match List.find (fun m => bool_decide (mp_id m = moduleId))
                  (getModulesWithProgress userId db) with
  | None => NotFound
  | Some m => if isUnlocked m then Shown else RedirectDashboard
  end.

(** ** Statistics ([lib/get-quiz-stats]) *)

Definition WEAK_THRESHOLD : Q := 0.6.
Definition STRONG_THRESHOLD : Q := 0.85.

Record CharacterStats : Type := mkCharacterStats {
  cs_characterId : string;
  cs_character : string;
  cs_reading : string;
  cs_totalAttempts : Z;
  cs_correctCount : Z;
  cs_accuracy : Q;
  cs_streakCount : Z;
  cs_lastAttemptAt : option Z
}.

Record ModuleQuizStats : Type := mkModuleQuizStats {
  ms_moduleId : string;
  ms_moduleName : string;
  totalSessions : Z;
  averageScore : Q;
  bestScore : Q;
  ms_totalTimeSpentMs : Z;
  characterStats : list CharacterStats;
  weakCharacters : list CharacterStats;
  strongCharacters : list CharacterStats
}.

Record OverallQuizStats : Type := mkOverallQuizStats {
  totalQuizzes : Z;
  totalCorrectAnswers : Z;
  totalAnswers : Z;
  overallAccuracy : Q;
  os_totalTimeSpentMs : Z;
  masteredCharacters : Z;
  totalCharactersAttempted : Z
}.

Record HistoryEntry : Type := mkHistoryEntry {
  he_sessionId : string;
  he_score : Z;
  he_totalItems : Z;
  he_percentage : Q;
  he_completedAt : Z;
  he_timeSpentMs : Z
}.

(** [a < b] on numbers. *)
Definition Qltb (a b : Q) : bool := negb (Qle_bool b a).

(** [quizSession.findMany({ where: { userId, moduleId, completedAt: { not:
    null } }, orderBy: { completedAt: "desc" } })]. *)
Definition completedSessionsOf (userId moduleId : string) (db : DB)
  : list QuizSessionRow :=
  Array_sort (fun a b => default 0 (qs_completedAt b) <? default 0 (qs_completedAt a))
    (map snd (filter
       (fun kv => qs_userId (snd kv) = userId /\ qs_moduleId (snd kv) = moduleId
                  /\ qs_completedAt (snd kv) <> None)
       (map_to_list (quizSession db)))).

(** The callback of [moduleCharacters.map] in [getModuleQuizStats];
    [stats] is [statsMap.get(mc.character.id)]. *)
Definition characterStatsOf (stats : option UserCharacterStatsRow) (c : CharacterRow)
  : CharacterStats :=
  let totalAttempts := default 0 (totalAttempts <$> stats) in
  let correctCount := default 0 (correctCount <$> stats) in
  let accuracy :=
    if 0 <? totalAttempts then (inject_Z correctCount / inject_Z totalAttempts)%Q
    else 0%Q in
  {| cs_characterId := ch_id c;
     cs_character := ch_character c;
     cs_reading := ch_reading c;
     cs_totalAttempts := totalAttempts;
     cs_correctCount := correctCount;
     cs_accuracy := accuracy;
     cs_streakCount := default 0 (streakCount <$> stats);
     cs_lastAttemptAt := lastAttemptAt <$> stats |}.

(** [(s.score / s.totalItems) * 100]. *)
Definition sessionPercentage (s : QuizSessionRow) : Q :=
  (inject_Z (qs_score s) / inject_Z (qs_totalItems s) * 100)%Q.

(** [completedAt.getTime() - startedAt.getTime()] summed over the sessions
    that have a [completedAt]. *)
Definition sumTimeSpent (sessions : list QuizSessionRow) : Z :=
  fold_left (fun total session =>
               match qs_completedAt session with
               | Some completedAt => total + (completedAt - qs_startedAt session)
               | None => total
               end) sessions 0.

(** [Math.max(...scores)] of a non-empty array. *)
Definition maxOf (first : Q) (others : list Q) : Q :=
  fold_left JS.Math_max others first.

(** Percentages are exact rationals and [averageScore] is their exact
    mean; [bestScore], a maximum, does not depend on rounding. *)
Definition getModuleQuizStats (userId moduleId : string) : Srv ModuleQuizStats :=
  bind (query (fun db => module db !! moduleId)) (fun found =>
  match found with
  | None => throw "Module not found"
  | Some m =>
      bind (query (completedSessionsOf userId moduleId)) (fun sessions =>
      bind (query (fun db => fun cid => userCharacterStats db !! (userId, cid)))
           (fun statsMapGet =>
      let characterStats :=
        map (fun c => characterStatsOf (statsMapGet (ch_id c)) c)
            (moduleCharacters m) in
      let weakCharacters :=
        Array_sort (fun a b => Qltb (cs_accuracy a) (cs_accuracy b))
          (List.filter (fun c => (0 <? cs_totalAttempts c)
                                 && Qltb (cs_accuracy c) WEAK_THRESHOLD)
                       characterStats) in
      let strongCharacters :=
        Array_sort (fun a b => Qltb (cs_accuracy b) (cs_accuracy a))
          (List.filter (fun c => (3 <=? cs_totalAttempts c)
                                 && JS.geq (cs_accuracy c) STRONG_THRESHOLD)
                       characterStats) in
      let totalSessions := Z.of_nat (length sessions) in
      let scores := map sessionPercentage sessions in
      let averageScore :=
        if (0 <? length scores)%nat
        then (fold_left Qplus scores 0 / inject_Z (Z.of_nat (length scores)))%Q
        else 0%Q in
      let bestScore :=
        match scores with
        | first :: others => maxOf first others
        | [] => 0%Q
        end in
      ret {| ms_moduleId := mod_id m;
             ms_moduleName := mod_name m;
             totalSessions := totalSessions;
             averageScore := averageScore;
             bestScore := bestScore;
             ms_totalTimeSpentMs := sumTimeSpent sessions;
             characterStats := characterStats;
             weakCharacters := weakCharacters;
             strongCharacters := strongCharacters |}))
  end).

(** [quizSession.findMany({ where: { userId, completedAt: { not: null } } })]. *)
Definition allCompletedSessionsOf (userId : string) (db : DB) : list QuizSessionRow :=
  map snd (filter
    (fun kv => qs_userId (snd kv) = userId /\ qs_completedAt (snd kv) <> None)
    (map_to_list (quizSession db))).

(** [userCharacterStats.findMany({ where: { userId } })]. *)
Definition allStatsOf (userId : string) (db : DB) : list UserCharacterStatsRow :=
  map snd (filter (fun kv => fst (fst kv) = userId)
                  (map_to_list (userCharacterStats db))).

Definition getOverallQuizStats (userId : string) (db : DB) : OverallQuizStats :=
  let sessions := allCompletedSessionsOf userId db in
  let allStats := allStatsOf userId db in
  let totalCorrectAnswers := fold_left (fun sum s => sum + qs_score s) sessions 0 in
  let totalAnswers := fold_left (fun sum s => sum + qs_totalItems s) sessions 0 in
  {| totalQuizzes := Z.of_nat (length sessions);
     totalCorrectAnswers := totalCorrectAnswers;
     totalAnswers := totalAnswers;
     overallAccuracy :=
       if 0 <? totalAnswers
       then (inject_Z totalCorrectAnswers / inject_Z totalAnswers)%Q else 0%Q;
     os_totalTimeSpentMs := sumTimeSpent sessions;
     masteredCharacters :=
       Z.of_nat (length (List.filter
         (fun s => (5 <=? totalAttempts s)
                   && JS.geq (inject_Z (correctCount s) / inject_Z (totalAttempts s))
                             0.85)
         allStats));
     totalCharactersAttempted := Z.of_nat (length allStats) |}.

(** [limit] is the number of rows [take] keeps. *)
Definition getQuizHistory (userId moduleId : string) (limit : nat) (db : DB)
  : list HistoryEntry :=
  map (fun session =>
         {| he_sessionId := qs_id session;
            he_score := qs_score session;
            he_totalItems := qs_totalItems session;
            he_percentage := sessionPercentage session;
            he_completedAt := default 0 (qs_completedAt session);
            he_timeSpentMs :=
              default 0 (qs_completedAt session) - qs_startedAt session |})
      (take limit (completedSessionsOf userId moduleId db)).

(** ** Statistics actions ([actions/stats-actions]) *)

Definition getModuleStatsAction (user : option string) (moduleId : string)
  : Action ModuleQuizStats :=
  authenticated user (fun userId => getModuleQuizStats userId moduleId).

Definition getOverallStatsAction (user : option string) : Action OverallQuizStats :=
  authenticated user (fun userId => query (getOverallQuizStats userId)).

Definition getQuizHistoryAction (user : option string) (moduleId : string)
    (limit : nat) : Action (list HistoryEntry) :=
  authenticated user (fun userId => query (getQuizHistory userId moduleId limit)).

(** ** The answer queue's storage and status ([hooks/useAnswerQueue],
    [components/QuizSyncStatus]) *)

(** The entry of [localStorage] under [STORAGE_KEY], as the array it
    encodes ([None]: no entry), and whether [setItem] throws (storage
    full or unavailable). *)
Record LocalStorage : Type := mkLocalStorage {
  ls_item : option (list PendingAnswer);
  ls_full : bool
}.

Definition loadFromStorage (now : Z) (st : LocalStorage) : list PendingAnswer :=
  match ls_item st with
  | None => []
  | Some answers =>
      let cutoff := now - 24 * 60 * 60 * 1000 in
      List.filter (fun a => cutoff <? pa_timestamp a) answers
  end.

(** [localStorage.setItem(STORAGE_KEY, JSON.stringify(value))] inside
    [try { ... } catch { }]. *)
Definition setItem (value : list PendingAnswer) (st : LocalStorage) : LocalStorage :=
  if ls_full st then st else {| ls_item := Some value; ls_full := ls_full st |}.

Definition saveToStorage (answers : list PendingAnswer) (st : LocalStorage)
  : LocalStorage :=
  let toSave := List.filter (fun a => negb (bool_decide (status a = synced))) answers in
  setItem toSave st.

Definition clearSessionFromStorage (sessionId : string) (now : Z) (st : LocalStorage)
  : LocalStorage :=
  let stored := loadFromStorage now st in
  let filtered :=
    List.filter (fun a => negb (bool_decide (pa_sessionId a = sessionId))) stored in
  setItem filtered st.

(** The state of the hook besides its refs. *)
Record HookState : Type := mkHookState {
  hs_answers : list PendingAnswer;
  hs_localScore : Z
}.

(** The two effects of the hook after its first render, in the order they
    are declared: the first runs on the initial [answers = []], the second
    loads the stored answers of the session; when it restores any, the
    change of [answers] runs the first effect again. *)
Definition mountHook (sessionId : string) (now : Z) (st : LocalStorage)
  : HookState * LocalStorage :=
  let st := saveToStorage [] st in
  let stored := loadFromStorage now st in
  let sessionAnswers :=
    List.filter (fun a => bool_decide (pa_sessionId a = sessionId)) stored in
  if (0 <? length sessionAnswers)%nat
  then ({| hs_answers := sessionAnswers;
           hs_localScore := Z.of_nat (length (List.filter pa_isCorrect sessionAnswers)) |},
        saveToStorage sessionAnswers st)
  else ({| hs_answers := []; hs_localScore := 0 |}, st).

Record QueueState : Type := mkQueueState {
  st_pending : Z;
  st_syncing : Z;
  st_failed : Z;
  allSynced : bool
}.

Definition getQueueState (current : list PendingAnswer) : QueueState :=
  let pendingCount :=
    Z.of_nat (length (List.filter (fun a => bool_decide (status a = pending)) current)) in
  let syncingCount :=
    Z.of_nat (length (List.filter (fun a => bool_decide (status a = syncing)) current)) in
  let failedCount :=
    Z.of_nat (length (List.filter
      (fun a => bool_decide (status a = failed) && (MAX_RETRIES <=? retryCount a))
      current)) in
  {| st_pending := pendingCount;
     st_syncing := syncingCount;
     st_failed := failedCount;
     allSynced := (pendingCount =? 0) && (syncingCount =? 0) |}.

Definition hasAnswered (current : list PendingAnswer) (characterId : string) : bool :=
  existsb (fun a => bool_decide (pa_characterId a = characterId)) current.

(** What [QuizSyncStatus] renders. *)
Inductive SyncIndicator : Type :=
| Hidden
| Saving
| Unsaved (count : Z).

Definition QuizSyncStatus (queueState : QueueState) : SyncIndicator :=
  if allSynced queueState && (st_failed queueState =? 0) then Hidden
  else if (0 <? st_pending queueState) || (0 <? st_syncing queueState) then Saving
  else if 0 <? st_failed queueState then Unsaved (st_failed queueState)
  else Hidden.

(** ** Playing a quiz through ([components/QuizContainer]) *)

Definition initialContainer (initialSession : QuizSession) : Container :=
  {| ct_session := initialSession; currentIndex := 0; ct_state := playing;
     ct_feedback := None; ct_localScore := 0; ct_answersRef := [] |}.

(** [currentIndex === session.questions.length - 1]. *)
Definition isLastQuestion (c : Container) : bool :=
  Z.of_nat (currentIndex c) =? Z.of_nat (length (questions (ct_session c))) - 1.

(** The timer callback set by an accepted [handleAnswer], 1200 ms later:
    on the last question the container starts completing (the server
    calls are [advanceLast]), otherwise it shows the next question.
    [wasLast] is the [isLastQuestion] the callback captured. *)
Definition feedbackTimer (wasLast : bool) (c : Container) : Container :=
  if wasLast
  then {| ct_session := ct_session c; currentIndex := currentIndex c;
          ct_state := completing; ct_feedback := ct_feedback c;
          ct_localScore := ct_localScore c; ct_answersRef := ct_answersRef c |}
  else {| ct_session := ct_session c; currentIndex := (currentIndex c + 1)%nat;
          ct_state := playing; ct_feedback := None;
          ct_localScore := ct_localScore c; ct_answersRef := ct_answersRef c |}.

(** One answer and the timer it sets; an answer that [handleAnswer]
    ignores sets none. *)
Definition answerQuestion (c : Container) (answer : string * Z) : Container :=
  match ct_state c, questions (ct_session c) !! currentIndex c with
  | playing, Some _ =>
      feedbackTimer (isLastQuestion c) (handleAnswer answer.1 answer.2 c)
  | _, _ => c
  end.

Definition playThrough (answers : list (string * Z)) (c : Container) : Container :=
  fold_left answerQuestion answers c.

(** * Specification vocabulary and sample data *)

(** ** Predicates and derived quantities *)

(** What [buildQuestion] guarantees for one question. *)
Record question_ok (allReadings : list string) (optionsCount : Z)
    (q : QuizQuestion) : Prop := {
  ok_correctAnswer : correctAnswer q = qc_reading (qq_character q);
  ok_once : length (filter (fun o => o = correctAnswer q) (options q)) = 1%nat;
  ok_distractors :
    exists wrong,
      options q ≡ₚ correctAnswer q :: wrong
      /\ NoDup wrong
      /\ (forall r, r ∈ wrong -> r ∈ allReadings /\ r <> correctAnswer q)
      /\ (1 <= optionsCount ->
          length wrong =
            Nat.min (Z.to_nat (optionsCount - 1))
                    (length (filter (fun r => r <> correctAnswer q) allReadings)))
}.

(** A five-character module and a learner with no statistics. *)
Definition vowelRows : list CharacterRow :=
  [ {| ch_id := "c-a"; ch_character := "あ"; ch_reading := "a";
       ch_type := HIRAGANA; ch_order := 1 |};
    {| ch_id := "c-i"; ch_character := "い"; ch_reading := "i";
       ch_type := HIRAGANA; ch_order := 2 |};
    {| ch_id := "c-u"; ch_character := "う"; ch_reading := "u";
       ch_type := HIRAGANA; ch_order := 3 |};
    {| ch_id := "c-e"; ch_character := "え"; ch_reading := "e";
       ch_type := HIRAGANA; ch_order := 4 |};
    {| ch_id := "c-o"; ch_character := "お"; ch_reading := "o";
       ch_type := HIRAGANA; ch_order := 5 |} ].

Definition kRows : list CharacterRow :=
  [ {| ch_id := "c-ka"; ch_character := "か"; ch_reading := "ka";
       ch_type := HIRAGANA; ch_order := 6 |};
    {| ch_id := "c-ki"; ch_character := "き"; ch_reading := "ki";
       ch_type := HIRAGANA; ch_order := 7 |} ].

Definition vowelModule : ModuleRow :=
  {| mod_id := "m-vowels"; mod_name := "Vocales"; mod_order := 1;
     moduleCharacters := vowelRows |}.

Definition kModule : ModuleRow :=
  {| mod_id := "m-k"; mod_name := "K"; mod_order := 2;
     moduleCharacters := kRows |}.

Definition seedDB : DB :=
  {| character := list_to_map (map (fun c => (ch_id c, c)) (vowelRows ++ kRows));
     module := {[ "m-vowels" := vowelModule; "m-k" := kModule ]};
     quizSession := ∅;
     quizAnswer := [];
     userCharacterStats := ∅;
     userProgress := ∅ |}.

(** A source of draws that cycles through 1/4, 1/2 and 3/4. *)
Definition cyclicDraws : JS.RandomSource :=
  fun n =>
    match (n mod 3)%nat with
    | 0%nat => JS.Draw (1 # 4) eq_refl
    | 1%nat => JS.Draw (1 # 2) eq_refl
    | _ => JS.Draw (3 # 4) eq_refl
    end.

(** The stats row written by [submitAnswer]. *)
Definition answeredStats (now : Z) (isCorrect : bool)
    (existingStats : option UserCharacterStatsRow) : UserCharacterStatsRow :=
  match existingStats with
  | Some st =>
      {| totalAttempts := totalAttempts st + 1;
         correctCount := correctCount st + (if isCorrect then 1 else 0);
         streakCount := if isCorrect then streakCount st + 1 else 0;
         lastAttemptAt := now |}
  | None =>
      {| totalAttempts := 1;
         correctCount := if isCorrect then 1 else 0;
         streakCount := if isCorrect then 1 else 0;
         lastAttemptAt := now |}
  end.

(** The stats row written by [submitAnswersBatch] for one answer. *)
Definition batchedStats (now : Z) (isCorrect : bool)
    (existingStats : option UserCharacterStatsRow) : UserCharacterStatsRow :=
  match existingStats with
  | Some st =>
      {| totalAttempts := totalAttempts st + 1;
         correctCount := if isCorrect then correctCount st + 1 else correctCount st;
         streakCount := if isCorrect then streakCount st + 1 else 0;
         lastAttemptAt := now |}
  | None =>
      {| totalAttempts := 1;
         correctCount := if isCorrect then 1 else 0;
         streakCount := if isCorrect then 1 else 0;
         lastAttemptAt := now |}
  end.

(** The stats table after the loop over a batch. *)
Definition batchedTable (now : Z) (userId : string) (answers : list BatchAnswer)
    (table : gmap (string * string) UserCharacterStatsRow)
  : gmap (string * string) UserCharacterStatsRow :=
  fold_left (fun table answer =>
               <[(userId, ba_characterId answer) :=
                   batchedStats now (ba_isCorrect answer)
                     (table !! (userId, ba_characterId answer))]> table)
            answers table.

Definition batchScore (answers : list BatchAnswer) : Z :=
  Z.of_nat (length (filter (fun a => ba_isCorrect a = true) answers)).

(** The progress written by [completeQuiz]. *)
Definition completedProgress (userId : string) (session : QuizSessionRow) (db : DB) : Q :=
  calculateNewProgress
    (storedProgress userId (qs_moduleId session) db)
    (inject_Z (qs_score session) / inject_Z (qs_totalItems session) * 100)%Q
    (countCompletedSessions userId (qs_moduleId session) db + 1).

(** The learner's first quiz on the vowels, started. *)
Definition startedDB : DB :=
  (startQuiz "s-1" 0 "u-1" "m-vowels" DEFAULT_QUIZ_CONFIG cyclicDraws seedDB).1.

(** A correct single answer, in capitals, on the started quiz. *)
Definition answeredDB : DB :=
  (submitAnswer 5 "u-1" "s-1" "c-a" "A" (Some 900) startedDB).1.

(** The states of the store: it starts with the reference data only and
    changes by the successful calls of the five server functions. *)
Definition initial (db : DB) : Prop :=
  quizSession db = ∅ /\ quizAnswer db = [] /\ userCharacterStats db = ∅
  /\ userProgress db = ∅.

Inductive step (db db' : DB) : Prop :=
| step_startQuiz newId now userId moduleId config g r :
    startQuiz newId now userId moduleId config g db = (db', Returned r) ->
    step db db'
| step_submitAnswer now userId sessionId characterId userAnswer rt r :
    submitAnswer now userId sessionId characterId userAnswer rt db = (db', Returned r) ->
    step db db'
| step_submitAnswersBatch now userId sessionId answers r :
    submitAnswersBatch now userId sessionId answers db = (db', Returned r) ->
    step db db'
| step_completeQuiz now completedAt userId sessionId r :
    completeQuiz now completedAt userId sessionId db = (db', Returned r) ->
    step db db'
| step_abandonQuiz userId sessionId r :
    abandonQuiz userId sessionId db = (db', Returned r) ->
    step db db'.

Inductive reachable : DB -> Prop :=
| reachable_initial db : initial db -> reachable db
| reachable_step db db' : reachable db -> step db db' -> reachable db'.

Definition stats_ok (st : UserCharacterStatsRow) : Prop :=
  0 <= correctCount st <= totalAttempts st /\ 0 < totalAttempts st.

Record consistent (db : DB) : Prop := {
  score_bounds :
    forall sid s, quizSession db !! sid = Some s ->
                  0 <= qs_score s <= countAnswers sid db;
  stats_bounds :
    forall key st, userCharacterStats db !! key = Some st -> stats_ok st
}.

(** Six answers, all flagged correct by the client, for a session of five
    items: the batch is accepted and the score is 6. *)
Definition overlongBatch : list BatchAnswer :=
  map (fun cid => {| ba_characterId := cid; ba_userAnswer := "x";
                     ba_isCorrect := true; ba_responseTimeMs := 500 |})
      ["c-a"; "c-i"; "c-u"; "c-e"; "c-o"; "c-ka"].

(** The five vowels, all answered correctly by an honest client. *)
Definition honestBatch : list BatchAnswer :=
  map (fun c => {| ba_characterId := ch_id c; ba_userAnswer := ch_reading c;
                   ba_isCorrect := true; ba_responseTimeMs := 800 |})
      vowelRows.

Definition batchedDB : DB :=
  (submitAnswersBatch 5 "u-1" "s-1" honestBatch startedDB).1.

Definition completedDB : DB := (completeQuiz 9 9 "u-1" "s-1" batchedDB).1.

Definition firstResult : QuizResult :=
  {| qr_sessionId := "s-1"; qr_score := 5; qr_totalItems := 5;
     qr_percentage := inject_Z 5 / inject_Z 5 * 100;
     qr_timeSpentMs := 9;
     moduleProgressUpdated := true;
     newModuleProgress := inject_Z 5 / inject_Z 5 * 100;
     isModuleCompleted := true;
     unlockedNextModule := true |}.

(** A later session that lifts the stored progress from 79 to 81 unlocks
    the next module; one that starts from 81 does not. *)
Definition laterDB (stored : Q) : DB :=
  {| character := character seedDB;
     module := module seedDB;
     quizSession :=
       {[ "s-0" := with_completedAt 3 (QuizSession_create "s-0" "u-1" "m-vowels" 5 1);
          "s-1" := with_score 21 (QuizSession_create "s-1" "u-1" "m-vowels" 25 4) ]};
     quizAnswer := [];
     userCharacterStats := ∅;
     userProgress := {[ ("u-1", "m-vowels") := stored ]} |}.

(** One answer, queued; the server is unreachable. *)
Definition oneQueued : Queue :=
  (enqueue "a-1" "s-1" "c-a" "a" "a" 800 1
     {| answersRef := []; processingRef := false; mountedRef := true |}).1.

Definition unreachable (a : PendingAnswer) : bool := false.

(** Two answers, queued; the server is unreachable. *)
Definition twoQueued : Hook :=
  {| hk_queue :=
       (enqueue "a-2" "s-1" "c-i" "i" "i" 700 2 oneQueued).1;
     hk_passes := []; hk_timers := []; hk_sent := [] |}.

(** The first pass fails for both answers (at 10 ms and 510 ms); the first
    retry timer starts a second pass that fails for both at once; the
    second timer starts a third pass whose first delivery hangs.  While it
    hangs, the timers set by the second pass fire: the first resets
    [processingRef] and starts an overlapping pass that sends "a-2" and
    fails, the third failure of "a-2"; the second finds nothing to send.
    When the hanging delivery finally fails, the third pass goes on with
    the "a-2" it captured at its start. *)
Definition overlappingRun : list Event :=
  [ CallProcessQueue; Settled 0 false; Settled 0 false;
    TimerFires; Settled 0 false; Settled 0 false;
    TimerFires;
    TimerFires; Settled 1 false;
    TimerFires;
    Settled 0 false ].

(** ** Further vocabulary *)

(** The overlong batch accepted on the started quiz, and the session
    completed: the first completion stores 6/5 of 100. *)
Definition overfullDB : DB :=
  (submitAnswersBatch 5 "u-1" "s-1" overlongBatch startedDB).1.

Definition overdoneDB : DB := (completeQuiz 9 9 "u-1" "s-1" overfullDB).1.

(** A second quiz on the vowels, started after that. *)
Definition restartedDB : DB :=
  (startQuiz "s-2" 10 "u-1" "m-vowels" DEFAULT_QUIZ_CONFIG cyclicDraws overdoneDB).1.

(** Three quizzes on the vowels, each one submitted as a batch: あ is
    answered correctly three times, い wrongly once. *)
Definition practisedDB : DB :=
  let right :=
    {| ba_characterId := "c-a"; ba_userAnswer := "a"; ba_isCorrect := true;
       ba_responseTimeMs := 800 |} in
  let wrong :=
    {| ba_characterId := "c-i"; ba_userAnswer := "e"; ba_isCorrect := false;
       ba_responseTimeMs := 900 |} in
  let db := (submitAnswersBatch 5 "u-1" "s-1" [right; wrong] startedDB).1 in
  let db := (startQuiz "s-2" 10 "u-1" "m-vowels" DEFAULT_QUIZ_CONFIG cyclicDraws db).1 in
  let db := (submitAnswersBatch 15 "u-1" "s-2" [right] db).1 in
  let db := (startQuiz "s-3" 20 "u-1" "m-vowels" DEFAULT_QUIZ_CONFIG cyclicDraws db).1 in
  (submitAnswersBatch 25 "u-1" "s-3" [right] db).1.

(** The later quiz of [laterDB] completed: two completed sessions, of 0
    and of 84 percent. *)
Definition twiceCompletedDB : DB := (completeQuiz 9 11 "u-1" "s-1" (laterDB 50)).1.

(** The started quiz, abandoned after one answer. *)
Definition abandonedDB : DB := (abandonQuiz "u-1" "s-1" answeredDB).1.

(** A session that counts as completed for a learner and a module. *)
Definition completedFor (userId moduleId : string) (s : QuizSessionRow) : Prop :=
  qs_userId s = userId /\ qs_moduleId s = moduleId /\ qs_completedAt s <> None.

(** In a reachable store, progress is on record for a learner and a
    module exactly when the learner has completed a session of it. *)
Definition history_ok (db : DB) : Prop :=
  forall userId moduleId,
    is_Some (userProgress db !! (userId, moduleId))
    <-> exists sid s, quizSession db !! sid = Some s /\ completedFor userId moduleId s.

(** What [buildQuestion] guarantees whatever the list of readings. *)
Record question_basic (allReadings : list string) (optionsCount : Z)
    (q : QuizQuestion) : Prop := {
  basic_correctAnswer : correctAnswer q = qc_reading (qq_character q);
  basic_once : length (filter (fun o => o = correctAnswer q) (options q)) = 1%nat;
  basic_from :
    forall o, o ∈ options q -> o = correctAnswer q \/ o ∈ allReadings;
  basic_length :
    1 <= optionsCount -> (length (options q) <= Z.to_nat optionsCount)%nat
}.

(** A module the user can work on: unlocked and not yet completed. *)
Definition openModule (m : ModuleWithProgress) : bool :=
  isUnlocked m && negb (isCompleted m).

(** The entries [loadFromStorage] accepts at time [now]. *)
Definition recent (now : Z) (a : PendingAnswer) : bool :=
  now - 24 * 60 * 60 * 1000 <? pa_timestamp a.

(** The entry [handleAnswer] pushes for [answer] given to question [q]. *)
Definition localAnswer (q : QuizQuestion) (answer : string * Z) : BatchAnswer :=
  {| ba_characterId := qc_id (qq_character q);
     ba_userAnswer := answer.1;
     ba_isCorrect := sameReading answer.1 (correctAnswer q);
     ba_responseTimeMs := answer.2 |}.

(** Every stored answer belongs to a stored session. *)
Definition answers_owned (db : DB) : Prop :=
  forall a, a ∈ quizAnswer db -> is_Some (quizSession db !! qa_sessionId a).

(** What a pass run to its end makes of a queued answer. *)
Definition delivered (deliver : PendingAnswer -> bool) (a : PendingAnswer)
  : PendingAnswer :=
  if deliverable a
  then (if deliver a then with_status synced a else with_failure a)
  else a.

(** The two updates of one loop iteration, on one entry of the cell. *)
Definition passStep (deliver : PendingAnswer -> bool) (p a : PendingAnswer)
  : PendingAnswer :=
  if decide (pa_id a = pa_id p)
  then (if deliver p then with_status synced a else with_failure a)
  else a.

(** * Properties *)

(** ** Shuffling *)

Section ShuffleFacts.
Import JS.
Context {T : Type}.
Implicit Types a : list T.

Lemma swap_length i j a : length (swap i j a) = length a.
Proof.
  unfold swap. destruct (a !! j), (a !! i); try done.
  by rewrite !length_insert.
Qed.

Lemma swap_Permutation i j a : swap i j a ≡ₚ a.
Proof.
  unfold swap.
  destruct (a !! j) as [aj|] eqn:Hj; [|done].
  destruct (a !! i) as [ai|] eqn:Hi; [|done].
  destruct (decide (i = j)) as [->|Hne].
  { assert (ai = aj) by congruence. subst.
    rewrite (list_insert_id a j aj) by done.
    by rewrite (list_insert_id a j aj). }
  pose proof (lookup_lt_Some _ _ _ Hi) as Hli.
  pose proof (lookup_lt_Some _ _ _ Hj) as Hlj.
  apply Permutation_inj. split; [by rewrite !length_insert|].
  exists (fun k => if decide (k = i) then j else if decide (k = j) then i else k).
  split.
  - intros x y. repeat case_decide; intros; subst; congruence.
  - intros k. repeat case_decide; subst.
    + rewrite list_lookup_insert_ne by done.
      rewrite list_lookup_insert_eq by done. done.
    + rewrite list_lookup_insert_eq by (by rewrite length_insert). done.
    + by rewrite !list_lookup_insert_ne.
Qed.

Lemma shuffleLoop_Permutation i a g : (shuffleLoop i a g).1 ≡ₚ a.
Proof.
  revert a g. induction i as [|i IH]; intros a g; simpl; [done|].
  rewrite IH. apply swap_Permutation.
Qed.

Lemma shuffleArray_Permutation a g : (shuffleArray a g).1 ≡ₚ a.
Proof. apply shuffleLoop_Permutation. Qed.

Lemma shuffleArray_length a g : length (shuffleArray a g).1 = length a.
Proof. by rewrite shuffleArray_Permutation. Qed.

End ShuffleFacts.

(** The index drawn in [shuffleArray] lies in [[0, i]]: the swap of the
    model is always the in-range one. *)
Lemma floorIndex_range (r : JS.draw) (i : nat) :
  (JS.floorIndex (JS.draw_val r) (i + 1) <= i)%nat.
Proof.
  unfold JS.floorIndex. destruct r as [r Hr]; cbn [JS.draw_val].
  apply andb_true_iff in Hr as [H0 H1].
  apply Qle_bool_iff in H0.
  apply negb_true_iff in H1.
  assert (Hlt : (r < 1)%Q).
  { apply Qnot_le_lt. intros Hle. apply Qle_bool_iff in Hle. congruence. }
  set (n := inject_Z (Z.of_nat (i + 1))).
  assert (Hn : (0 < n)%Q).
  { unfold n. change 0%Q with (inject_Z 0). rewrite <- Zlt_Qlt. lia. }
  assert (Hub : (r * n < n)%Q) by nra.
  assert (Hfl : (Qfloor (r * n) < Z.of_nat (i + 1))%Z).
  { rewrite Zlt_Qlt. eapply Qle_lt_trans; [apply Qfloor_le|]. exact Hub. }
  fold n. lia.
Qed.

(** ** Weighted selection *)

Section SelectFacts.
Import JS.
Context {T : Type} (wt : T -> Q).

Lemma selectScan_lookup (items : list T) pos random p x :
  selectScan wt items pos random = Some (p, x) ->
  exists k, p = (pos + k)%nat /\ items !! k = Some x.
Proof.
  revert pos random. induction items as [|item rest IH]; intros pos random; simpl.
  - discriminate.
  - destruct (Qle_bool _ _).
    + intros [= <- <-]. exists 0%nat. split; [lia|done].
    + intros H. apply IH in H as (k & -> & Hk).
      exists (S k). split; [lia|done].
Qed.

Lemma lastItem_lookup (items : list T) :
  items <> [] ->
  exists x, lastItem items = Some ((length items - 1)%nat, x)
            /\ items !! (length items - 1)%nat = Some x.
Proof.
  intros Hne. unfold lastItem. rewrite last_lookup.
  replace (Init.Nat.pred (length items)) with (length items - 1)%nat by lia.
  destruct (items !! (length items - 1)%nat) as [x|] eqn:Hx.
  - by exists x.
  - apply lookup_ge_None in Hx. destruct items; [done|simpl in Hx; lia].
Qed.

Lemma weightedRandomSelect_lookup (items : list T) g :
  items <> [] ->
  exists pos x, (weightedRandomSelect wt items g).1 = Some (pos, x)
                /\ items !! pos = Some x.
Proof.
  intros Hne. unfold weightedRandomSelect. simpl.
  destruct (selectScan _ _ _ _) as [[p x]|] eqn:Hscan; simpl.
  - apply selectScan_lookup in Hscan as (k & -> & Hk). by exists k, x.
  - destruct (lastItem_lookup items Hne) as (x & -> & Hx). eauto.
Qed.

Lemma weightedRandomSelect_rng (items : list T) g :
  (weightedRandomSelect wt items g).2 = (Math_random g).2.
Proof.
  unfold weightedRandomSelect. simpl. by destruct (selectScan _ _ _ _).
Qed.

End SelectFacts.

(** ** Adaptive selection without replacement *)

Lemma selectLoop_spec (fuel : nat) (count : Z) (selected : list QuizCharacter)
    (available : list WeightedCharacter) (g : JS.RandomSource) :
  (length available <= fuel)%nat ->
  exists picked rest g',
    selectLoop fuel count selected available g = Some (selected ++ picked, g')
    /\ picked ++ map wc_character rest ≡ₚ map wc_character available
    /\ length picked =
         Nat.min (Z.to_nat (count - Z.of_nat (length selected))) (length available).
Proof.
  revert selected available g.
  induction fuel as [|fuel IH]; intros selected available g Hfuel.
  - destruct available; [|simpl in Hfuel; lia].
    exists [], [], g. simpl. rewrite andb_false_r, app_nil_r.
    split; [done|]. split; [done|]. lia.
  - simpl.
    destruct ((Z.of_nat (length selected) <? count)
              && (0 <? Z.of_nat (length available))) eqn:Hcond.
    + apply andb_true_iff in Hcond as [Hlt Hpos].
      apply Z.ltb_lt in Hlt. apply Z.ltb_lt in Hpos.
      assert (Hne : available <> []) by (intros ->; simpl in Hpos; lia).
      destruct (weightedRandomSelect_lookup weight available g Hne)
        as (index & chosen & Hsel & Hlook).
      destruct (weightedRandomSelect weight available g) as [hit g1].
      simpl in Hsel. subst hit.
      pose proof (lookup_lt_Some _ _ _ Hlook) as Hidx.
      destruct (IH (selected ++ [wc_character chosen]) (delete index available) g1)
        as (picked & rest & g' & Hrun & Hperm & Hlen).
      { rewrite length_delete by eauto. lia. }
      exists (wc_character chosen :: picked), rest, g'.
      split; [by rewrite Hrun, <- app_assoc|].
      split.
      * simpl. rewrite Hperm.
        rewrite (delete_Permutation available index chosen Hlook) at 2. done.
      * simpl. rewrite Hlen, length_app, length_delete by eauto. simpl. lia.
    + exists [], available, g. rewrite app_nil_r.
      split; [done|]. split; [done|].
      apply andb_false_iff in Hcond as [H|H].
      * apply Z.ltb_ge in H. simpl. lia.
      * apply Z.ltb_ge in H. simpl. lia.
Qed.

(** The loop never runs out of iterations and never reads [undefined]. *)
Lemma selectAdaptiveCharacters_total (weightedCharacters : list WeightedCharacter)
    (count : Z) (g : JS.RandomSource) :
  exists selected rest g',
    selectAdaptiveCharacters weightedCharacters count g = Some (selected, g')
    /\ selected ++ map wc_character rest ≡ₚ map wc_character weightedCharacters
    /\ length selected = Nat.min (Z.to_nat count) (length weightedCharacters).
Proof.
  destruct (selectLoop_spec (length weightedCharacters) count [] weightedCharacters g)
    as (picked & rest & g' & Hrun & Hperm & Hlen); [done|].
  exists picked, rest, g'. unfold selectAdaptiveCharacters.
  split; [done|]. split; [done|].
  rewrite Hlen. simpl. f_equal. lia.
Qed.

Lemma calculateCharacterWeights_characters characters userStats config :
  map wc_character (calculateCharacterWeights characters userStats config) = characters.
Proof.
  unfold calculateCharacterWeights.
  induction characters as [|c cs IH]; simpl; [done|].
  rewrite IH. f_equal. unfold weighCharacter.
  destruct (userStats !! qc_id c) as [st|]; [|done].
  by destruct (se_totalAttempts st =? 0).
Qed.

(** ** Distinct readings and distractors *)

Lemma uniqueFrom_spec (seen array : list string) :
  NoDup (JS.uniqueFrom seen array)
  /\ forall x, x ∈ JS.uniqueFrom seen array <-> x ∈ array /\ x ∉ seen.
Proof.
  revert seen. induction array as [|y rest IH]; intros seen; simpl.
  - split; [constructor|]. intros x. set_solver.
  - destruct (decide (y ∈ seen)) as [Hin|Hnotin].
    + destruct (IH seen) as [Hnd Hel]. split; [done|].
      intros x. rewrite Hel. set_solver.
    + destruct (IH (y :: seen)) as [Hnd Hel]. split.
      * constructor; [|done]. rewrite Hel. set_solver.
      * intros x. rewrite elem_of_cons, Hel.
        destruct (decide (x = y)); set_solver.
Qed.

Lemma Set_spread_NoDup (array : list string) : NoDup (JS.Set_spread array).
Proof. apply uniqueFrom_spec. Qed.

Lemma Set_spread_elem (array : list string) x : x ∈ JS.Set_spread array <-> x ∈ array.
Proof. unfold JS.Set_spread. rewrite (proj2 (uniqueFrom_spec [] array)). set_solver. Qed.

Lemma slice0_sublist {T} (count : Z) (array : list T) :
  JS.slice0 count array `sublist_of` array.
Proof. unfold JS.slice0. destruct (count <? 0); apply sublist_take. Qed.

Lemma slice0_length {T} (count : Z) (array : list T) :
  0 <= count ->
  length (JS.slice0 count array) = Nat.min (Z.to_nat count) (length array).
Proof.
  intros H. unfold JS.slice0.
  destruct (count <? 0) eqn:E; [apply Z.ltb_lt in E; lia|].
  apply length_take.
Qed.

Lemma generateWrongOptions_spec (correctReading : string) (allReadings : list string)
    (count : Z) (g : JS.RandomSource) :
  NoDup allReadings ->
  let wrong := (generateWrongOptions correctReading allReadings count g).1 in
  NoDup wrong
  /\ (forall r, r ∈ wrong -> r ∈ allReadings /\ r <> correctReading)
  /\ (0 <= count ->
      length wrong =
        Nat.min (Z.to_nat count)
                (length (filter (fun r => r <> correctReading) allReadings))).
Proof.
  intros Hnd. unfold generateWrongOptions.
  set (available := filter (fun r => r <> correctReading) allReadings).
  pose proof (shuffleArray_Permutation available g) as Hperm.
  destruct (shuffleArray available g) as [shuffled g1]. simpl in *.
  assert (Hnds : NoDup shuffled).
  { rewrite Hperm. by apply NoDup_filter. }
  split; [|split].
  - eapply sublist_NoDup; [exact Hnds|apply slice0_sublist].
  - intros r Hr.
    assert (r ∈ shuffled) as Hin.
    { eapply elem_of_sublist; [exact Hr|apply slice0_sublist]. }
    rewrite Hperm in Hin. unfold available in Hin.
    apply list_elem_of_filter in Hin. tauto.
  - intros Hc. rewrite slice0_length by done. by rewrite Hperm.
Qed.

Lemma filter_eq_absent (c : string) (l : list string) :
  (forall r, r ∈ l -> r <> c) -> filter (fun o => o = c) l = [].
Proof.
  induction l as [|x l IH]; intros H; [done|].
  rewrite filter_cons. destruct (decide (x = c)) as [->|_].
  - exfalso. apply (H c); [left|done].
  - apply IH. intros r Hr. apply H. by right.
Qed.

Lemma buildQuestion_ok (allReadings : list string) (optionsCount : Z)
    (character : QuizCharacter) (g : JS.RandomSource) :
  NoDup allReadings ->
  qq_character (buildQuestion allReadings optionsCount character g).1 = character
  /\ question_ok allReadings optionsCount
       (buildQuestion allReadings optionsCount character g).1.
Proof.
  intros Hnd. unfold buildQuestion.
  pose proof (generateWrongOptions_spec (qc_reading character) allReadings
                (optionsCount - 1) g Hnd) as (Hwnd & Hwin & Hwlen).
  destruct (generateWrongOptions _ _ _ g) as [wrong g1]. simpl in *.
  pose proof (shuffleArray_Permutation (qc_reading character :: wrong) g1) as Hperm.
  destruct (shuffleArray _ g1) as [opts g2]. simpl in *.
  split; [done|]. constructor; simpl.
  - done.
  - rewrite Hperm, filter_cons. rewrite decide_True by done.
    rewrite filter_eq_absent; [done|]. intros r Hr. by apply Hwin.
  - exists wrong. split; [done|]. split; [done|]. split; [done|].
    intros Hc. apply Hwlen. lia.
Qed.

Lemma buildQuestions_spec (selectedCharacters : list QuizCharacter)
    (allReadings : list string) (optionsCount : Z) (g : JS.RandomSource) :
  NoDup allReadings ->
  map qq_character (buildQuestions selectedCharacters allReadings optionsCount g).1
    = selectedCharacters
  /\ Forall (question_ok allReadings optionsCount)
       (buildQuestions selectedCharacters allReadings optionsCount g).1.
Proof.
  intros Hnd. revert g.
  induction selectedCharacters as [|c cs IH]; intros g; simpl; [done|].
  destruct (buildQuestion_ok allReadings optionsCount c g Hnd) as [Hc Hok].
  destruct (buildQuestion allReadings optionsCount c g) as [q g1]. simpl in *.
  destruct (IH g1) as [Hmap Hall].
  destruct (buildQuestions cs allReadings optionsCount g1) as [qs g2]. simpl in *.
  split; [by rewrite Hc, Hmap|by constructor].
Qed.

(** ** C5: the questions of a started quiz *)

(** C5. For a module with [k >= 1] characters and a configured question
    count [N >= 0], [startQuiz] succeeds (the generated id being unused)
    and returns exactly [min N k] questions, which is also the session's
    [totalItems]; their characters are drawn from the module without
    replacement, hence pairwise distinct when the module's are, and are
    all of the module's characters when [N >= k]; every question's options
    contain its character's reading exactly once, the other options being
    [optionsCount - 1] distinct other readings of the module, or all of
    them when fewer exist. *)
Theorem startQuiz_questions (newId : string) (now : Z) (userId moduleId : string)
    (config : QuizConfig) (g : JS.RandomSource) (db : DB) (m : ModuleRow) :
  module db !! moduleId = Some m ->
  (1 <= length (moduleCharacters m))%nat ->
  0 <= questionCount config ->
  quizSession db !! newId = None ->
  exists db' session g',
    startQuiz newId now userId moduleId config g db = (db', Returned (session, g'))
    /\ let characters := map toQuizCharacter (moduleCharacters m) in
       let allReadings := JS.Set_spread (map qc_reading characters) in
       let selected := map qq_character (questions session) in
       Z.of_nat (length (questions session))
         = Z.min (questionCount config) (Z.of_nat (length characters))
       /\ session_totalItems session = Z.of_nat (length (questions session))
       /\ (exists rest, selected ++ rest ≡ₚ characters)
       /\ (NoDup characters -> NoDup selected)
       /\ (Z.of_nat (length characters) <= questionCount config ->
           selected ≡ₚ characters)
       /\ Forall (question_ok allReadings (optionsCount config)) (questions session)
       /\ quizSession db' !! newId
          = Some (QuizSession_create newId userId moduleId
                    (Z.of_nat (length (questions session))) now).
Proof.
  intros Hmod Hk HN Hfresh.
  unfold startQuiz, bind, query. rewrite Hmod.
  destruct (length (moduleCharacters m) =? 0)%nat eqn:Hz;
    [apply Nat.eqb_eq in Hz; lia|].
  set (characters := map toQuizCharacter (moduleCharacters m)).
  set (statsMap := statsMapOf userId (map ch_id (moduleCharacters m)) db).
  set (N := Z.min (questionCount config) (Z.of_nat (length characters))).
  destruct (selectAdaptiveCharacters_total
              (calculateCharacterWeights characters statsMap config) N g)
    as (selected & rest & g1 & Hsel & Hperm & Hlen).
  rewrite Hsel.
  rewrite calculateCharacterWeights_characters in Hperm.
  assert (Hwl : length (calculateCharacterWeights characters statsMap config)
                = length characters).
  { unfold calculateCharacterWeights. by rewrite length_map. }
  rewrite Hwl in Hlen.
  set (allReadings := JS.Set_spread (map qc_reading characters)).
  pose proof (buildQuestions_spec selected allReadings (optionsCount config) g1
                (Set_spread_NoDup _)) as [Hmap Hall].
  destruct (buildQuestions selected allReadings (optionsCount config) g1)
    as [qs g2]. simpl in Hmap, Hall.
  unfold createSession. simpl. rewrite Hfresh.
  pose proof (shuffleArray_Permutation qs g2) as Hsh.
  destruct (shuffleArray qs g2) as [shuffled g3]. simpl in Hsh.
  unfold ret. eexists _, _, _. split; [reflexivity|]. simpl.
  assert (Hqlen : length shuffled = length selected).
  { rewrite Hsh, <- Hmap. by rewrite length_map. }
  assert (Hchars : map qq_character shuffled ≡ₚ selected).
  { by rewrite Hsh, Hmap. }
  split; [rewrite Hqlen, Hlen; unfold N; lia|].
  split; [by rewrite Hsh|].
  split; [exists (map wc_character rest); by rewrite Hchars|].
  split.
  { intros Hnd. rewrite Hchars. rewrite <- Hperm in Hnd.
    by apply NoDup_app in Hnd as [? _]. }
  split.
  { intros Hall_k. rewrite Hchars.
    assert (length (map wc_character rest) = 0%nat) as Hnil.
    { apply Permutation_length in Hperm. rewrite length_app in Hperm.
      unfold N in Hlen. lia. }
    apply nil_length_inv in Hnil. rewrite Hnil, app_nil_r in Hperm. done. }
  split; [by rewrite Hsh|].
  rewrite lookup_insert_eq. by rewrite Hsh.
Qed.

Lemma startQuiz_questions_witness :
  exists db' session g',
    startQuiz "s-1" 0 "u-1" "m-vowels" DEFAULT_QUIZ_CONFIG cyclicDraws seedDB
      = (db', Returned (session, g'))
    /\ Z.of_nat (length (questions session)) = 5
    /\ Forall (question_ok
                 (JS.Set_spread (map qc_reading (map toQuizCharacter vowelRows))) 4)
              (questions session).
Proof.
  destruct (startQuiz_questions "s-1" 0 "u-1" "m-vowels" DEFAULT_QUIZ_CONFIG
              cyclicDraws seedDB vowelModule)
    as (db' & session & g' & Hrun & Hlen & _ & _ & _ & _ & Hok & _).
  - reflexivity.
  - simpl. lia.
  - simpl. lia.
  - reflexivity.
  - exists db', session, g'. split; [exact Hrun|]. split; [exact Hlen|exact Hok].
Defined.

(** The end-to-end scenario, by evaluation: five questions, four options
    each. *)
Example startQuiz_five_characters :
  match startQuiz "s-1" 0 "u-1" "m-vowels" DEFAULT_QUIZ_CONFIG cyclicDraws seedDB with
  | (_, Returned (session, _)) =>
      map (fun q => (qc_reading (qq_character q), options q)) (questions session)
  | _ => []
  end
  = [ ("i", ["u"; "e"; "i"; "a"]); ("o", ["i"; "u"; "o"; "a"]);
      ("e", ["i"; "u"; "e"; "a"]); ("u", ["i"; "e"; "u"; "a"]);
      ("a", ["u"; "e"; "a"; "i"]) ].
Proof. vm_compute. reflexivity. Qed.

(** ** C10: weighted selection stays inside the pool *)



(** With negative weights the scan finds nothing and the last item is
    returned. *)
Example weightedRandomSelect_fallback :
  (weightedRandomSelect (fun _ : string => (-1)%Q) ["a"; "b"; "c"] cyclicDraws).1
  = Some (2%nat, "c").
Proof. vm_compute. reflexivity. Qed.

(** On the empty list the result is [undefined]. *)
Example weightedRandomSelect_empty :
  (weightedRandomSelect (fun _ : string => 1%Q) [] cyclicDraws).1 = None.
Proof. reflexivity. Qed.

(** ** C1: the progress rule *)

Lemma Math_max_cases (a b : Q) :
  ((a <= b)%Q /\ JS.Math_max a b = b) \/ ((b <= a)%Q /\ JS.Math_max a b = a).
Proof.
  unfold JS.Math_max, Qmax, GenericMinMax.gmax.
  destruct (a ?= b)%Q eqn:E.
  - right. apply Qeq_alt in E. split; [lra|done].
  - left. apply Qlt_alt in E. split; [lra|done].
  - right. apply Qgt_alt in E. split; [lra|done].
Qed.

Lemma Math_min_cases (a b : Q) :
  ((a <= b)%Q /\ JS.Math_min a b = a) \/ ((b <= a)%Q /\ JS.Math_min a b = b).
Proof.
  unfold JS.Math_min, Qmin, GenericMinMax.gmin.
  destruct (a ?= b)%Q eqn:E.
  - left. apply Qeq_alt in E. split; [lra|done].
  - left. apply Qlt_alt in E. split; [lra|done].
  - right. apply Qgt_alt in E. split; [lra|done].
Qed.

Ltac name_max a b :=
  let x := fresh "m" in
  let H := fresh "Hm" in
  pose proof (Math_max_cases a b) as H;
  set (x := JS.Math_max a b) in *; clearbody x.

Ltac name_min a b :=
  let x := fresh "m" in
  let H := fresh "Hm" in
  pose proof (Math_min_cases a b) as H;
  set (x := JS.Math_min a b) in *; clearbody x.

(** Linear arithmetic over [Math.max] and [Math.min]: every such term is
    named, then the cases of its definition are split. *)
Ltac minmax :=
  repeat match goal with
         | |- context [JS.Math_max ?a ?b] => name_max a b
         | _ : context [JS.Math_max ?a ?b] |- _ => name_max a b
         | |- context [JS.Math_min ?a ?b] => name_min a b
         | _ : context [JS.Math_min ?a ?b] |- _ => name_min a b
         end;
  repeat match goal with
         | H : _ \/ _ |- _ => destruct H as [[? ?]|[? ?]]
         end;
  subst; lra.

(** C1 (amended). For every call of [calculateNewProgress] on numbers:
    with [sessionCount <= 1] the result is the session percentage itself,
    whatever its size; otherwise it is
    [max (max 0 (previous - 10)) (min 100 blend)] for the blend
    [previous * 0.6 + sessionPercentage * 0.4]: the blend is capped at 100
    first and raised to the floor afterwards.  So the result is never below
    the floor, and it is at most 100 exactly when [previous <= 110]; above
    that it is [previous - 10].  For [previous <= 100] the cap and the
    floor commute.  In particular the rule gives 70 on (50, 100, 2) and 40
    on (50, 0, 2). *)
Theorem calculateNewProgress_rule (previous sessionPercentage : Q) (sessionCount : Z) :
  (sessionCount <= 1 ->
   calculateNewProgress previous sessionPercentage sessionCount = sessionPercentage)
  /\ (1 < sessionCount ->
      let blend := (previous * 0.6 + sessionPercentage * 0.4)%Q in
      let floor := JS.Math_max 0 (previous - 10) in
      calculateNewProgress previous sessionPercentage sessionCount
        = JS.Math_max floor (JS.Math_min 100 blend)
      /\ (floor <= calculateNewProgress previous sessionPercentage sessionCount)%Q
      /\ ((calculateNewProgress previous sessionPercentage sessionCount <= 100)%Q
          <-> (previous <= 110)%Q)
      /\ ((110 < previous)%Q ->
          (calculateNewProgress previous sessionPercentage sessionCount
           == previous - 10)%Q)
      /\ ((previous <= 100)%Q ->
          (calculateNewProgress previous sessionPercentage sessionCount
           == JS.Math_min 100 (JS.Math_max floor blend))%Q))
  /\ (calculateNewProgress 50 100 2 == 70)%Q
  /\ (calculateNewProgress 50 0 2 == 40)%Q.
Proof.
  split; [|split; [|split]].
  - intros H. unfold calculateNewProgress.
    by rewrite (proj2 (Z.leb_le _ _) H).
  - intros H. unfold calculateNewProgress.
    rewrite (proj2 (Z.leb_gt _ _)) by lia.
    cbv zeta. split; [reflexivity|].
    change (1 - 0.4)%Q with 0.6%Q.
    split; [minmax|].
    split; [split; intros Hp; minmax|].
    split; intros Hp; minmax.
  - reflexivity.
  - reflexivity.
Qed.

Lemma calculateNewProgress_rule_witness :
  calculateNewProgress 79 100 1 = 100%Q
  /\ calculateNewProgress 50 0 2
     = JS.Math_max (JS.Math_max 0 (50 - 10)) (JS.Math_min 100 (50 * 0.6 + 0 * 0.4))
  /\ (calculateNewProgress 50 0 2 <= 100)%Q
  /\ (calculateNewProgress 120 0 2 == 120 - 10)%Q.
Proof.
  split; [|split; [|split]].
  - apply (proj1 (calculateNewProgress_rule 79 100 1)). lia.
  - apply (proj1 (proj2 (calculateNewProgress_rule 50 0 2)) ltac:(lia)).
  - apply (proj2 (proj1 (proj2 (proj2
             (proj1 (proj2 (calculateNewProgress_rule 50 0 2)) ltac:(lia)))))).
    vm_compute. discriminate.
  - apply (proj1 (proj2 (proj2 (proj2
             (proj1 (proj2 (calculateNewProgress_rule 120 0 2)) ltac:(lia)))))).
    vm_compute. reflexivity.
Defined.

(** ** C4: character weights *)

Lemma accuracy_le_1 (c t : Z) :
  0 <= c <= t -> t <> 0 -> (inject_Z c / inject_Z t <= 1)%Q.
Proof.
  intros Hc Ht.
  apply Qle_shift_div_r.
  - change 0%Q with (inject_Z 0). rewrite <- Zlt_Qlt. lia.
  - rewrite Qmult_1_l. rewrite <- Zle_Qle. lia.
Qed.

Lemma weighCharacter_seen (userStats : gmap string StatsEntry) (config : QuizConfig)
    (ch : QuizCharacter) (st : StatsEntry) :
  userStats !! qc_id ch = Some st ->
  se_totalAttempts st <> 0 ->
  let acc := (inject_Z (se_correctCount st) / inject_Z (se_totalAttempts st))%Q in
  accuracy (weighCharacter userStats config ch) = acc
  /\ weight (weighCharacter userStats config ch)
     = ((1 - acc) * weakCharacterWeight config + 1)%Q.
Proof.
  intros Hst Ht. unfold weighCharacter. rewrite Hst.
  by rewrite (proj2 (Z.eqb_neq _ _) Ht).
Qed.

(** C4. For every character passed to [calculateCharacterWeights]: without
    recorded stats, or with [totalAttempts = 0], its weight is exactly 2;
    otherwise its weight is [(1 - correctCount/totalAttempts) *
    weakCharacterWeight + 1].  For the default [weakCharacterWeight] of 3
    that weight is at least 1 (the counters satisfying
    [0 <= correctCount <= totalAttempts]) and strictly smaller for a
    character of strictly higher accuracy. *)
Theorem calculateCharacterWeights_weight (characters : list QuizCharacter)
    (userStats : gmap string StatsEntry) (config : QuizConfig)
    (i : nat) (ch : QuizCharacter) :
  characters !! i = Some ch ->
  exists w,
    calculateCharacterWeights characters userStats config !! i = Some w
    /\ wc_character w = ch
    /\ match userStats !! qc_id ch with
       | None => weight w = 2%Q
       | Some st =>
           if se_totalAttempts st =? 0 then weight w = 2%Q
           else
             let acc :=
               (inject_Z (se_correctCount st) / inject_Z (se_totalAttempts st))%Q in
             accuracy w = acc
             /\ weight w = ((1 - acc) * weakCharacterWeight config + 1)%Q
             /\ (weakCharacterWeight config = 3%Q ->
                 (0 <= se_correctCount st <= se_totalAttempts st ->
                  (1 <= weight w)%Q)
                 /\ forall j ch' st' w',
                      characters !! j = Some ch' ->
                      userStats !! qc_id ch' = Some st' ->
                      se_totalAttempts st' <> 0 ->
                      calculateCharacterWeights characters userStats config !! j
                        = Some w' ->
                      (accuracy w < accuracy w')%Q ->
                      (weight w' < weight w)%Q)
       end.
Proof.
  intros Hch. unfold calculateCharacterWeights.
  exists (weighCharacter userStats config ch).
  split; [by rewrite list_lookup_fmap, Hch|].
  split.
  { unfold weighCharacter. destruct (userStats !! qc_id ch) as [st|]; [|done].
    by destruct (se_totalAttempts st =? 0). }
  destruct (userStats !! qc_id ch) as [st|] eqn:Hst.
  - destruct (se_totalAttempts st =? 0) eqn:Ht.
    + unfold weighCharacter. by rewrite Hst, Ht.
    + apply Z.eqb_neq in Ht.
      destruct (weighCharacter_seen userStats config ch st Hst Ht) as [Hacc Hw].
      cbv zeta. split; [done|]. split; [done|].
      intros HW. split.
      * intros Hc. rewrite Hw, HW.
        pose proof (accuracy_le_1 _ _ Hc Ht). lra.
      * intros j ch' st' w' Hj Hst' Ht' Hw' Hlt.
        rewrite list_lookup_fmap, Hj in Hw'. injection Hw' as <-.
        destruct (weighCharacter_seen userStats config ch' st' Hst' Ht')
          as [Hacc' Hw''].
        rewrite Hw, Hw'', HW. rewrite Hacc, Hacc' in Hlt. lra.
  - unfold weighCharacter. by rewrite Hst.
Qed.

(** Four of five answers correct: weight [(1 - 4/5) * 3 + 1]. *)
Lemma calculateCharacterWeights_weight_witness :
  exists w,
    calculateCharacterWeights (map toQuizCharacter vowelRows)
      {[ "c-a" := {| se_totalAttempts := 5; se_correctCount := 4 |} ]}
      DEFAULT_QUIZ_CONFIG !! 0%nat = Some w
    /\ weight w = ((1 - inject_Z 4 / inject_Z 5) * 3 + 1)%Q
    /\ (1 <= weight w)%Q.
Proof.
  destruct (calculateCharacterWeights_weight (map toQuizCharacter vowelRows)
              {[ "c-a" := {| se_totalAttempts := 5; se_correctCount := 4 |} ]}
              DEFAULT_QUIZ_CONFIG 0%nat
              (toQuizCharacter {| ch_id := "c-a"; ch_character := "あ";
                                  ch_reading := "a"; ch_type := HIRAGANA;
                                  ch_order := 1 |}))
    as (w & Hw & _ & Hrest).
  - reflexivity.
  - exists w. split; [exact Hw|].
    change ({[ "c-a" := {| se_totalAttempts := 5; se_correctCount := 4 |} ]}
              !! qc_id (toQuizCharacter {| ch_id := "c-a"; ch_character := "あ";
                                           ch_reading := "a"; ch_type := HIRAGANA;
                                           ch_order := 1 |}))
      with (Some {| se_totalAttempts := 5; se_correctCount := 4 |}) in Hrest.
    simpl in Hrest. destruct Hrest as (_ & Hweight & Hdefault).
    split; [exact Hweight|].
    apply (proj1 (Hdefault eq_refl)). lia.
Defined.

Example calculateCharacterWeights_values :
  map (fun w => Qred (weight w))
    (calculateCharacterWeights (map toQuizCharacter vowelRows)
       {[ "c-a" := {| se_totalAttempts := 5; se_correctCount := 4 |};
          "c-i" := {| se_totalAttempts := 4; se_correctCount := 0 |};
          "c-u" := {| se_totalAttempts := 0; se_correctCount := 0 |} ]}
       DEFAULT_QUIZ_CONFIG)
  = [ (8 # 5)%Q; 4%Q; 2%Q; 2%Q; 2%Q ].
Proof. vm_compute. reflexivity. Qed.

(** ** The server functions, case by case *)

Ltac srv :=
  unfold bind, query, throw, transaction, write, ret, updateSession in *;
  simpl in *.

Lemma findSession_lookup sessionId userId db session :
  findSession sessionId userId db = Some session ->
  quizSession db !! sessionId = Some session /\ qs_userId session = userId.
Proof.
  unfold findSession.
  destruct (quizSession db !! sessionId) as [s|]; [|done].
  destruct (decide (qs_userId s = userId)); [|done].
  by intros [= <-].
Qed.

Lemma findActiveSession_lookup sessionId userId db session :
  findActiveSession sessionId userId db = Some session ->
  quizSession db !! sessionId = Some session
  /\ qs_userId session = userId /\ qs_completedAt session = None.
Proof.
  unfold findActiveSession, findSession.
  destruct (quizSession db !! sessionId) as [s|]; [|done].
  destruct (decide (qs_userId s = userId)); [|done].
  destruct (qs_completedAt s) eqn:E; [done|].
  by intros [= <-].
Qed.

Lemma findActiveSession_completed sessionId userId db session t :
  quizSession db !! sessionId = Some session ->
  qs_completedAt session = Some t ->
  findActiveSession sessionId userId db = None.
Proof.
  intros Hs Ht. unfold findActiveSession, findSession. rewrite Hs.
  destruct (decide (qs_userId session = userId)); [|done]. by rewrite Ht.
Qed.

Lemma submitAnswer_Returned now userId sessionId characterId userAnswer rt db db' r :
  submitAnswer now userId sessionId characterId userAnswer rt db = (db', Returned r) ->
  exists session ch,
    findActiveSession sessionId userId db = Some session
    /\ findAnswer sessionId characterId db = None
    /\ character db !! characterId = Some ch
    /\ ar_isCorrect r = sameReading userAnswer (ch_reading ch)
    /\ ar_correctAnswer r = ch_reading ch
    /\ quizAnswer db' = quizAnswer db ++
         [ {| qa_sessionId := sessionId; qa_characterId := characterId;
              qa_userAnswer := userAnswer;
              qa_isCorrect := sameReading userAnswer (ch_reading ch);
              qa_responseTimeMs := rt |} ]
    /\ quizSession db' =
         (if sameReading userAnswer (ch_reading ch)
          then <[sessionId := with_score (qs_score session + 1) session]> (quizSession db)
          else quizSession db)
    /\ userCharacterStats db' =
         <[(userId, characterId) :=
             answeredStats now (sameReading userAnswer (ch_reading ch))
               (userCharacterStats db !! (userId, characterId))]>
           (userCharacterStats db)
    /\ character db' = character db /\ module db' = module db
    /\ userProgress db' = userProgress db.
Proof.
  unfold submitAnswer. srv.
  destruct (findActiveSession sessionId userId db) as [session|] eqn:Hs; [|done].
  destruct (findAnswer sessionId characterId db) eqn:Ha; [done|].
  destruct (character db !! characterId) as [ch|] eqn:Hc; [|done].
  apply findActiveSession_lookup in Hs as Hs'. destruct Hs' as (Hlook & _ & _).
  destruct (sameReading userAnswer (ch_reading ch)) eqn:Hcorrect; simpl.
  - rewrite Hlook. simpl.
    destruct (userCharacterStats db !! (userId, characterId)) as [st|] eqn:Hst;
      simpl; intros [= <- <-]; exists session, ch; simpl;
      rewrite ?Hst, ?Hcorrect; repeat split; done.
  - destruct (userCharacterStats db !! (userId, characterId)) as [st|] eqn:Hst;
      simpl; intros [= <- <-]; exists session, ch; simpl;
      rewrite ?Hst, ?Hcorrect; repeat split; done.
Qed.

Lemma submitAnswer_Thrown now userId sessionId characterId userAnswer rt db db' e :
  submitAnswer now userId sessionId characterId userAnswer rt db = (db', Thrown e) ->
  db' = db.
Proof.
  unfold submitAnswer. srv.
  destruct (findActiveSession sessionId userId db) as [session|] eqn:Hs;
    [|by intros [= <- _]].
  destruct (findAnswer sessionId characterId db) eqn:Ha; [by intros [= <- _]|].
  destruct (character db !! characterId) as [ch|] eqn:Hc; [|by intros [= <- _]].
  repeat case_match; by intros [= <- _].
Qed.

Lemma forEach_batchStats now userId answers db :
  exists db',
    forEach answers (batchStats now userId) db = (db', Returned tt)
    /\ userCharacterStats db' = batchedTable now userId answers (userCharacterStats db)
    /\ character db' = character db /\ module db' = module db
    /\ quizSession db' = quizSession db /\ quizAnswer db' = quizAnswer db
    /\ userProgress db' = userProgress db.
Proof.
  revert db. induction answers as [|a rest IH]; intros db; simpl.
  - exists db. by repeat split.
  - unfold bind at 1. unfold batchStats at 1. srv.
    destruct (userCharacterStats db !! (userId, ba_characterId a)) as [st|] eqn:Hst;
      simpl.
    + edestruct IH as (db' & -> & Hstats & ? & ? & ? & ? & ?).
      exists db'. split; [done|]. simpl in *. by repeat split.
    + edestruct IH as (db' & -> & Hstats & ? & ? & ? & ? & ?).
      exists db'. split; [done|]. simpl in *. by repeat split.
Qed.

Lemma submitAnswersBatch_Returned now userId sessionId answers db db' r :
  submitAnswersBatch now userId sessionId answers db = (db', Returned r) ->
  exists session,
    findActiveSession sessionId userId db = Some session
    /\ countAnswers sessionId db = 0
    /\ bs_score r = batchScore answers
    /\ bs_totalItems r = Z.of_nat (length answers)
    /\ quizAnswer db' = quizAnswer db ++ map (batchRow sessionId) answers
    /\ quizSession db' =
         <[sessionId := with_score (batchScore answers) session]> (quizSession db)
    /\ userCharacterStats db' =
         batchedTable now userId answers (userCharacterStats db)
    /\ character db' = character db /\ module db' = module db
    /\ userProgress db' = userProgress db.
Proof.
  unfold submitAnswersBatch. srv.
  destruct (findActiveSession sessionId userId db) as [session|] eqn:Hs; [|done].
  destruct (0 <? countAnswers sessionId db) eqn:Hcount; [done|].
  apply Z.ltb_ge in Hcount.
  assert (countAnswers sessionId db = 0) as Hzero.
  { unfold countAnswers in *. lia. }
  apply findActiveSession_lookup in Hs as Hs'. destruct Hs' as (Hlook & _ & _).
  rewrite Hlook. simpl.
  match goal with
  | |- context [forEach answers (batchStats now userId) ?d] =>
      destruct (forEach_batchStats now userId answers d)
        as (db2 & -> & Hstats & ? & ? & ? & ? & ?)
  end.
  simpl in *. intros [= <- <-]. exists session. simpl.
  repeat split; try done; congruence.
Qed.

Lemma submitAnswersBatch_Thrown now userId sessionId answers db db' e :
  submitAnswersBatch now userId sessionId answers db = (db', Thrown e) ->
  db' = db.
Proof.
  unfold submitAnswersBatch. srv.
  destruct (findActiveSession sessionId userId db) as [session|] eqn:Hs;
    [|by intros [= <- _]].
  destruct (0 <? countAnswers sessionId db) eqn:Hcount; [by intros [= <- _]|].
  apply findActiveSession_lookup in Hs as (Hlook & _ & _).
  rewrite Hlook. simpl.
  match goal with
  | |- context [forEach answers (batchStats now userId) ?d] =>
      destruct (forEach_batchStats now userId answers d) as (db2 & -> & _)
  end.
  done.
Qed.

Lemma completeQuiz_Returned now completedAt userId sessionId db db' r :
  completeQuiz now completedAt userId sessionId db = (db', Returned r) ->
  exists session,
    findSession sessionId userId db = Some session
    /\ qs_completedAt session = None
    /\ quizSession db' = <[sessionId := with_completedAt completedAt session]> (quizSession db)
    /\ userProgress db' =
         <[(userId, qs_moduleId session) := completedProgress userId session db]>
           (userProgress db)
    /\ newModuleProgress r = completedProgress userId session db
    /\ qr_score r = qs_score session
    /\ qr_totalItems r = qs_totalItems session
    /\ unlockedNextModule r =
         negb (JS.geq (storedProgress userId (qs_moduleId session) db) UNLOCK_THRESHOLD)
         && JS.geq (completedProgress userId session db) UNLOCK_THRESHOLD
    /\ isModuleCompleted r =
         JS.geq (completedProgress userId session db) COMPLETION_THRESHOLD
         && negb (JS.geq (storedProgress userId (qs_moduleId session) db)
                         COMPLETION_THRESHOLD)
    /\ quizAnswer db' = quizAnswer db
    /\ userCharacterStats db' = userCharacterStats db
    /\ character db' = character db /\ module db' = module db.
Proof.
  unfold completeQuiz. srv.
  destruct (findSession sessionId userId db) as [session|] eqn:Hs; [|done].
  destruct (qs_completedAt session) eqn:Hc; [done|]. simpl.
  apply findSession_lookup in Hs as Hs'. destruct Hs' as [Hlook _].
  rewrite Hlook. simpl. intros [= <- <-]. exists session. simpl.
  repeat split; done.
Qed.

Lemma completeQuiz_Thrown now completedAt userId sessionId db db' e :
  completeQuiz now completedAt userId sessionId db = (db', Thrown e) -> db' = db.
Proof.
  unfold completeQuiz. srv.
  destruct (findSession sessionId userId db) as [session|] eqn:Hs;
    [|by intros [= <- _]].
  destruct (qs_completedAt session) eqn:Hc; [by intros [= <- _]|]. simpl.
  apply findSession_lookup in Hs as [Hlook _].
  by rewrite Hlook.
Qed.

(** ** C6: unlock and completion flags *)

Lemma geq_true (a b : Q) : JS.geq a b = true <-> (b <= a)%Q.
Proof. unfold JS.geq. apply Qle_bool_iff. Qed.

Lemma geq_false (a b : Q) : JS.geq a b = false <-> (a < b)%Q.
Proof.
  rewrite <- not_true_iff_false, geq_true. split.
  - apply Qnot_le_lt.
  - intros H1 H2. lra.
Qed.

(** C6. When [completeQuiz] succeeds, with [before] the progress stored
    for the learner and module before the call (0 if none) and [after] the
    progress stored by it (also returned as [newModuleProgress]):
    [unlockedNextModule] is true exactly when [before < 80 <= after], and
    [isModuleCompleted] is true exactly when [before < 100 <= after]; each
    flag is false when its threshold was already met before. *)
Theorem completeQuiz_flags (now completedAt : Z) (userId sessionId : string) (db db' : DB)
    (r : QuizResult) :
  completeQuiz now completedAt userId sessionId db = (db', Returned r) ->
  exists session,
    quizSession db !! sessionId = Some session
    /\ let before := storedProgress userId (qs_moduleId session) db in
       let after := storedProgress userId (qs_moduleId session) db' in
       after = newModuleProgress r
       /\ (unlockedNextModule r = true <-> (before < 80)%Q /\ (80 <= after)%Q)
       /\ (isModuleCompleted r = true <-> (before < 100)%Q /\ (100 <= after)%Q)
       /\ ((80 <= before)%Q -> unlockedNextModule r = false)
       /\ ((100 <= before)%Q -> isModuleCompleted r = false).
Proof.
  intros Hrun.
  apply completeQuiz_Returned in Hrun
    as (session & Hs & _ & _ & Hprog & Hnew & _ & _ & Hunlock & Hdone & _).
  apply findSession_lookup in Hs as [Hlook _].
  exists session. split; [done|]. cbv zeta.
  assert (storedProgress userId (qs_moduleId session) db' = newModuleProgress r)
    as Hafter.
  { unfold storedProgress. by rewrite Hprog, lookup_insert_eq, Hnew. }
  rewrite Hafter, Hnew, Hunlock, Hdone.
  unfold UNLOCK_THRESHOLD, COMPLETION_THRESHOLD.
  set (before := storedProgress userId (qs_moduleId session) db).
  set (after := completedProgress userId session db).
  split; [done|].
  split; [|split; [|split]].
  - rewrite andb_true_iff, negb_true_iff, geq_false, geq_true. tauto.
  - rewrite andb_true_iff, negb_true_iff, geq_false, geq_true. tauto.
  - intros H. apply geq_true in H. by rewrite H.
  - intros H. apply geq_true in H. rewrite H. apply andb_false_r.
Qed.

(** ** C7: a completed session rejects every write *)

(** C7. Once a session's completion timestamp is set, [submitAnswer],
    [submitAnswersBatch] and [completeQuiz] each throw and leave the store
    (the session, its answers, the statistics and the progress) as it was;
    and after a successful [completeQuiz] a second one on the same session
    throws "Quiz session already completed". *)
Theorem completed_session_rejects (now completedAt : Z) (userId sessionId : string) (db : DB)
    (session : QuizSessionRow) (t : Z) :
  quizSession db !! sessionId = Some session ->
  qs_completedAt session = Some t ->
  (forall characterId userAnswer rt,
     submitAnswer now userId sessionId characterId userAnswer rt db
     = (db, Thrown "Quiz session not found or already completed"))
  /\ (forall answers,
        submitAnswersBatch now userId sessionId answers db
        = (db, Thrown "Quiz session not found or already completed"))
  /\ completeQuiz now completedAt userId sessionId db
     = (db, Thrown (if decide (qs_userId session = userId)
                    then "Quiz session already completed"
                    else "Quiz session not found"))
  /\ (forall now0 completedAt0 db0 r,
        completeQuiz now0 completedAt0 userId sessionId db0 = (db, Returned r) ->
        completeQuiz now completedAt userId sessionId db
        = (db, Thrown "Quiz session already completed")).
Proof.
  intros Hlook Hdone.
  pose proof (findActiveSession_completed sessionId userId db session t Hlook Hdone)
    as Hnone.
  split; [|split; [|split]].
  - intros. unfold submitAnswer. srv. by rewrite Hnone.
  - intros. unfold submitAnswersBatch. srv. by rewrite Hnone.
  - unfold completeQuiz, findSession. srv. rewrite Hlook.
    destruct (decide (qs_userId session = userId)); [|done]. by rewrite Hdone.
  - intros now0 completedAt0 db0 r Hrun.
    apply completeQuiz_Returned in Hrun as (s0 & Hs0 & _ & Hsess & _).
    apply findSession_lookup in Hs0 as [_ Huser].
    rewrite Hsess, lookup_insert_eq in Hlook. injection Hlook as <-.
    unfold completeQuiz, findSession. srv.
    rewrite Hsess, lookup_insert_eq. simpl.
    by rewrite decide_True.
Qed.

(** ** C8: a duplicate answer is rejected *)

Lemma findAnswer_stored sessionId characterId db a :
  a ∈ quizAnswer db ->
  qa_sessionId a = sessionId ->
  qa_characterId a = characterId ->
  exists first, findAnswer sessionId characterId db = Some first
                /\ first ∈ quizAnswer db
                /\ qa_sessionId first = sessionId
                /\ qa_characterId first = characterId.
Proof.
  intros Hin Hs Hc. unfold findAnswer, answersOf.
  destruct (filter _ (filter _ (quizAnswer db))) as [|first rest] eqn:Hf.
  - assert (a ∈ filter (fun a => qa_characterId a = characterId)
                  (filter (fun a => qa_sessionId a = sessionId) (quizAnswer db)))
      as Ha by (rewrite !list_elem_of_filter; done).
    rewrite Hf in Ha. by apply not_elem_of_nil in Ha.
  - exists first. split; [done|].
    assert (first ∈ filter (fun a => qa_characterId a = characterId)
                  (filter (fun a => qa_sessionId a = sessionId) (quizAnswer db)))
      as Ha by (rewrite Hf; left).
    rewrite !list_elem_of_filter in Ha. tauto.
Qed.

(** C8. If an answer is stored for a (session, character) pair, a further
    [submitAnswer] for that pair throws an invalid-state error and leaves
    the store as it was, so the stored answer's correctness flag, the
    session score and the character's statistics stand; for a session that
    is still open and owned by the caller the error is "Character already
    answered in this session". *)
Theorem duplicate_answer_rejected (now : Z)
    (userId sessionId characterId userAnswer : string) (rt : option Z)
    (db : DB) (a : QuizAnswerRow) :
  a ∈ quizAnswer db ->
  qa_sessionId a = sessionId ->
  qa_characterId a = characterId ->
  exists e,
    submitAnswer now userId sessionId characterId userAnswer rt db = (db, Thrown e)
    /\ (e = "Character already answered in this session"
        \/ e = "Quiz session not found or already completed")
    /\ (is_Some (findActiveSession sessionId userId db) ->
        e = "Character already answered in this session").
Proof.
  intros Hin Hs Hc.
  destruct (findAnswer_stored sessionId characterId db a Hin Hs Hc)
    as (first & Hfind & _).
  unfold submitAnswer. srv.
  destruct (findActiveSession sessionId userId db) as [session|] eqn:Hact.
  - rewrite Hfind. eexists. split; [done|]. split; [by left|done].
  - eexists. split; [done|]. split; [by right|]. by intros [? [=]].
Qed.

(** The second of two submissions for the same character: the first
    one's flag is the one on record. *)
Lemma submitAnswer_twice now0 now userId sessionId characterId answer0 answer rt0 rt
    db0 db r :
  submitAnswer now0 userId sessionId characterId answer0 rt0 db0 = (db, Returned r) ->
  submitAnswer now userId sessionId characterId answer rt db
  = (db, Thrown "Character already answered in this session")
  /\ exists first, findAnswer sessionId characterId db = Some first
                   /\ qa_isCorrect first = ar_isCorrect r.
Proof.
  intros Hrun.
  apply submitAnswer_Returned in Hrun
    as (session & ch & Hact & Hnone & Hch & Hflag & _ & Hans & Hsess & _).
  apply findActiveSession_lookup in Hact as (Hlook & Huser & Hopen).
  assert (exists s', quizSession db !! sessionId = Some s'
                     /\ qs_userId s' = userId /\ qs_completedAt s' = None)
    as (s' & Hlook' & Huser' & Hopen').
  { rewrite Hsess. destruct (sameReading answer0 (ch_reading ch)).
    - rewrite lookup_insert_eq. by eexists.
    - by exists session. }
  assert (findActiveSession sessionId userId db = Some s') as Hact'.
  { unfold findActiveSession, findSession. rewrite Hlook'.
    rewrite decide_True by done. by rewrite Hopen'. }
  assert (findAnswer sessionId characterId db
          = Some {| qa_sessionId := sessionId; qa_characterId := characterId;
                    qa_userAnswer := answer0;
                    qa_isCorrect := sameReading answer0 (ch_reading ch);
                    qa_responseTimeMs := rt0 |}) as Hfind.
  { unfold findAnswer, answersOf in *. rewrite Hans, !filter_app.
    destruct (filter _ (filter _ (quizAnswer db0))); [|done]. simpl.
    rewrite (filter_cons (fun a => qa_sessionId a = sessionId)).
    rewrite decide_True by done. rewrite filter_nil.
    rewrite filter_cons. rewrite decide_True by done. done. }
  split.
  - unfold submitAnswer. srv. by rewrite Hact', Hfind.
  - eexists. split; [exact Hfind|]. by rewrite Hflag.
Qed.

(** ** C3: where the stored correctness flag comes from *)

(** The batch path stores a flag that contradicts the stored reading: the
    text "zzz" for the character read "a", flagged correct by the client. *)
Lemma batch_flag_not_recomputed :
  exists db' r row ch,
    submitAnswersBatch 5 "u-1" "s-1"
      [ {| ba_characterId := "c-a"; ba_userAnswer := "zzz";
           ba_isCorrect := true; ba_responseTimeMs := 900 |} ] startedDB
      = (db', Returned r)
    /\ row ∈ quizAnswer db'
    /\ character db' !! qa_characterId row = Some ch
    /\ qa_isCorrect row = true
    /\ sameReading (qa_userAnswer row) (ch_reading ch) = false.
Proof.
  eexists _, _,
    {| qa_sessionId := "s-1"; qa_characterId := "c-a"; qa_userAnswer := "zzz";
       qa_isCorrect := true; qa_responseTimeMs := Some 900 |},
    {| ch_id := "c-a"; ch_character := "あ"; ch_reading := "a";
       ch_type := HIRAGANA; ch_order := 1 |}.
  split; [vm_compute; reflexivity|].
  split; [simpl; left|].
  split; [vm_compute; reflexivity|].
  split; reflexivity.
Qed.

(** C3 (amended). On the [submitAnswer] path the stored flag, and the one
    returned, is the server's case-insensitive comparison of the submitted
    text with the stored reading of the answered character.  On the
    [submitAnswersBatch] path each stored flag is the one the client
    supplied.  The quiz container computes the flag it supplies with the
    same comparison, against the question's [correctAnswer], which
    [buildQuestion] sets to the character's stored reading. *)
Theorem stored_flag_origin (now : Z) (userId sessionId : string) (db db' : DB) :
  (forall characterId userAnswer rt r,
     submitAnswer now userId sessionId characterId userAnswer rt db = (db', Returned r) ->
     exists ch,
       character db !! characterId = Some ch
       /\ ar_isCorrect r = sameReading userAnswer (ch_reading ch)
       /\ quizAnswer db' = quizAnswer db ++
            [ {| qa_sessionId := sessionId; qa_characterId := characterId;
                 qa_userAnswer := userAnswer;
                 qa_isCorrect := sameReading userAnswer (ch_reading ch);
                 qa_responseTimeMs := rt |} ])
  /\ (forall answers r,
        submitAnswersBatch now userId sessionId answers db = (db', Returned r) ->
        quizAnswer db' = quizAnswer db ++ map (batchRow sessionId) answers
        /\ map qa_isCorrect (map (batchRow sessionId) answers)
           = map ba_isCorrect answers)
  /\ (forall answer timeMs c q,
        ct_state c = playing ->
        questions (ct_session c) !! currentIndex c = Some q ->
        ct_answersRef (handleAnswer answer timeMs c)
        = ct_answersRef c ++
            [ {| ba_characterId := qc_id (qq_character q);
                 ba_userAnswer := answer;
                 ba_isCorrect := sameReading answer (correctAnswer q);
                 ba_responseTimeMs := timeMs |} ])
  /\ (forall allReadings optionsCount row g,
        correctAnswer (buildQuestion allReadings optionsCount (toQuizCharacter row) g).1
        = ch_reading row).
Proof.
  split; [|split; [|split]].
  - intros characterId userAnswer rt r Hrun.
    apply submitAnswer_Returned in Hrun
      as (session & ch & _ & _ & Hch & Hflag & _ & Hans & _).
    by exists ch.
  - intros answers r Hrun.
    apply submitAnswersBatch_Returned in Hrun
      as (session & _ & _ & _ & _ & Hans & _).
    split; [done|]. rewrite map_map. done.
  - intros answer timeMs c q Hstate Hq. unfold handleAnswer.
    by rewrite Hstate, Hq.
  - intros allReadings optionsCount row g. unfold buildQuestion.
    destruct (generateWrongOptions _ _ _ g) as [wrong g1].
    destruct (shuffleArray _ g1) as [opts g2]. done.
Qed.

Lemma stored_flag_origin_witness :
  exists ch,
    character startedDB !! "c-a" = Some ch
    /\ quizAnswer answeredDB = quizAnswer startedDB ++
         [ {| qa_sessionId := "s-1"; qa_characterId := "c-a";
              qa_userAnswer := "A";
              qa_isCorrect := sameReading "A" (ch_reading ch);
              qa_responseTimeMs := Some 900 |} ].
Proof.
  destruct (proj1 (stored_flag_origin 5 "u-1" "s-1" startedDB answeredDB)
              "c-a" "A" (Some 900)
              {| ar_isCorrect := true; ar_correctAnswer := "a";
                 ar_streakCount := 1; ar_accuracy := 1 / 1 |})
    as (ch & Hch & _ & Hans).
  - vm_compute. reflexivity.
  - exists ch. split; [exact Hch|exact Hans].
Defined.

(** ** C2: the score of a session *)

Lemma startQuiz_Returned newId now userId moduleId config g db db' r :
  startQuiz newId now userId moduleId config g db = (db', Returned r) ->
  exists totalItems,
    quizSession db !! newId = None
    /\ quizSession db' =
         <[newId := QuizSession_create newId userId moduleId totalItems now]>
           (quizSession db)
    /\ 0 <= totalItems
    /\ quizAnswer db' = quizAnswer db
    /\ userCharacterStats db' = userCharacterStats db
    /\ userProgress db' = userProgress db
    /\ character db' = character db /\ module db' = module db.
Proof.
  unfold startQuiz. srv.
  destruct (module db !! moduleId) as [m|]; [|done].
  destruct (length (moduleCharacters m) =? 0)%nat; [done|].
  destruct (selectAdaptiveCharacters _ _ g) as [[selected g1]|]; [|done].
  destruct (buildQuestions _ _ _ g1) as [qs g2].
  unfold createSession. simpl.
  destruct (quizSession db !! newId) eqn:Hfresh; [done|]. simpl.
  destruct (shuffleArray qs g2) as [shuffled g3].
  intros [= <- <-]. exists (Z.of_nat (length qs)). simpl.
  repeat split; try done. lia.
Qed.

Lemma abandonQuiz_Returned userId sessionId db db' r :
  abandonQuiz userId sessionId db = (db', Returned r) ->
  quizSession db' = delete sessionId (quizSession db)
  /\ quizAnswer db' = filter (fun a => qa_sessionId a <> sessionId) (quizAnswer db)
  /\ userCharacterStats db' = userCharacterStats db
  /\ userProgress db' = userProgress db
  /\ character db' = character db /\ module db' = module db.
Proof.
  unfold abandonQuiz. srv.
  destruct (findActiveSession sessionId userId db); [|done].
  by intros [= <- _].
Qed.

Lemma countAnswers_app sid db db' rows :
  quizAnswer db' = quizAnswer db ++ rows ->
  countAnswers sid db' =
    countAnswers sid db
    + Z.of_nat (length (filter (fun a => qa_sessionId a = sid) rows)).
Proof.
  intros H. unfold countAnswers, answersOf. rewrite H, filter_app, length_app. lia.
Qed.

Lemma filter_batchRow_same sid (answers : list BatchAnswer) :
  filter (fun a => qa_sessionId a = sid) (map (batchRow sid) answers)
  = map (batchRow sid) answers.
Proof.
  induction answers as [|a rest IH]; [done|]. simpl.
  rewrite filter_cons. rewrite decide_True by done. by rewrite IH.
Qed.

Lemma filter_batchRow_other sid sid' (answers : list BatchAnswer) :
  sid <> sid' ->
  filter (fun a => qa_sessionId a = sid') (map (batchRow sid) answers) = [].
Proof.
  intros Hne. induction answers as [|a rest IH]; [done|]. simpl.
  rewrite filter_cons. rewrite decide_False by done. by rewrite IH.
Qed.

Lemma batchScore_bounds (answers : list BatchAnswer) :
  0 <= batchScore answers <= Z.of_nat (length answers).
Proof.
  unfold batchScore. pose proof (length_filter (fun a => ba_isCorrect a = true) answers).
  lia.
Qed.

Lemma answeredStats_ok now isCorrect existing :
  (forall st, existing = Some st -> stats_ok st) ->
  stats_ok (answeredStats now isCorrect existing).
Proof.
  intros H. unfold stats_ok, answeredStats.
  destruct existing as [st|]; simpl.
  - destruct (H st eq_refl) as [? ?]. destruct isCorrect; lia.
  - destruct isCorrect; lia.
Qed.

Lemma batchedStats_ok now isCorrect existing :
  (forall st, existing = Some st -> stats_ok st) ->
  stats_ok (batchedStats now isCorrect existing).
Proof.
  intros H. unfold stats_ok, batchedStats.
  destruct existing as [st|]; simpl.
  - destruct (H st eq_refl) as [? ?]. destruct isCorrect; lia.
  - destruct isCorrect; lia.
Qed.

Lemma batchedTable_ok now userId answers table :
  (forall key st, table !! key = Some st -> stats_ok st) ->
  forall key st, batchedTable now userId answers table !! key = Some st -> stats_ok st.
Proof.
  unfold batchedTable. revert table.
  induction answers as [|a rest IH]; intros table Hok; simpl; [done|].
  apply IH. intros key st. rewrite lookup_insert. case_decide.
  - intros [= <-]. apply batchedStats_ok. intros st'. apply Hok.
  - apply Hok.
Qed.

Lemma step_consistent db db' : consistent db -> step db db' -> consistent db'.
Proof.
  intros [Hscore Hstats] Hstep. destruct Hstep as [? ? ? ? ? ? ? H|? ? ? ? ? ? ? H|? ? ? ? ? H|? ? ? ? ? H|? ? ? H].
  - apply startQuiz_Returned in H
      as (totalItems & Hfresh & Hsess & Hpos & Hans & Hst & _).
    constructor.
    + intros sid s. rewrite Hsess, lookup_insert. case_decide.
      * intros [= <-]. simpl. unfold countAnswers. lia.
      * intros Hs. apply Hscore in Hs. unfold countAnswers, answersOf in *.
        by rewrite Hans.
    + by rewrite Hst.
  - apply submitAnswer_Returned in H
      as (session & ch & Hact & _ & _ & _ & _ & Hans & Hsess & Hst & _).
    apply findActiveSession_lookup in Hact as (Hlook & _ & _).
    constructor.
    + intros sid s Hs.
      rewrite (countAnswers_app sid db db' _ Hans), filter_cons, filter_nil. simpl.
      destruct (decide (sessionId = sid)) as [<-|Hne].
      * pose proof (Hscore _ _ Hlook) as Hb.
        rewrite Hsess in Hs. destruct (sameReading userAnswer (ch_reading ch)).
        -- rewrite lookup_insert_eq in Hs. injection Hs as <-. simpl. lia.
        -- rewrite Hlook in Hs. injection Hs as <-. simpl. lia.
      * assert (quizSession db !! sid = Some s) as Hs0.
        { rewrite Hsess in Hs. destruct (sameReading userAnswer (ch_reading ch));
            [by rewrite lookup_insert_ne in Hs|done]. }
        apply Hscore in Hs0. simpl. lia.
    + intros key st. rewrite Hst, lookup_insert. case_decide.
      * intros [= <-]. apply answeredStats_ok. intros st'. apply Hstats.
      * apply Hstats.
  - apply submitAnswersBatch_Returned in H
      as (session & Hact & Hzero & _ & _ & Hans & Hsess & Hst & _).
    apply findActiveSession_lookup in Hact as (Hlook & _ & _).
    constructor.
    + intros sid s Hs.
      rewrite (countAnswers_app sid db db' _ Hans).
      destruct (decide (sessionId = sid)) as [<-|Hne].
      * rewrite Hsess, lookup_insert_eq in Hs. injection Hs as <-. simpl.
        rewrite filter_batchRow_same, length_map.
        pose proof (batchScore_bounds answers). lia.
      * rewrite Hsess, lookup_insert_ne in Hs by done.
        rewrite filter_batchRow_other by done. apply Hscore in Hs. simpl. lia.
    + rewrite Hst. by apply batchedTable_ok.
  - apply completeQuiz_Returned in H
      as (session & Hfind & _ & Hsess & _ & _ & _ & _ & _ & _ & Hans & Hst & _).
    apply findSession_lookup in Hfind as [Hlook _].
    constructor.
    + intros sid s. rewrite Hsess, lookup_insert.
      unfold countAnswers, answersOf. rewrite Hans. case_decide.
      * intros [= <-]. subst sid. simpl. by apply Hscore in Hlook.
      * apply Hscore.
    + by rewrite Hst.
  - apply abandonQuiz_Returned in H as (Hsess & Hans & Hst & _).
    constructor.
    + intros sid s. rewrite Hsess, lookup_delete. case_decide; [done|].
      intros Hs. apply Hscore in Hs.
      unfold countAnswers, answersOf in *. rewrite Hans.
      rewrite list_filter_filter.
      erewrite (list_filter_iff _ (fun a => qa_sessionId a = sid)); [done|].
      intros a. split; [tauto|]. intros <-. split; [done|]. congruence.
    + by rewrite Hst.
Qed.

Lemma reachable_consistent db : reachable db -> consistent db.
Proof.
  induction 1 as [db (Hs & Ha & Hst & _)|db db' _ IH Hstep].
  - constructor.
    + intros sid s. by rewrite Hs, lookup_empty.
    + intros key st. by rewrite Hst, lookup_empty.
  - by eapply step_consistent.
Qed.

Lemma batch_score_exceeds_totalItems :
  exists db' r s,
    quizSession startedDB !! "s-1"
      = Some (QuizSession_create "s-1" "u-1" "m-vowels" 5 0)
    /\ submitAnswersBatch 5 "u-1" "s-1" overlongBatch startedDB = (db', Returned r)
    /\ quizSession db' !! "s-1" = Some s
    /\ qs_totalItems s = 5
    /\ qs_score s = 6
    /\ ~ (0 <= qs_score s <= qs_totalItems s).
Proof.
  eexists _, _, (with_score 6 (QuizSession_create "s-1" "u-1" "m-vowels" 5 0)).
  split; [vm_compute; reflexivity|].
  split; [vm_compute; reflexivity|].
  split; [vm_compute; reflexivity|].
  split; [reflexivity|]. split; [reflexivity|].
  simpl. lia.
Qed.

(** The single-answer path has the same latitude: a correct answer for a
    character outside the quizzed module raises the score as well. *)
Example submitAnswer_other_module :
  match submitAnswer 5 "u-1" "s-1" "c-ka" "KA" None startedDB with
  | (db', Returned r) =>
      (ar_isCorrect r, qs_score <$> quizSession db' !! "s-1")
  | _ => (false, None)
  end = (true, Some 1).
Proof. vm_compute. reflexivity. Qed.

(** C2 (amended). In every state of the store reached through the server
    functions, every session has [0 <= score <= number of answers stored
    for it], hence [score <= totalItems] whenever no more than
    [totalItems] answers are stored for it; and a successful
    [submitAnswersBatch] sets the score to the number of supplied answers
    flagged correct, which is bounded by the length of the supplied list
    and is the score it returns. *)
Theorem score_bounded_by_answers (db : DB) :
  reachable db ->
  (forall sid s,
     quizSession db !! sid = Some s ->
     0 <= qs_score s <= countAnswers sid db
     /\ (countAnswers sid db <= qs_totalItems s -> qs_score s <= qs_totalItems s))
  /\ (forall now userId sessionId answers db' r,
        submitAnswersBatch now userId sessionId answers db = (db', Returned r) ->
        exists s',
          quizSession db' !! sessionId = Some s'
          /\ qs_score s' = batchScore answers
          /\ bs_score r = batchScore answers
          /\ countAnswers sessionId db' = Z.of_nat (length answers)
          /\ 0 <= batchScore answers <= Z.of_nat (length answers)).
Proof.
  intros Hreach. apply reachable_consistent in Hreach as [Hscore _].
  split.
  - intros sid s Hs. apply Hscore in Hs. split; [done|lia].
  - intros now userId sessionId answers db' r Hrun.
    apply submitAnswersBatch_Returned in Hrun
      as (session & _ & Hzero & Hr & _ & Hans & Hsess & _).
    exists (with_score (batchScore answers) session).
    split; [by rewrite Hsess, lookup_insert_eq|].
    split; [done|]. split; [done|].
    split; [|apply batchScore_bounds].
    rewrite (countAnswers_app sessionId db db' _ Hans), Hzero.
    rewrite filter_batchRow_same, length_map. lia.
Qed.

Lemma seedDB_initial : initial seedDB.
Proof. by repeat split. Qed.

Lemma startedDB_run :
  exists r,
    startQuiz "s-1" 0 "u-1" "m-vowels" DEFAULT_QUIZ_CONFIG cyclicDraws seedDB
    = (startedDB, Returned r).
Proof.
  unfold startedDB.
  destruct (startQuiz "s-1" 0 "u-1" "m-vowels" DEFAULT_QUIZ_CONFIG cyclicDraws seedDB)
    as [db' [r|e]] eqn:Hrun.
  - by exists r.
  - vm_compute in Hrun. discriminate Hrun.
Defined.

Lemma startedDB_reachable : reachable startedDB.
Proof.
  destruct startedDB_run as [r Hrun].
  eapply reachable_step; [apply reachable_initial, seedDB_initial|].
  exact (step_startQuiz _ _ _ _ _ _ _ _ _ Hrun).
Defined.

Lemma batchedDB_reachable : reachable batchedDB.
Proof.
  eapply reachable_step; [apply startedDB_reachable|].
  apply (step_submitAnswersBatch _ _ 5 "u-1" "s-1" honestBatch
           {| bs_score := 5; bs_totalItems := 5 |}).
  vm_compute. reflexivity.
Defined.

Lemma overfullDB_reachable : reachable overfullDB.
Proof.
  eapply reachable_step; [apply startedDB_reachable|].
  apply (step_submitAnswersBatch _ _ 5 "u-1" "s-1" overlongBatch
           {| bs_score := 6; bs_totalItems := 6 |}).
  vm_compute. reflexivity.
Defined.

Lemma overdoneDB_run :
  exists r, completeQuiz 9 9 "u-1" "s-1" overfullDB = (overdoneDB, Returned r).
Proof.
  unfold overdoneDB.
  destruct (completeQuiz 9 9 "u-1" "s-1" overfullDB) as [db' [r|e]] eqn:Hrun.
  - by exists r.
  - vm_compute in Hrun. discriminate Hrun.
Defined.

Lemma restartedDB_run :
  exists r,
    startQuiz "s-2" 10 "u-1" "m-vowels" DEFAULT_QUIZ_CONFIG cyclicDraws overdoneDB
    = (restartedDB, Returned r).
Proof.
  unfold restartedDB.
  destruct (startQuiz "s-2" 10 "u-1" "m-vowels" DEFAULT_QUIZ_CONFIG cyclicDraws
              overdoneDB) as [db' [r|e]] eqn:Hrun.
  - by exists r.
  - vm_compute in Hrun. discriminate Hrun.
Defined.

Lemma restartedDB_reachable : reachable restartedDB.
Proof.
  destruct overdoneDB_run as [r1 Hrun1]. destruct restartedDB_run as [r2 Hrun2].
  eapply reachable_step;
    [eapply reachable_step; [apply overfullDB_reachable|]|].
  - exact (step_completeQuiz _ _ _ _ _ _ _ Hrun1).
  - exact (step_startQuiz _ _ _ _ _ _ _ _ _ Hrun2).
Defined.

Lemma score_bounded_by_answers_witness :
  (exists s, quizSession batchedDB !! "s-1" = Some s
             /\ qs_score s = 5
             /\ 0 <= qs_score s <= countAnswers "s-1" batchedDB
             /\ qs_score s <= qs_totalItems s)
  /\ (exists s, quizSession overfullDB !! "s-1" = Some s
                /\ qs_score s = 6 /\ qs_totalItems s = 5
                /\ 0 <= qs_score s <= countAnswers "s-1" overfullDB)
  /\ (exists s, quizSession batchedDB !! "s-1" = Some s
                /\ qs_score s = batchScore honestBatch
                /\ countAnswers "s-1" batchedDB = Z.of_nat (length honestBatch)).
Proof.
  split; [|split].
  - exists (with_score 5 (QuizSession_create "s-1" "u-1" "m-vowels" 5 0)).
    assert (quizSession batchedDB !! "s-1"
            = Some (with_score 5 (QuizSession_create "s-1" "u-1" "m-vowels" 5 0)))
      as Hs by (vm_compute; reflexivity).
    destruct (proj1 (score_bounded_by_answers batchedDB batchedDB_reachable)
                "s-1" _ Hs) as [Hbound Htotal].
    split; [exact Hs|]. split; [reflexivity|]. split; [exact Hbound|].
    apply Htotal. vm_compute. discriminate.
  - exists (with_score 6 (QuizSession_create "s-1" "u-1" "m-vowels" 5 0)).
    assert (quizSession overfullDB !! "s-1"
            = Some (with_score 6 (QuizSession_create "s-1" "u-1" "m-vowels" 5 0)))
      as Hs by (vm_compute; reflexivity).
    split; [exact Hs|]. split; [reflexivity|]. split; [reflexivity|].
    exact (proj1 (proj1 (score_bounded_by_answers overfullDB overfullDB_reachable)
                    "s-1" _ Hs)).
  - destruct (proj2 (score_bounded_by_answers startedDB startedDB_reachable)
                5 "u-1" "s-1" honestBatch batchedDB
                {| bs_score := 5; bs_totalItems := 5 |})
      as (s & Hs & Hscore & _ & Hcount & _).
    + vm_compute. reflexivity.
    + exists s. split; [exact Hs|]. split; [exact Hscore|exact Hcount].
Defined.

(** ** C1: progress above the cap *)

(** C1, counterexample.  The result is not capped at 100 for every call.
    The learner's first session, scored 6 of 5 by the overlong batch, is
    the first completion and stores its raw percentage, 120.  The next
    completion for the same learner and module, of a session without
    answers, calls [calculateNewProgress 120 0 2]: the blend 72 passes the
    cap, the floor 110 is applied after it, and the call returns 110. *)
Theorem progress_exceeds_cap :
  reachable restartedDB
  /\ (storedProgress "u-1" "m-vowels" restartedDB == 120)%Q
  /\ countCompletedSessions "u-1" "m-vowels" restartedDB + 1 = 2
  /\ (calculateNewProgress 120 0 2 == 110)%Q
  /\ ~ (calculateNewProgress 120 0 2 <= 100)%Q
  /\ exists db' r,
       completeQuiz 12 13 "u-1" "s-2" restartedDB = (db', Returned r)
       /\ (newModuleProgress r == 110)%Q.
Proof.
  split; [exact restartedDB_reachable|].
  split; [vm_compute; reflexivity|].
  split; [vm_compute; reflexivity|].
  split; [vm_compute; reflexivity|].
  split; [vm_compute; intros H; apply H; reflexivity|].
  destruct (completeQuiz 12 13 "u-1" "s-2" restartedDB) as [db' [r|e]] eqn:Hrun.
  - exists db', r. split; [reflexivity|].
    vm_compute in Hrun. injection Hrun as _ <-. vm_compute. reflexivity.
  - vm_compute in Hrun. discriminate Hrun.
Qed.

(** ** The learner's first quiz, end to end *)

Lemma completeQuiz_flags_witness :
  exists session,
    quizSession batchedDB !! "s-1" = Some session
    /\ (unlockedNextModule firstResult = true <->
        (storedProgress "u-1" (qs_moduleId session) batchedDB < 80)%Q
        /\ (80 <= storedProgress "u-1" (qs_moduleId session) completedDB)%Q).
Proof.
  destruct (completeQuiz_flags 9 9 "u-1" "s-1" batchedDB completedDB firstResult)
    as (session & Hs & _ & Hunlock & _).
  - vm_compute. reflexivity.
  - exists session. split; [exact Hs|exact Hunlock].
Defined.

Example completeQuiz_79_to_81 :
  match completeQuiz 9 9 "u-1" "s-1" (laterDB 79) with
  | (_, Returned r) =>
      (Qred (newModuleProgress r), unlockedNextModule r, isModuleCompleted r)
  | _ => (0%Q, false, false)
  end = (81%Q, true, false).
Proof. vm_compute. reflexivity. Qed.

Example completeQuiz_81_stays_unlocked :
  match completeQuiz 9 9 "u-1" "s-1" (laterDB 81) with
  | (_, Returned r) =>
      (Qred (newModuleProgress r), unlockedNextModule r, isModuleCompleted r)
  | _ => (0%Q, false, false)
  end = ((411 # 5)%Q, false, false).
Proof. vm_compute. reflexivity. Qed.

Lemma completed_session_rejects_witness :
  submitAnswer 10 "u-1" "s-1" "c-a" "a" None completedDB
  = (completedDB, Thrown "Quiz session not found or already completed")
  /\ submitAnswersBatch 10 "u-1" "s-1" honestBatch completedDB
     = (completedDB, Thrown "Quiz session not found or already completed")
  /\ completeQuiz 10 10 "u-1" "s-1" completedDB
     = (completedDB, Thrown "Quiz session already completed").
Proof.
  destruct (completed_session_rejects 10 10 "u-1" "s-1" completedDB
              (with_completedAt 9
                 (with_score 5 (QuizSession_create "s-1" "u-1" "m-vowels" 5 0))) 9)
    as (Hsubmit & Hbatch & Hcomplete & _).
  - vm_compute. reflexivity.
  - reflexivity.
  - split; [apply Hsubmit|]. split; [apply Hbatch|exact Hcomplete].
Defined.

Lemma duplicate_answer_rejected_witness :
  exists e,
    submitAnswer 6 "u-1" "s-1" "c-a" "b" None answeredDB = (answeredDB, Thrown e)
    /\ (e = "Character already answered in this session"
        \/ e = "Quiz session not found or already completed").
Proof.
  assert (quizAnswer answeredDB
          = [ {| qa_sessionId := "s-1"; qa_characterId := "c-a";
                 qa_userAnswer := "A"; qa_isCorrect := true;
                 qa_responseTimeMs := Some 900 |} ]) as Hrows
    by (vm_compute; reflexivity).
  destruct (duplicate_answer_rejected 6 "u-1" "s-1" "c-a" "b" None answeredDB
              {| qa_sessionId := "s-1"; qa_characterId := "c-a";
                 qa_userAnswer := "A"; qa_isCorrect := true;
                 qa_responseTimeMs := Some 900 |})
    as (e & Hrun & Hkind & _).
  - rewrite Hrows. left.
  - reflexivity.
  - reflexivity.
  - exists e. split; [exact Hrun|exact Hkind].
Defined.

(** The same duplicate, by evaluation: the error, and the score and
    statistics that stand. *)
Example duplicate_answer_evaluated :
  match submitAnswer 6 "u-1" "s-1" "c-a" "b" None answeredDB with
  | (db', Thrown e) =>
      (e, qs_score <$> quizSession db' !! "s-1",
       totalAttempts <$> userCharacterStats db' !! ("u-1", "c-a"),
       map qa_isCorrect (quizAnswer db'))
  | _ => ("", None, None, [])
  end = ("Character already answered in this session", Some 1, Some 1, [true]).
Proof. vm_compute. reflexivity. Qed.

(** ** C9: the client answer queue *)

Section QueueFacts.
Variable deliver : PendingAnswer -> bool.

Lemma processLoop_attempted mounted pendingAnswers t a :
  a ∈ attempted (processLoop deliver mounted pendingAnswers t) ->
  a ∈ attempted t \/ a ∈ pendingAnswers.
Proof.
  revert t. induction pendingAnswers as [|answer rest IH]; intros t; simpl.
  - by left.
  - destruct mounted; simpl; [|by left].
    destruct (deliver answer); intros H; apply IH in H; simpl in H;
      rewrite elem_of_app, list_elem_of_singleton in H;
      destruct H as [[H| ->]|H]; auto; right; by constructor.
Qed.

(** A pass sends only answers that were [pending], or [failed] with
    fewer than [MAX_RETRIES] failures, when it started: an answer that
    has failed three times is not sent again. *)
Lemma processQueue_attempted q a :
  a ∈ attempted (processQueue deliver q).2 ->
  a ∈ answersRef q
  /\ (status a = pending \/ (status a = failed /\ retryCount a < MAX_RETRIES)).
Proof.
  unfold processQueue. destruct (processingRef q); simpl.
  - intros H. by apply not_elem_of_nil in H.
  - intros H. apply processLoop_attempted in H as [H|H]; simpl in H.
    + by apply not_elem_of_nil in H.
    + apply list_elem_of_In, filter_In in H as [Hin Hd].
      split; [by apply list_elem_of_In|].
      unfold deliverable in Hd.
      apply orb_true_iff in Hd as [Hd|Hd].
      * left. by apply bool_decide_eq_true in Hd.
      * apply andb_true_iff in Hd as [Hf Hr]. right.
        apply bool_decide_eq_true in Hf. apply Z.ltb_lt in Hr. done.
Qed.

End QueueFacts.

(** The delay of the timer set after the first, second and third failure
    of an answer (the captured retry count being 0, 1 and 2). *)
Lemma retryDelay_values (a : PendingAnswer) :
  (retryCount a = 0 -> retryDelay a = Some 1000)
  /\ (retryCount a = 1 -> retryDelay a = Some 2000)
  /\ (2 <= retryCount a -> retryDelay a = Some 5000).
Proof.
  unfold retryDelay, RETRY_DELAYS. simpl length.
  split; [|split]; intros H.
  - by rewrite H.
  - by rewrite H.
  - replace (Z.min (retryCount a) (Z.of_nat 3 - 1)) with 2 by lia. done.
Qed.

Lemma filter_length_0 {A} (f : A -> bool) (l : list A) :
  (length (List.filter f l) =? 0)%nat = true <-> forall a, a ∈ l -> f a = false.
Proof.
  rewrite Nat.eqb_eq. induction l as [|x l IH]; simpl.
  - split; [|done]. intros _ a H. by apply not_elem_of_nil in H.
  - destruct (f x) eqn:Hx; simpl.
    + split; [done|]. intros H. specialize (H x (list_elem_of_here _ _)). congruence.
    + rewrite IH. split.
      * intros H a Ha. apply elem_of_cons in Ha as [->|Ha]; auto.
      * intros H a Ha. apply H. by right.
Qed.

(** [checkSync] resolves with [true] exactly when no answer is [pending]
    or [syncing] and none is [failed] with its retries used up; an answer
    that is [failed] with retries left does not prevent it. *)
Lemma checkSync_true (current : list PendingAnswer) (elapsed : Z) :
  checkSync current elapsed = Some true <->
  forall a, a ∈ current ->
            status a = synced \/ (status a = failed /\ retryCount a < MAX_RETRIES).
Proof.
  unfold checkSync.
  destruct (length (List.filter _ current) =? 0)%nat eqn:Hp.
  - pose proof (proj1 (filter_length_0 _ _) Hp) as Hp'.
    split.
    + intros [= Hf]. pose proof (proj1 (filter_length_0 _ _) Hf) as Hf'.
      intros a Ha. specialize (Hp' a Ha). specialize (Hf' a Ha).
      clear Hp Hf. rename Hp' into Hp. rename Hf' into Hf. cbv beta in Hp, Hf.
      apply orb_false_iff in Hp as [Hp1 Hp2].
      apply bool_decide_eq_false in Hp1. apply bool_decide_eq_false in Hp2.
      destruct (status a) eqn:Hst; try done; [by left|].
      right. split; [done|].
      rewrite bool_decide_eq_true_2 in Hf by done. simpl in Hf.
      by apply Z.leb_gt in Hf.
    + intros H. f_equal. apply filter_length_0. intros a Ha.
      destruct (H a Ha) as [Hs|[Hs Hr]]; rewrite Hs; [done|]. simpl.
      by apply Z.leb_gt.
  - split.
    + destruct (10000 <? elapsed); discriminate.
    + intros H. exfalso.
      assert ((length (List.filter
                 (fun a => bool_decide (status a = pending)
                           || bool_decide (status a = syncing)) current) =? 0)%nat
              = true) as Hz; [|congruence].
      apply filter_length_0. intros a Ha.
      destruct (H a Ha) as [Hs|[Hs _]]; by rewrite Hs.
Qed.

(** While an answer that has used up its retries remains, [checkSync]
    does not resolve with [true]. *)
Lemma checkSync_terminal (current : list PendingAnswer) (elapsed : Z) a :
  a ∈ current -> status a = failed -> MAX_RETRIES <= retryCount a ->
  checkSync current elapsed <> Some true.
Proof.
  intros Ha Hs Hr H.
  destruct (proj1 (checkSync_true _ _) H a Ha) as [Hs'|[_ Hr']]; [congruence|lia].
Qed.

(** C9, at the failing input.  [waitForSync] on a queue holding one
    pending answer, with the server unreachable: the pass it triggers
    fails once and sets the 1000 ms retry timer, the answer is [failed]
    with [retryCount = 1], not [synced], and the check resolves with
    [true]. *)
Theorem waitForSync_true_before_synced :
  map status (answersRef oneQueued) = [pending]
  /\ timers (processQueue unreachable oneQueued).2 = [Some 1000]
  /\ map (fun a => (status a, retryCount a))
         (answersRef (waitForSync unreachable 100 oneQueued).1) = [(failed, 1)]
  /\ (waitForSync unreachable 100 oneQueued).2 = Some true.
Proof. repeat split; reflexivity. Qed.

(** The retry timers of the same answer, one pass after the other: the
    delays are 1 s, 2 s and 5 s, the pass after the third failure sends
    nothing, and [waitForSync] then resolves with [false]. *)
Example retries_then_terminal :
  let p1 := processQueue unreachable oneQueued in
  let p2 := retryTimer unreachable p1.1 in
  let p3 := retryTimer unreachable p2.1 in
  let p4 := retryTimer unreachable p3.1 in
  (timers p1.2, timers p2.2, timers p3.2)
    = ([Some 1000], [Some 2000], [Some 5000])
  /\ map (fun a => (status a, retryCount a)) (answersRef p3.1) = [(failed, 3)]
  /\ attempted p4.2 = []
  /\ (waitForSync unreachable 100 p3.1).2 = Some false.
Proof. repeat split; reflexivity. Qed.

(** *** Passes that overlap *)

(** When every delivery settles before any other callback runs, the event
    loop performs exactly the pass computed by [processLoop]. *)
Lemma settle_advance (a : PendingAnswer) (rest : list PendingAnswer)
    (success : bool) (h : Hook) :
  hk_passes h = [] ->
  mountedRef (hk_queue h) = true ->
  exists h2,
    settle 0 success (advance (a :: rest) h) = advance rest h2
    /\ hk_passes h2 = []
    /\ mountedRef (hk_queue h2) = true
    /\ answersRef (hk_queue h2) =
         updateById (pa_id a)
           (if success then with_status synced else with_failure)
           (updateById (pa_id a) (with_status syncing) (answersRef (hk_queue h)))
    /\ hk_timers h2 =
         (if success then hk_timers h else hk_timers h ++ [retryDelay a]).
Proof.
  intros Hp Hm.
  set (sent := hk_sent h ++
         [ {| sent_id := pa_id a;
              sent_retryCount :=
                retryCount <$> List.find (fun x => bool_decide (pa_id x = pa_id a))
                                         (answersRef (hk_queue h)) |} ]).
  set (marked := {| answersRef :=
                      updateById (pa_id a) (with_status syncing)
                                 (answersRef (hk_queue h));
                    processingRef := processingRef (hk_queue h);
                    mountedRef := true |}).
  assert (advance (a :: rest) h
          = {| hk_queue := marked;
               hk_passes := [ {| inflight := a; upcoming := rest |} ];
               hk_timers := hk_timers h; hk_sent := sent |}) as ->.
  { unfold advance, with_answers. rewrite Hm, Hp. reflexivity. }
  destruct success.
  - exists (with_answers (updateById (pa_id a) (with_status synced))
              {| hk_queue := marked; hk_passes := [];
                 hk_timers := hk_timers h; hk_sent := sent |}).
    by repeat split.
  - exists {| hk_queue :=
                hk_queue (with_answers (updateById (pa_id a) with_failure)
                            {| hk_queue := marked; hk_passes := [];
                               hk_timers := hk_timers h; hk_sent := sent |});
              hk_passes := [];
              hk_timers := hk_timers h ++ [retryDelay a];
              hk_sent := sent |}.
    by repeat split.
Qed.

Lemma run_settle_processLoop (deliver : PendingAnswer -> bool)
    (pendingAnswers : list PendingAnswer) (h h' : Hook) (t : PassTrace) :
  hk_passes h = [] ->
  mountedRef (hk_queue h) = true ->
  answersRef (hk_queue h) = cell t ->
  hk_timers h = timers t ->
  h' = run (map (fun a => Settled 0 (deliver a)) pendingAnswers)
           (advance pendingAnswers h) ->
  answersRef (hk_queue h') = cell (processLoop deliver true pendingAnswers t)
  /\ hk_timers h' = timers (processLoop deliver true pendingAnswers t)
  /\ hk_passes h' = []
  /\ processingRef (hk_queue h') = false.
Proof.
  revert h h' t.
  induction pendingAnswers as [|a rest IH]; intros h h' t Hp Hm Hc Ht ->.
  - simpl. by repeat split.
  - destruct (settle_advance a rest (deliver a) h Hp Hm)
      as (h2 & Hstep & Hp2 & Hm2 & Hc2 & Ht2).
    cbn [map run fold_left handle processLoop negb]. rewrite Hstep.
    destruct (deliver a).
    + eapply IH; [exact Hp2|exact Hm2| | |reflexivity]; cbn [cell timers].
      * by rewrite Hc2, Hc.
      * by rewrite Ht2, Ht.
    + eapply IH; [exact Hp2|exact Hm2| | |reflexivity]; cbn [cell timers].
      * by rewrite Hc2, Hc.
      * by rewrite Ht2, Ht.
Qed.

(** An answer that has failed three times is sent again: the last call of
    [submitAnswerAction] is for "a-2" while the queue holds it with
    [retryCount = 3]. *)
Lemma overlapping_pass_resends_terminal :
  let before := run (removelast overlappingRun) twoQueued in
  let after := run overlappingRun twoQueued in
  map (fun a => (pa_id a, status a, retryCount a)) (answersRef (hk_queue before))
    = [ ("a-1", syncing, 2); ("a-2", failed, 3) ]
  /\ last (hk_sent after) = Some {| sent_id := "a-2"; sent_retryCount := Some 3 |}
  /\ map (fun a => (pa_id a, status a, retryCount a)) (answersRef (hk_queue after))
     = [ ("a-1", failed, 3); ("a-2", syncing, 3) ]
  /\ length (filter (fun s => sent_id s = "a-2") (hk_sent after)) = 4%nat.
Proof. vm_compute. repeat split; reflexivity. Qed.

(** * Further properties of the code *)

(** ** Shuffling *)

Lemma shuffleLoop_draws {T} (i : nat) (a : list T) (g : JS.RandomSource) (n : nat) :
  (shuffleLoop i a g).2 n = g (n + i)%nat.
Proof.
  revert a g n. induction i as [|i IH]; intros a g n; simpl.
  - f_equal. lia.
  - rewrite IH. f_equal. lia.
Qed.

(** X1. Whatever the draws, [shuffleArray] returns a permutation of its
    argument (so nothing is lost, duplicated or invented), and it uses
    exactly [length - 1] draws of the random source (none for an empty or
    one-element array). *)
Theorem shuffleArray_permutes {T} (array : list T) (g : JS.RandomSource) :
  (shuffleArray array g).1 ≡ₚ array
  /\ length (shuffleArray array g).1 = length array
  /\ forall n, (shuffleArray array g).2 n = g (n + (length array - 1))%nat.
Proof.
  split; [apply shuffleArray_Permutation|].
  split; [apply shuffleArray_length|].
  intros n. apply shuffleLoop_draws.
Qed.

(** ** Answer submission: effects and guards *)

Lemma with_score_same (s : QuizSessionRow) (n : Z) :
  n = qs_score s -> with_score n s = s.
Proof. intros ->. by destruct s. Qed.

Lemma submitAnswer_result now userId sessionId characterId userAnswer rt db db' r :
  submitAnswer now userId sessionId characterId userAnswer rt db = (db', Returned r) ->
  exists st',
    userCharacterStats db' !! (userId, characterId) = Some st'
    /\ ar_streakCount r = streakCount st'
    /\ ar_accuracy r =
         (if 0 <? totalAttempts st'
          then (inject_Z (correctCount st') / inject_Z (totalAttempts st'))%Q
          else 0%Q).
Proof.
  intros Hrun. pose proof Hrun as Hret.
  apply submitAnswer_Returned in Hret
    as (session & ch & Hact & Hnone & Hch & _ & _ & _ & _ & Hst & _).
  eexists. split; [by rewrite Hst, lookup_insert_eq|].
  revert Hrun. unfold submitAnswer. srv. rewrite Hact, Hnone, Hch.
  apply findActiveSession_lookup in Hact as (Hlook & _ & _).
  destruct (sameReading userAnswer (ch_reading ch)); simpl; rewrite ?Hlook; simpl;
    destruct (userCharacterStats db !! (userId, characterId)) as [st|]; simpl;
    intros [= <- <-]; simpl; done.
Qed.

(** X3. A successful [submitAnswer] appends exactly one answer to the
    session, raises the session's score by one if the answer is correct
    and leaves it otherwise, and rewrites the learner's statistics for
    the character: one more attempt, one more correct answer if correct,
    the streak extended if correct and reset to 0 if not.  It returns the
    new streak and the new accuracy (0 unless the new attempt count is
    positive).  Other sessions, other statistics
    rows and all progress are untouched. *)
Theorem submitAnswer_effect (now : Z) (userId sessionId characterId userAnswer : string)
    (rt : option Z) (db db' : DB) (r : AnswerResult) :
  submitAnswer now userId sessionId characterId userAnswer rt db = (db', Returned r) ->
  exists session st',
    quizSession db !! sessionId = Some session
    /\ quizSession db' !! sessionId
       = Some (with_score (qs_score session + (if ar_isCorrect r then 1 else 0)) session)
    /\ (forall other, other <> sessionId ->
          quizSession db' !! other = quizSession db !! other
          /\ countAnswers other db' = countAnswers other db)
    /\ countAnswers sessionId db' = countAnswers sessionId db + 1
    /\ userCharacterStats db' !! (userId, characterId) = Some st'
    /\ (let old := userCharacterStats db !! (userId, characterId) in
        totalAttempts st' = default 0 (totalAttempts <$> old) + 1
        /\ correctCount st'
           = default 0 (correctCount <$> old) + (if ar_isCorrect r then 1 else 0)
        /\ streakCount st'
           = (if ar_isCorrect r then default 0 (streakCount <$> old) + 1 else 0)
        /\ lastAttemptAt st' = now)
    /\ ar_streakCount r = streakCount st'
    /\ ar_accuracy r =
         (if 0 <? totalAttempts st'
          then (inject_Z (correctCount st') / inject_Z (totalAttempts st'))%Q
          else 0%Q)
    /\ (forall key, key <> (userId, characterId) ->
          userCharacterStats db' !! key = userCharacterStats db !! key)
    /\ userProgress db' = userProgress db.
Proof.
  intros Hrun.
  destruct (submitAnswer_result _ _ _ _ _ _ _ _ _ Hrun) as (st' & Hst' & Hstreak & Hacc).
  apply submitAnswer_Returned in Hrun
    as (session & ch & Hact & _ & _ & Hflag & _ & Hans & Hsess & Hst & _ & _ & Hprog).
  apply findActiveSession_lookup in Hact as (Hlook & _ & _).
  exists session, st'. split; [done|].
  rewrite Hst, lookup_insert_eq in Hst'. injection Hst' as <-.
  rewrite Hflag. split.
  { rewrite Hsess. destruct (sameReading userAnswer (ch_reading ch)).
    - by rewrite lookup_insert_eq.
    - rewrite Hlook. f_equal. symmetry. apply with_score_same. lia. }
  split.
  { intros other Hne. split.
    - rewrite Hsess. destruct (sameReading userAnswer (ch_reading ch)); [|done].
      by rewrite lookup_insert_ne.
    - rewrite (countAnswers_app other db db' _ Hans), filter_cons, filter_nil.
      simpl. rewrite decide_False by done. simpl. lia. }
  split.
  { rewrite (countAnswers_app sessionId db db' _ Hans), filter_cons, filter_nil.
    simpl. rewrite decide_True by done. simpl. lia. }
  split; [by rewrite Hst, lookup_insert_eq|].
  split.
  { cbv zeta. unfold answeredStats.
    destruct (userCharacterStats db !! (userId, characterId)) as [st|]; simpl;
      repeat split; try done; destruct (sameReading _ _); lia. }
  split; [done|].
  split; [done|].
  split; [|done].
  intros key Hne. by rewrite Hst, lookup_insert_ne.
Qed.

Lemma submitAnswer_effect_witness :
  countAnswers "s-1" answeredDB = countAnswers "s-1" startedDB + 1
  /\ quizSession answeredDB !! "s-1"
     = Some (with_score (0 + 1) (QuizSession_create "s-1" "u-1" "m-vowels" 5 0)).
Proof.
  destruct (submitAnswer_effect 5 "u-1" "s-1" "c-a" "A" (Some 900)
              startedDB answeredDB
              {| ar_isCorrect := true; ar_correctAnswer := "a";
                 ar_streakCount := 1; ar_accuracy := 1 / 1 |})
    as (session & st' & Hs & Hs' & _ & Hcount & _).
  - vm_compute. reflexivity.
  - split; [exact Hcount|].
    assert (quizSession startedDB !! "s-1"
            = Some (QuizSession_create "s-1" "u-1" "m-vowels" 5 0)) as Hs0
      by (vm_compute; reflexivity).
    rewrite Hs0 in Hs. injection Hs as <-. exact Hs'.
Defined.

Lemma batchedStats_answeredStats now isCorrect existing :
  batchedStats now isCorrect existing = answeredStats now isCorrect existing.
Proof.
  unfold batchedStats, answeredStats.
  destruct existing as [st|]; [|done]. destruct isCorrect; f_equal; lia.
Qed.

(** X4. The two answer paths agree on a single answer: on a session with
    no stored answers and score 0, a batch holding one answer, flagged as
    [submitAnswer] judges it, is accepted and writes what [submitAnswer]
    writes: the same answer row, the same session row and the same
    statistics. *)
Theorem batch_of_one_is_submitAnswer (now : Z)
    (userId sessionId characterId userAnswer : string) (responseTimeMs : Z)
    (db db1 : DB) (r : AnswerResult) (session : QuizSessionRow) :
  submitAnswer now userId sessionId characterId userAnswer (Some responseTimeMs) db
    = (db1, Returned r) ->
  quizSession db !! sessionId = Some session ->
  qs_score session = 0 ->
  countAnswers sessionId db = 0 ->
  exists db2 r2,
    submitAnswersBatch now userId sessionId
      [ {| ba_characterId := characterId; ba_userAnswer := userAnswer;
           ba_isCorrect := ar_isCorrect r; ba_responseTimeMs := responseTimeMs |} ] db
      = (db2, Returned r2)
    /\ quizAnswer db2 = quizAnswer db1
    /\ quizSession db2 = quizSession db1
    /\ userCharacterStats db2 = userCharacterStats db1
    /\ userProgress db2 = userProgress db1
    /\ bs_score r2 = (if ar_isCorrect r then 1 else 0)
    /\ bs_totalItems r2 = 1.
Proof.
  intros Hrun Hlook Hscore Hzero.
  apply submitAnswer_Returned in Hrun
    as (session' & ch & Hact & _ & _ & Hflag & _ & Hans & Hsess & Hst & _ & _ & Hprog).
  pose proof (findActiveSession_lookup _ _ _ _ Hact) as (Hlook' & _ & _).
  assert (session' = session) by congruence. subst session'.
  set (entry := {| ba_characterId := characterId; ba_userAnswer := userAnswer;
                   ba_isCorrect := ar_isCorrect r;
                   ba_responseTimeMs := responseTimeMs |}).
  destruct (submitAnswersBatch now userId sessionId [entry] db) as [db2 [r2|e]] eqn:Hb;
    subst entry.
  - exists db2, r2. split; [done|].
    apply submitAnswersBatch_Returned in Hb
      as (s2 & Hact2 & _ & Hr & Hn & Hans2 & Hsess2 & Hst2 & _ & _ & Hprog2).
    assert (s2 = session) by congruence. subst s2.
    assert (batchScore
              [ {| ba_characterId := characterId; ba_userAnswer := userAnswer;
                   ba_isCorrect := ar_isCorrect r;
                   ba_responseTimeMs := responseTimeMs |} ]
            = (if ar_isCorrect r then 1 else 0)) as Hbs.
    { unfold batchScore. rewrite filter_cons, filter_nil. simpl.
      destruct (ar_isCorrect r); [by rewrite decide_True|by rewrite decide_False]. }
    split; [rewrite Hans2, Hans; unfold batchRow; simpl; by rewrite Hflag|].
    split.
    { rewrite Hsess2, Hsess, Hbs, <- Hflag. destruct (ar_isCorrect r).
      - by rewrite Hscore.
      - rewrite with_score_same by done. by apply insert_id. }
    split.
    { rewrite Hst2, Hst. unfold batchedTable. simpl.
      by rewrite batchedStats_answeredStats, Hflag. }
    split; [congruence|]. split; [by rewrite Hr|by rewrite Hn].
  - exfalso. revert Hb. unfold submitAnswersBatch. srv. rewrite Hact, Hzero. simpl.
    rewrite Hlook. simpl.
    unfold batchStats. srv.
    destruct (userCharacterStats db !! (userId, characterId)); done.
Qed.

Lemma batch_of_one_is_submitAnswer_witness :
  exists db2 r2,
    submitAnswersBatch 5 "u-1" "s-1"
      [ {| ba_characterId := "c-a"; ba_userAnswer := "A";
           ba_isCorrect := true; ba_responseTimeMs := 900 |} ] startedDB
      = (db2, Returned r2)
    /\ quizAnswer db2 = quizAnswer answeredDB
    /\ quizSession db2 = quizSession answeredDB.
Proof.
  destruct (batch_of_one_is_submitAnswer 5 "u-1" "s-1" "c-a" "A" 900
              startedDB answeredDB
              {| ar_isCorrect := true; ar_correctAnswer := "a";
                 ar_streakCount := 1; ar_accuracy := 1 / 1 |}
              (QuizSession_create "s-1" "u-1" "m-vowels" 5 0))
    as (db2 & r2 & Hrun & Hans & Hsess & _).
  - vm_compute. reflexivity.
  - vm_compute. reflexivity.
  - reflexivity.
  - reflexivity.
  - exists db2, r2. split; [exact Hrun|]. split; [exact Hans|exact Hsess].
Defined.



(** ** Abandoning and reading back a session *)

Lemma filter_none {A} (P : A -> Prop) `{forall x, Decision (P x)} (l : list A) :
  (forall a, a ∈ l -> ~ P a) -> filter P l = [].
Proof.
  induction l as [|x l IH]; intros Hall; [done|].
  rewrite filter_cons_False by (apply Hall; left).
  apply IH. intros a Ha. apply Hall. by right.
Qed.

(** X6. A successful [abandonQuiz] removes the session and every answer
    stored for it, and nothing else: other sessions and their answers, the
    statistics (including what the abandoned session's answers added to
    them) and the progress are as before.  Afterwards every operation on
    that session id throws and changes nothing.  A completed session
    cannot be abandoned. *)
Theorem abandonQuiz_effect (userId sessionId : string) (db : DB) :
  (forall db' r,
     abandonQuiz userId sessionId db = (db', Returned r) ->
     quizSession db' !! sessionId = None
     /\ answersOf sessionId db' = []
     /\ (forall other, other <> sessionId ->
           quizSession db' !! other = quizSession db !! other
           /\ answersOf other db' = answersOf other db)
     /\ userCharacterStats db' = userCharacterStats db
     /\ userProgress db' = userProgress db
     /\ (forall now characterId userAnswer rt,
           submitAnswer now userId sessionId characterId userAnswer rt db'
           = (db', Thrown "Quiz session not found or already completed"))
     /\ (forall now answers,
           submitAnswersBatch now userId sessionId answers db'
           = (db', Thrown "Quiz session not found or already completed"))
     /\ (forall now completedAt,
           completeQuiz now completedAt userId sessionId db'
           = (db', Thrown "Quiz session not found"))
     /\ abandonQuiz userId sessionId db'
        = (db', Thrown "Quiz session not found or already completed"))
  /\ (forall session t,
        quizSession db !! sessionId = Some session ->
        qs_completedAt session = Some t ->
        abandonQuiz userId sessionId db
        = (db, Thrown "Quiz session not found or already completed")).
Proof.
  split.
  - intros db' r Hrun.
    apply abandonQuiz_Returned in Hrun as (Hsess & Hans & Hst & Hprog & _).
    assert (quizSession db' !! sessionId = None) as Hgone
      by (by rewrite Hsess, lookup_delete_eq).
    assert (findSession sessionId userId db' = None) as Hfind
      by (unfold findSession; by rewrite Hgone).
    assert (findActiveSession sessionId userId db' = None) as Hact
      by (unfold findActiveSession; by rewrite Hfind).
    split; [done|]. split.
    { unfold answersOf. rewrite Hans, list_filter_filter.
      apply filter_none. intros a _ [H1 H2]. done. }
    split.
    { intros other Hne. split; [by rewrite Hsess, lookup_delete_ne|].
      unfold answersOf. rewrite Hans, list_filter_filter.
      apply list_filter_iff. intros a. split; [tauto|].
      intros Ha. split; [done|congruence]. }
    split; [done|]. split; [done|].
    split; [intros; unfold submitAnswer; srv; by rewrite Hact|].
    split; [intros; unfold submitAnswersBatch; srv; by rewrite Hact|].
    split; [intros; unfold completeQuiz; srv; by rewrite Hfind|].
    unfold abandonQuiz. srv. by rewrite Hact.
  - intros session t Hlook Hdone.
    unfold abandonQuiz. srv.
    by rewrite (findActiveSession_completed _ _ _ _ _ Hlook Hdone).
Qed.

Lemma abandonQuiz_effect_witness :
  quizSession abandonedDB !! "s-1" = None
  /\ answersOf "s-1" abandonedDB = []
  /\ userCharacterStats abandonedDB = userCharacterStats answeredDB.
Proof.
  destruct (proj1 (abandonQuiz_effect "u-1" "s-1" answeredDB) abandonedDB tt)
    as (Hgone & Hans & _ & Hst & _).
  - vm_compute. reflexivity.
  - split; [exact Hgone|]. split; [exact Hans|exact Hst].
Defined.

(** X7. [getQuizProgress] does not look at who asks: through its action,
    every authenticated user reads the score, the number of stored
    answers and [totalItems] of any existing session, whoever owns it; an
    unknown id gives "Quiz session not found" and an unauthenticated call
    "Not authenticated".  The store is never changed, and in every
    reachable state the score read is between 0 and the number of answers
    read. *)
Theorem getQuizProgress_any_caller (sessionId : string) (db : DB) :
  (forall session caller,
     quizSession db !! sessionId = Some session ->
     getQuizProgressAction (Some caller) sessionId db
     = (db, Success {| qp_score := qs_score session;
                       qp_answered := countAnswers sessionId db;
                       qp_totalItems := qs_totalItems session |})
     /\ (reachable db -> 0 <= qs_score session <= countAnswers sessionId db))
  /\ (forall caller,
        quizSession db !! sessionId = None ->
        getQuizProgressAction (Some caller) sessionId db
        = (db, Failure "Quiz session not found"))
  /\ getQuizProgressAction None sessionId db = (db, Failure "Not authenticated").
Proof.
  split; [|split].
  - intros session caller Hlook. split.
    + unfold getQuizProgressAction, authenticated, catching, getQuizProgress. srv.
      by rewrite Hlook.
    + intros Hreach. apply reachable_consistent in Hreach as [Hscore _]. eauto.
  - intros caller Hnone.
    unfold getQuizProgressAction, authenticated, catching, getQuizProgress. srv.
    by rewrite Hnone.
  - reflexivity.
Qed.

(** The learner "u-2" reads the progress of the session of "u-1". *)
Lemma getQuizProgress_any_caller_witness :
  getQuizProgressAction (Some "u-2") "s-1" answeredDB
  = (answeredDB, Success {| qp_score := 1; qp_answered := 1; qp_totalItems := 5 |}).
Proof.
  pose proof (proj1 (proj1 (getQuizProgress_any_caller "s-1" answeredDB)
                       (with_score 1 (QuizSession_create "s-1" "u-1" "m-vowels" 5 0))
                       "u-2" ltac:(vm_compute; reflexivity))) as H.
  rewrite H. reflexivity.
Defined.

(** X8. [getQuizResult] right after a successful [completeQuiz] returns a
    result with the same score, total, percentage and module progress as
    the one [completeQuiz] returned.  Its time spent is measured up to the
    stored completion timestamp, so it differs from the one [completeQuiz]
    returned by the distance between the two clock reads of
    [completeQuiz].  Its [unlockedNextModule] is always false and its
    [isModuleCompleted] tells whether the stored progress is at least 100,
    newly or not.  For a session that is missing, owned by someone else or
    still open it returns [null].  It never changes the store. *)
Theorem getQuizResult_after_completeQuiz (userId sessionId : string) (db : DB) :
  (forall now completedAt db0 r,
     completeQuiz now completedAt userId sessionId db0 = (db, Returned r) ->
     exists r',
       getQuizResult userId sessionId db = (db, Returned (Some r'))
       /\ qr_sessionId r' = qr_sessionId r
       /\ qr_score r' = qr_score r
       /\ qr_totalItems r' = qr_totalItems r
       /\ qr_percentage r' = qr_percentage r
       /\ qr_timeSpentMs r' = qr_timeSpentMs r + (completedAt - now)
       /\ newModuleProgress r' = newModuleProgress r
       /\ unlockedNextModule r' = false
       /\ moduleProgressUpdated r' = true
       /\ isModuleCompleted r' = JS.geq (newModuleProgress r) COMPLETION_THRESHOLD)
  /\ (findSession sessionId userId db = None ->
      getQuizResult userId sessionId db = (db, Returned None))
  /\ (forall session,
        findSession sessionId userId db = Some session ->
        qs_completedAt session = None ->
        getQuizResult userId sessionId db = (db, Returned None)).
Proof.
  split; [|split].
  - intros now completedAt db0 r Hrun.
    pose proof Hrun as Hret.
    apply completeQuiz_Returned in Hret
      as (session & Hfind & Hopen & Hsess & Hprog & Hnew & Hscore & Htotal & _).
    pose proof (findSession_lookup _ _ _ _ Hfind) as [Hlook Huser].
    assert (findSession sessionId userId db
            = Some (with_completedAt completedAt session)) as Hfind'.
    { unfold findSession. rewrite Hsess, lookup_insert_eq. simpl.
      by rewrite decide_True. }
    revert Hrun. unfold completeQuiz. srv. rewrite Hfind, Hopen. simpl.
    rewrite Hlook. simpl. intros [= Hdb <-]. simpl in *.
    unfold getQuizResult. srv. rewrite Hfind'. simpl.
    rewrite Hprog, lookup_insert_eq. simpl.
    eexists. split; [reflexivity|]. simpl. repeat split; try done. lia.
  - intros Hnone. unfold getQuizResult. srv. by rewrite Hnone.
  - intros session Hfind Hopen. unfold getQuizResult. srv. by rewrite Hfind, Hopen.
Qed.

Lemma getQuizResult_after_completeQuiz_witness :
  exists r',
    getQuizResult "u-1" "s-1" (completeQuiz 9 11 "u-1" "s-1" batchedDB).1
    = ((completeQuiz 9 11 "u-1" "s-1" batchedDB).1, Returned (Some r'))
    /\ qr_score r' = 5 /\ qr_timeSpentMs r' = 11.
Proof.
  destruct (proj1 (getQuizResult_after_completeQuiz "u-1" "s-1"
                     (completeQuiz 9 11 "u-1" "s-1" batchedDB).1)
              9 11 batchedDB firstResult) as (r' & Hrun & _ & Hscore & _ & _ & Htime & _).
  - vm_compute. reflexivity.
  - exists r'. split; [exact Hrun|]. split; [exact Hscore|exact Htime].
Defined.

(** ** Completion: what it writes, and how far progress can fall *)

Lemma countCompletedSessions_pos userId moduleId db sid s :
  quizSession db !! sid = Some s ->
  completedFor userId moduleId s ->
  1 <= countCompletedSessions userId moduleId db.
Proof.
  intros Hlook Hc. unfold countCompletedSessions.
  destruct (filter _ (map_to_list (quizSession db))) as [|kv rest] eqn:Hf.
  - exfalso.
    eapply (filter_nil_not_elem_of _ _ (sid, s)); [exact Hf|exact Hc|].
    by apply elem_of_map_to_list.
  - simpl. lia.
Qed.

Lemma countCompletedSessions_zero userId moduleId db :
  countCompletedSessions userId moduleId db = 0 ->
  forall sid s, quizSession db !! sid = Some s -> ~ completedFor userId moduleId s.
Proof.
  intros Hz sid s Hlook Hc.
  pose proof (countCompletedSessions_pos _ _ _ _ _ Hlook Hc). lia.
Qed.

Lemma countCompletedSessions_update userId moduleId db db' sid s s' :
  quizSession db !! sid = Some s ->
  quizSession db' = <[sid := s']> (quizSession db) ->
  countCompletedSessions userId moduleId db'
  + (if decide (completedFor userId moduleId s) then 1 else 0)
  = countCompletedSessions userId moduleId db
    + (if decide (completedFor userId moduleId s') then 1 else 0).
Proof.
  intros Hlook Hsess. unfold countCompletedSessions. rewrite Hsess.
  set (P := fun kv : string * QuizSessionRow =>
              qs_userId kv.2 = userId /\ qs_moduleId kv.2 = moduleId
              /\ qs_completedAt kv.2 <> None).
  rewrite <- (insert_delete_eq (quizSession db)).
  rewrite map_to_list_insert by apply lookup_delete_eq.
  rewrite <- (map_to_list_delete (quizSession db) sid s Hlook).
  rewrite !filter_cons. unfold completedFor. subst P. cbn beta. cbn [snd].
  repeat case_decide; rewrite ?length_cons; try tauto; lia.
Qed.

Lemma step_history_ok db db' : history_ok db -> step db db' -> history_ok db'.
Proof.
  intros Hinv Hstep u m. specialize (Hinv u m).
  destruct Hstep as [? ? ? ? ? ? ? H|? ? ? ? ? ? ? H|? ? ? ? ? H|? ? ? ? ? H|? ? ? H].
  - apply startQuiz_Returned in H
      as (totalItems & Hfresh & Hsess & _ & _ & _ & Hprog & _).
    rewrite Hprog, Hinv, Hsess. split.
    + intros (sid & s & Hs & Hc). exists sid, s. split; [|done].
      rewrite lookup_insert_ne; [done|]. intros <-. congruence.
    + intros (sid & s & Hs & Hc). rewrite lookup_insert in Hs. case_decide.
      * injection Hs as <-. by destruct Hc as (_ & _ & Hc).
      * eauto.
  - apply submitAnswer_Returned in H
      as (session & ch & Hact & _ & _ & _ & _ & _ & Hsess & _ & _ & _ & Hprog).
    apply findActiveSession_lookup in Hact as (Hlook & _ & Hopen).
    rewrite Hprog, Hinv, Hsess.
    destruct (sameReading userAnswer (ch_reading ch)); [|done]. split.
    + intros (sid & s & Hs & Hc). exists sid, s. split; [|done].
      rewrite lookup_insert_ne; [done|]. intros <-.
      destruct Hc as (_ & _ & Hc). congruence.
    + intros (sid & s & Hs & Hc). rewrite lookup_insert in Hs. case_decide.
      * injection Hs as <-. by destruct Hc as (_ & _ & Hc).
      * eauto.
  - apply submitAnswersBatch_Returned in H
      as (session & Hact & _ & _ & _ & _ & Hsess & _ & _ & _ & Hprog).
    apply findActiveSession_lookup in Hact as (Hlook & _ & Hopen).
    rewrite Hprog, Hinv, Hsess. split.
    + intros (sid & s & Hs & Hc). exists sid, s. split; [|done].
      rewrite lookup_insert_ne; [done|]. intros <-.
      destruct Hc as (_ & _ & Hc). congruence.
    + intros (sid & s & Hs & Hc). rewrite lookup_insert in Hs. case_decide.
      * injection Hs as <-. by destruct Hc as (_ & _ & Hc).
      * eauto.
  - apply completeQuiz_Returned in H
      as (session & Hfind & Hopen & Hsess & Hprog & _).
    apply findSession_lookup in Hfind as [Hlook Huser].
    rewrite Hprog, Hsess, lookup_insert. case_decide as Hkey.
    + injection Hkey as <- <-. split; [|by eauto].
      intros _. exists sessionId, (with_completedAt completedAt session).
      split; [by rewrite lookup_insert_eq|]. by repeat split.
    + rewrite Hinv. split.
      * intros (sid & s & Hs & Hc). exists sid, s. split; [|done].
        rewrite lookup_insert_ne; [done|]. intros <-.
        destruct Hc as (_ & _ & Hc). congruence.
      * intros (sid & s & Hs & Hc). rewrite lookup_insert in Hs. case_decide.
        -- injection Hs as <-. destruct Hc as (Hu & Hm & _). simpl in *.
           exfalso. apply Hkey. congruence.
        -- eauto.
  - pose proof H as Hrun. apply abandonQuiz_Returned in H as (Hsess & _ & _ & Hprog & _).
    assert (exists s, quizSession db !! sessionId = Some s /\ qs_completedAt s = None)
      as (s0 & Hlook & Hopen).
    { revert Hrun. unfold abandonQuiz. srv.
      destruct (findActiveSession sessionId userId db) as [s0|] eqn:Hact; [|done].
      apply findActiveSession_lookup in Hact as (? & _ & ?). eauto. }
    rewrite Hprog, Hinv, Hsess. split.
    + intros (sid & s & Hs & Hc). exists sid, s. split; [|done].
      rewrite lookup_delete_ne; [done|]. intros <-.
      destruct Hc as (_ & _ & Hc). congruence.
    + intros (sid & s & Hs & Hc). rewrite lookup_delete in Hs. case_decide; [done|].
      eauto.
Qed.

Lemma reachable_history_ok db : reachable db -> history_ok db.
Proof.
  induction 1 as [db (Hs & _ & _ & Hp)|db db' _ IH Hstep].
  - intros u m. rewrite Hp, Hs, lookup_empty. split.
    + by intros [? ?].
    + intros (sid & s & Hl & _). by rewrite lookup_empty in Hl.
  - by eapply step_history_ok.
Qed.

Lemma sessionPercentage_nonneg (s : QuizSessionRow) :
  0 <= qs_score s -> 0 < qs_totalItems s -> (0 <= sessionPercentage s)%Q.
Proof.
  intros Hs Ht. unfold sessionPercentage.
  assert (0 <= inject_Z (qs_score s))%Q
    by (change 0%Q with (inject_Z 0); by rewrite <- Zle_Qle).
  assert (0 < inject_Z (qs_totalItems s))%Q
    by (change 0%Q with (inject_Z 0); by rewrite <- Zlt_Qlt).
  assert (0 <= inject_Z (qs_score s) / inject_Z (qs_totalItems s))%Q.
  { apply Qle_shift_div_l; [done|]. lra. }
  lra.
Qed.

(** X9. What a successful [completeQuiz] writes: the session keeps its
    score, total and owner and gets the completion timestamp; the
    learner's progress for the session's module becomes the returned
    [newModuleProgress]; the number of completed sessions counted for that
    learner and module grows by exactly one (and by none for any other
    learner or module).  Other sessions, other progress rows, all answers
    and all statistics are untouched. *)
Theorem completeQuiz_effect (now completedAt : Z) (userId sessionId : string) (db db' : DB)
    (r : QuizResult) :
  completeQuiz now completedAt userId sessionId db = (db', Returned r) ->
  exists session,
    quizSession db !! sessionId = Some session
    /\ quizSession db' !! sessionId = Some (with_completedAt completedAt session)
    /\ qr_score r = qs_score session /\ qr_totalItems r = qs_totalItems session
    /\ qr_timeSpentMs r = now - qs_startedAt session
    /\ userProgress db' !! (userId, qs_moduleId session) = Some (newModuleProgress r)
    /\ (forall other, other <> sessionId ->
          quizSession db' !! other = quizSession db !! other)
    /\ (forall key, key <> (userId, qs_moduleId session) ->
          userProgress db' !! key = userProgress db !! key)
    /\ (forall u m,
          countCompletedSessions u m db'
          = countCompletedSessions u m db
            + (if decide (u = userId /\ m = qs_moduleId session) then 1 else 0))
    /\ quizAnswer db' = quizAnswer db
    /\ userCharacterStats db' = userCharacterStats db.
Proof.
  intros Hrun. pose proof Hrun as Hret.
  apply completeQuiz_Returned in Hret
    as (session & Hfind & Hopen & Hsess & Hprog & Hnew & Hscore & Htotal & _ & _
        & Hans & Hst & _).
  pose proof (findSession_lookup _ _ _ _ Hfind) as [Hlook Huser].
  exists session. split; [done|].
  split; [by rewrite Hsess, lookup_insert_eq|].
  split; [done|]. split; [done|].
  split.
  { revert Hrun. unfold completeQuiz. srv. rewrite Hfind, Hopen. simpl.
    rewrite Hlook. simpl. by intros [= _ <-]. }
  split; [by rewrite Hprog, lookup_insert_eq, Hnew|].
  split; [intros other Hne; by rewrite Hsess, lookup_insert_ne|].
  split; [intros key Hne; by rewrite Hprog, lookup_insert_ne|].
  split; [|done].
  intros u m.
  pose proof (countCompletedSessions_update u m db db' sessionId session
                (with_completedAt completedAt session) Hlook Hsess) as Hcount.
  rewrite decide_False in Hcount
    by (intros (_ & _ & Hc); by rewrite Hopen in Hc).
  unfold completedFor in Hcount. simpl in Hcount.
  repeat case_decide; try lia; exfalso; naive_solver.
Qed.

Lemma completeQuiz_effect_witness :
  exists session,
    quizSession batchedDB !! "s-1" = Some session
    /\ quizSession completedDB !! "s-1" = Some (with_completedAt 9 session)
    /\ userProgress completedDB !! ("u-1", qs_moduleId session)
       = Some (newModuleProgress firstResult).
Proof.
  destruct (completeQuiz_effect 9 9 "u-1" "s-1" batchedDB completedDB firstResult)
    as (session & Hs & Hs' & _ & _ & _ & Hprog & _).
  - vm_compute. reflexivity.
  - exists session. split; [exact Hs|]. split; [exact Hs'|exact Hprog].
Defined.

(** X10. In every reachable state the first completed session of a module
    and only that one stores its raw percentage: [completeQuiz] finds no
    completed session of the learner for the module exactly when no
    progress is on record, and then the new progress is the session's
    percentage; otherwise it is the blend of C1.  Either way, for a
    session with [totalItems > 0] the stored progress never falls below
    [max 0 (previous - 10)]. *)
Theorem completeQuiz_bounded_regression (now completedAt : Z) (userId sessionId : string)
    (db db' : DB) (r : QuizResult) (session : QuizSessionRow) :
  reachable db ->
  completeQuiz now completedAt userId sessionId db = (db', Returned r) ->
  quizSession db !! sessionId = Some session ->
  0 < qs_totalItems session ->
  let moduleId := qs_moduleId session in
  let before := storedProgress userId moduleId db in
  let after := storedProgress userId moduleId db' in
  (countCompletedSessions userId moduleId db = 0
   <-> userProgress db !! (userId, moduleId) = None)
  /\ (userProgress db !! (userId, moduleId) = None ->
      after = sessionPercentage session)
  /\ (forall previous,
        userProgress db !! (userId, moduleId) = Some previous ->
        after = JS.Math_max (JS.Math_max 0 (previous - 10))
                  (JS.Math_min 100 (previous * 0.6 + sessionPercentage session * 0.4)))
  /\ (JS.Math_max 0 (before - 10) <= after)%Q.
Proof.
  intros Hreach Hrun Hlook Htotal moduleId before after.
  pose proof (reachable_history_ok db Hreach userId moduleId) as Hhist.
  pose proof (reachable_consistent db Hreach) as [Hscore _].
  apply completeQuiz_Returned in Hrun
    as (session' & Hfind & _ & _ & Hprog & _).
  pose proof (findSession_lookup _ _ _ _ Hfind) as [Hlook' _].
  assert (session' = session) by congruence. subst session'.
  assert (after = completedProgress userId session db) as Hafter.
  { unfold after, storedProgress, moduleId. by rewrite Hprog, lookup_insert_eq. }
  assert (Hcount : countCompletedSessions userId moduleId db = 0
                   <-> userProgress db !! (userId, moduleId) = None).
  { split.
    - intros Hz. apply eq_None_not_Some. intros Hsome.
      apply Hhist in Hsome as (sid & s & Hs & Hc).
      by eapply countCompletedSessions_zero.
    - intros Hnone.
      destruct (decide (countCompletedSessions userId moduleId db = 0)) as [|Hnz];
        [done|exfalso].
      unfold countCompletedSessions in Hnz.
      destruct (filter _ (map_to_list (quizSession db))) as [|[sid s] rest] eqn:Hf;
        [done|].
      assert ((sid, s) ∈ filter
                (fun kv : string * QuizSessionRow =>
                   qs_userId kv.2 = userId /\ qs_moduleId kv.2 = moduleId
                   /\ qs_completedAt kv.2 <> None)
                (map_to_list (quizSession db))) as Hin by (rewrite Hf; left).
      apply list_elem_of_filter in Hin as [Hc Hin].
      apply elem_of_map_to_list in Hin.
      assert (is_Some (userProgress db !! (userId, moduleId))) as [? Hsome]
        by (apply Hhist; eauto).
      congruence. }
  split; [done|].
  assert (Hpct : (0 <= sessionPercentage session)%Q).
  { apply sessionPercentage_nonneg; [|done]. by apply (Hscore sessionId). }
  split; [|split].
  - intros Hnone. rewrite Hafter. unfold completedProgress, calculateNewProgress.
    fold moduleId. rewrite (proj2 Hcount Hnone). done.
  - intros previous Hsome. rewrite Hafter.
    unfold completedProgress, calculateNewProgress. fold moduleId.
    assert (1 <= countCompletedSessions userId moduleId db) as Hge.
    { assert (is_Some (userProgress db !! (userId, moduleId))) as Hs by eauto.
      apply Hhist in Hs as (sid & s & Hs & Hc).
      by eapply countCompletedSessions_pos. }
    rewrite (proj2 (Z.leb_gt _ _)) by lia.
    unfold storedProgress. rewrite Hsome. simpl. done.
  - rewrite Hafter. unfold before, storedProgress.
    destruct (userProgress db !! (userId, moduleId)) as [previous|] eqn:Hsome; simpl.
    + unfold completedProgress, calculateNewProgress. fold moduleId.
      assert (1 <= countCompletedSessions userId moduleId db) as Hge.
      { destruct (proj1 Hhist (mk_is_Some _ _ eq_refl)) as (sid & s & Hs & Hc).
        by eapply countCompletedSessions_pos. }
      rewrite (proj2 (Z.leb_gt _ _)) by lia.
      unfold storedProgress. rewrite Hsome. simpl.
      change (1 - 0.4)%Q with 0.6%Q. minmax.
    + unfold completedProgress, calculateNewProgress. fold moduleId.
      rewrite (proj2 Hcount eq_refl). simpl.
      fold (sessionPercentage session). minmax.
Qed.

Lemma completeQuiz_bounded_regression_witness :
  (JS.Math_max 0 (storedProgress "u-1" "m-vowels" batchedDB - 10)
   <= storedProgress "u-1" "m-vowels" completedDB)%Q.
Proof.
  apply (completeQuiz_bounded_regression 9 9 "u-1" "s-1" batchedDB completedDB
           firstResult
           (with_score 5 (QuizSession_create "s-1" "u-1" "m-vowels" 5 0))).
  - exact batchedDB_reachable.
  - vm_compute. reflexivity.
  - vm_compute. reflexivity.
  - simpl. lia.
Defined.

(** ** Resuming a session *)

Lemma generateWrongOptions_basic (correctReading : string)
    (allReadings : list string) (count : Z) (g : JS.RandomSource) :
  let wrong := (generateWrongOptions correctReading allReadings count g).1 in
  (forall r, r ∈ wrong -> r ∈ allReadings /\ r <> correctReading)
  /\ (0 <= count -> (length wrong <= Z.to_nat count)%nat).
Proof.
  unfold generateWrongOptions.
  set (available := filter (fun r => r <> correctReading) allReadings).
  pose proof (shuffleArray_Permutation available g) as Hperm.
  destruct (shuffleArray available g) as [shuffled g1]. simpl in *.
  split.
  - intros r Hr.
    assert (r ∈ shuffled) as Hin
      by (eapply elem_of_sublist; [exact Hr|apply slice0_sublist]).
    rewrite Hperm in Hin. unfold available in Hin.
    apply list_elem_of_filter in Hin. tauto.
  - intros Hc. rewrite slice0_length by done. lia.
Qed.

Lemma buildQuestion_basic (allReadings : list string) (optionsCount : Z)
    (character : QuizCharacter) (g : JS.RandomSource) :
  qq_character (buildQuestion allReadings optionsCount character g).1 = character
  /\ question_basic allReadings optionsCount
       (buildQuestion allReadings optionsCount character g).1.
Proof.
  unfold buildQuestion.
  pose proof (generateWrongOptions_basic (qc_reading character) allReadings
                (optionsCount - 1) g) as (Hwin & Hwlen).
  destruct (generateWrongOptions _ _ _ g) as [wrong g1]. simpl in *.
  pose proof (shuffleArray_Permutation (qc_reading character :: wrong) g1) as Hperm.
  destruct (shuffleArray _ g1) as [opts g2]. simpl in *.
  split; [done|]. constructor; simpl.
  - done.
  - rewrite Hperm, filter_cons. rewrite decide_True by done.
    rewrite filter_eq_absent; [done|]. intros r Hr. by apply Hwin.
  - intros o Ho. rewrite Hperm in Ho. apply elem_of_cons in Ho as [->|Ho].
    + by left.
    + right. by apply Hwin.
  - intros Hc. rewrite Hperm. simpl. specialize (Hwlen ltac:(lia)). lia.
Qed.

Lemma buildQuestions_basic (selectedCharacters : list QuizCharacter)
    (allReadings : list string) (optionsCount : Z) (g : JS.RandomSource) :
  map qq_character (buildQuestions selectedCharacters allReadings optionsCount g).1
    = selectedCharacters
  /\ Forall (question_basic allReadings optionsCount)
       (buildQuestions selectedCharacters allReadings optionsCount g).1.
Proof.
  revert g. induction selectedCharacters as [|c cs IH]; intros g; simpl; [done|].
  destruct (buildQuestion_basic allReadings optionsCount c g) as [Hc Hok].
  destruct (buildQuestion allReadings optionsCount c g) as [q g1]. simpl in *.
  destruct (IH g1) as [Hmap Hall].
  destruct (buildQuestions cs allReadings optionsCount g1) as [qs g2]. simpl in *.
  split; [by rewrite Hc, Hmap|by constructor].
Qed.

(** X11. [getActiveQuizSession] on an open session of the caller returns,
    without changing the store, one question for every character of the
    session's module that has no stored answer in the session, in module
    order (however many questions the session was created with): no
    answered character comes back.  Every question has at most four
    options, all of them readings of the module, with the character's own
    reading exactly once.  For a session that is completed, missing or
    someone else's, it returns [null]. *)
Theorem getActiveQuizSession_remaining (userId sessionId : string)
    (g : JS.RandomSource) (db : DB) :
  (forall session m,
     findActiveSession sessionId userId db = Some session ->
     module db !! qs_moduleId session = Some m ->
     exists resumed g',
       getActiveQuizSession userId sessionId g db = (db, Returned (Some resumed, g'))
       /\ map qq_character (questions resumed)
          = map toQuizCharacter
              (filter (fun c => ch_id c ∉ map qa_characterId (answersOf sessionId db))
                      (moduleCharacters m))
       /\ (forall q a, q ∈ questions resumed -> a ∈ answersOf sessionId db ->
             qa_characterId a <> qc_id (qq_character q))
       /\ session_totalItems resumed = qs_totalItems session
       /\ Forall (question_basic (map ch_reading (moduleCharacters m)) 4)
                 (questions resumed))
  /\ (findActiveSession sessionId userId db = None ->
      getActiveQuizSession userId sessionId g db = (db, Returned (None, g))).
Proof.
  split.
  - intros session m Hact Hmod.
    unfold getActiveQuizSession. srv. rewrite Hact, Hmod.
    set (remaining := filter (fun c => ch_id c ∉ map qa_characterId
                                         (answersOf sessionId db))
                             (moduleCharacters m)).
    pose proof (buildQuestions_basic (map toQuizCharacter remaining)
                  (map ch_reading (moduleCharacters m)) 4 g) as [Hmap Hall].
    destruct (buildQuestions (map toQuizCharacter remaining) _ 4 g) as [qs g1].
    simpl in *. eexists _, _. split; [reflexivity|]. simpl.
    split; [done|]. split; [|done].
    intros q a Hq Ha Heq.
    assert (qq_character q ∈ map toQuizCharacter remaining) as Hin.
    { rewrite <- Hmap. by apply list_elem_of_fmap_2. }
    apply list_elem_of_fmap in Hin as (c & Hc & Hin).
    unfold remaining in Hin. apply list_elem_of_filter in Hin as [Hnot _].
    apply Hnot. rewrite Hc in Heq. simpl in Heq. rewrite <- Heq.
    by apply list_elem_of_fmap_2.
  - intros Hnone. unfold getActiveQuizSession. srv. by rewrite Hnone.
Qed.

Lemma getActiveQuizSession_remaining_witness :
  exists resumed g',
    getActiveQuizSession "u-1" "s-1" cyclicDraws answeredDB
    = (answeredDB, Returned (Some resumed, g'))
    /\ map (fun q => qc_id (qq_character q)) (questions resumed)
       = ["c-i"; "c-u"; "c-e"; "c-o"].
Proof.
  destruct (proj1 (getActiveQuizSession_remaining "u-1" "s-1" cyclicDraws answeredDB)
              (with_score 1 (QuizSession_create "s-1" "u-1" "m-vowels" 5 0))
              vowelModule)
    as (resumed & g' & Hrun & Hchars & _).
  - vm_compute. reflexivity.
  - vm_compute. reflexivity.
  - exists resumed, g'. split; [exact Hrun|].
    rewrite <- (map_map qq_character qc_id), Hchars. vm_compute. reflexivity.
Defined.

(** ** Server actions *)

Lemma startQuiz_Thrown newId now userId moduleId config g db db' e :
  startQuiz newId now userId moduleId config g db = (db', Thrown e) -> db' = db.
Proof.
  unfold startQuiz. srv.
  destruct (module db !! moduleId) as [m|]; [|by intros [= <- _]].
  destruct (length (moduleCharacters m) =? 0)%nat; [by intros [= <- _]|].
  destruct (selectAdaptiveCharacters _ _ g) as [[selected g1]|]; [|by intros [= <- _]].
  destruct (buildQuestions _ _ _ g1) as [qs g2].
  unfold createSession. simpl.
  destruct (quizSession db !! newId); [by intros [= <- _]|]. simpl.
  by destruct (shuffleArray qs g2).
Qed.

Lemma abandonQuiz_Thrown userId sessionId db db' e :
  abandonQuiz userId sessionId db = (db', Thrown e) -> db' = db.
Proof.
  unfold abandonQuiz. srv.
  destruct (findActiveSession sessionId userId db); [done|]. by intros [= <- _].
Qed.

Lemma catching_Failure {A} (body : Srv A) (db db' : DB) (e : string) :
  catching body db = (db', Failure e) -> body db = (db', Thrown e).
Proof.
  unfold catching. destruct (body db) as [d [a|m]]; [done|]. by intros [= <- <-].
Qed.

(** X12. No action lets an error escape or half-apply a change: called
    without an authenticated user, each one returns the failure "Not
    authenticated"; and whenever [startQuizAction], [submitAnswerAction],
    [submitAnswersBatchAction], [completeQuizAction] or
    [abandonQuizAction] reports a failure, the store is exactly as it was
    before the call. *)
Theorem failed_action_changes_nothing (user : option string) (db db' : DB)
    (e : string) :
  (forall newId now moduleId config g,
     startQuizAction user newId now moduleId config g db = (db', Failure e) ->
     db' = db)
  /\ (forall now sessionId characterId userAnswer rt,
        submitAnswerAction user now sessionId characterId userAnswer rt db
          = (db', Failure e) -> db' = db)
  /\ (forall now sessionId answers,
        submitAnswersBatchAction user now sessionId answers db = (db', Failure e) ->
        db' = db)
  /\ (forall now completedAt sessionId,
        completeQuizAction user now completedAt sessionId db = (db', Failure e) -> db' = db)
  /\ (forall sessionId,
        abandonQuizAction user sessionId db = (db', Failure e) -> db' = db)
  /\ (user = None ->
      (forall newId now moduleId config g,
         startQuizAction user newId now moduleId config g db
         = (db, Failure "Not authenticated"))
      /\ (forall now sessionId characterId userAnswer rt,
            submitAnswerAction user now sessionId characterId userAnswer rt db
            = (db, Failure "Not authenticated"))
      /\ (forall now sessionId answers,
            submitAnswersBatchAction user now sessionId answers db
            = (db, Failure "Not authenticated"))
      /\ (forall now completedAt sessionId,
            completeQuizAction user now completedAt sessionId db
            = (db, Failure "Not authenticated"))
      /\ (forall sessionId,
            abandonQuizAction user sessionId db = (db, Failure "Not authenticated"))).
Proof.
  destruct user as [userId|].
  - repeat split; try discriminate; intros;
      match goal with
      | H : _ = (db', Failure e) |- _ => apply catching_Failure in H
      end;
      eauto using startQuiz_Thrown, submitAnswer_Thrown, submitAnswersBatch_Thrown,
        completeQuiz_Thrown, abandonQuiz_Thrown.
  - repeat split; try done; intros;
      match goal with
      | H : _ = (db', Failure e) |- _ => by injection H as <- _
      end.
Qed.

Lemma failed_action_changes_nothing_witness :
  (submitAnswerAction (Some "u-2") 6 "s-1" "c-i" "i" None answeredDB).1 = answeredDB.
Proof.
  destruct (submitAnswerAction (Some "u-2") 6 "s-1" "c-i" "i" None answeredDB)
    as [db' [r|e]] eqn:Hrun.
  - exfalso. vm_compute in Hrun. discriminate.
  - exact (proj1 (proj2 (failed_action_changes_nothing (Some "u-2") answeredDB db' e))
             6 "s-1" "c-i" "i" None Hrun).
Defined.

(** ** Modules and their unlock status *)

Lemma withProgressFrom_ids progressMap previous currentModuleId modules :
  map mp_id (withProgressFrom progressMap previous currentModuleId modules)
  = map mod_id modules.
Proof.
  revert previous currentModuleId.
  induction modules as [|m rest IH]; intros previous cur; simpl; [done|].
  by rewrite IH.
Qed.

Lemma withProgressFrom_progress progressMap previous currentModuleId modules i m :
  withProgressFrom progressMap previous currentModuleId modules !! i = Some m ->
  mp_progress m = default 0%Q (progressMap (mp_id m))
  /\ isCompleted m = JS.geq (mp_progress m) 100.
Proof.
  revert previous currentModuleId i.
  induction modules as [|x rest IH]; intros previous cur i; simpl; [done|].
  destruct i as [|i]; simpl.
  - intros [= <-]. simpl. done.
  - apply IH.
Qed.

Lemma withProgressFrom_unlock progressMap previous currentModuleId modules :
  let out := withProgressFrom progressMap previous currentModuleId modules in
  (forall m, out !! 0%nat = Some m ->
     isUnlocked m = match previous with
                    | None => true
                    | Some p => JS.geq (default 0%Q (progressMap (mod_id p)))
                                       UNLOCK_THRESHOLD
                    end)
  /\ (forall i p m, out !! i = Some p -> out !! S i = Some m ->
        isUnlocked m = JS.geq (mp_progress p) UNLOCK_THRESHOLD).
Proof.
  revert previous currentModuleId.
  induction modules as [|x rest IH]; intros previous cur; simpl; [done|].
  split.
  - intros m [= <-]. done.
  - intros i p m. destruct i as [|i]; simpl.
    + intros [= <-] H0. simpl.
      by rewrite (proj1 (IH (Some x) _) m H0).
    + apply (proj2 (IH (Some x) _)).
Qed.

Lemma withProgressFrom_current progressMap previous currentModuleId modules i m :
  let out := withProgressFrom progressMap previous currentModuleId modules in
  out !! i = Some m ->
  (isCurrent m = true <->
   currentModuleId = None /\ openModule m = true
   /\ forall j m', (j < i)%nat -> out !! j = Some m' -> openModule m' = false).
Proof.
  revert previous currentModuleId i.
  induction modules as [|x rest IH]; intros previous cur i; simpl; [done|].
  destruct i as [|i]; simpl.
  - intros [= <-]. unfold openModule. simpl.
    rewrite andb_true_iff, bool_decide_eq_true. split.
    + intros [Hopen Hcur]. repeat split; [done|done|]. intros j m' Hj. lia.
    + intros (Hcur & Hopen & _). done.
  - intros Hm. rewrite (IH _ _ _ Hm). clear IH Hm.
    set (unlocked := match previous with
                     | Some p => JS.geq (default 0%Q (progressMap (mod_id p)))
                                        UNLOCK_THRESHOLD
                     | None => true
                     end).
    set (completed := JS.geq (default 0%Q (progressMap (mod_id x))) 100).
    set (next := if unlocked && negb completed && bool_decide (cur = None)
                 then Some (mod_id x) else cur).
    set (head := mkModuleWithProgress _ _ _ _ _ _ _ _).
    assert (openModule head = unlocked && negb completed) as Hhead by done.
    assert (next = None <-> cur = None /\ openModule head = false) as Hnext.
    { rewrite Hhead. unfold next. destruct (unlocked && negb completed); simpl.
      - destruct cur; simpl; naive_solver.
      - tauto. }
    rewrite Hnext. split.
    + intros ((Hcur & Hh) & Hopen & Hbefore). repeat split; [done|done|].
      intros [|j] m' Hj; simpl.
      * by intros [= <-].
      * apply Hbefore. lia.
    + intros (Hcur & Hopen & Hbefore).
      split; [split; [done|]|split; [done|]].
      * apply (Hbefore 0%nat); [lia|done].
      * intros j m' Hj Hm'. apply (Hbefore (S j)); [lia|done].
Qed.

(** X13. The list [getModulesWithProgress] returns has one entry for each
    module, in the modules' order.  Each entry carries the user's stored
    percentage (0 without a row) and is completed exactly from 100 on; the
    first entry is unlocked whatever the progress, and every later one is
    unlocked exactly when the entry just before it shows at least 80.  The
    current module is the first entry that is unlocked and not completed,
    and no other. *)
Theorem getModulesWithProgress_status (userId : string) (db : DB) :
  let out := getModulesWithProgress userId db in
  map mp_id out = map mod_id (modulesByOrder db)
  /\ (forall m, out !! 0%nat = Some m -> isUnlocked m = true)
  /\ (forall i p m, out !! i = Some p -> out !! S i = Some m ->
        isUnlocked m = JS.geq (mp_progress p) 80)
  /\ (forall i m, out !! i = Some m ->
        mp_progress m = storedProgress userId (mp_id m) db
        /\ isCompleted m = JS.geq (mp_progress m) 100
        /\ (isCurrent m = true <->
            openModule m = true
            /\ forall j m', (j < i)%nat -> out !! j = Some m' ->
                 openModule m' = false)).
Proof.
  unfold getModulesWithProgress. cbv zeta.
  split; [apply withProgressFrom_ids|].
  pose proof (withProgressFrom_unlock (progressMapGet userId db) None None
                (modulesByOrder db)) as [Hfirst Hnext].
  split; [exact Hfirst|]. split; [exact Hnext|].
  intros i m Hm.
  pose proof (withProgressFrom_progress _ _ _ _ _ _ Hm) as [Hp Hc].
  split; [exact Hp|]. split; [exact Hc|].
  rewrite (withProgressFrom_current _ _ _ _ _ _ Hm). tauto.
Qed.

Lemma same_ids_lookup (out out' : list ModuleWithProgress) (i : nat)
    (m : ModuleWithProgress) :
  map mp_id out' = map mp_id out ->
  out !! i = Some m ->
  exists m', out' !! i = Some m' /\ mp_id m' = mp_id m.
Proof.
  intros Hids Hm.
  assert (map mp_id out' !! i = Some (mp_id m)) as H
    by (rewrite Hids, list_lookup_fmap, Hm; done).
  rewrite list_lookup_fmap in H.
  destruct (out' !! i) as [m'|]; [|done]. injection H as H. by exists m'.
Qed.

Lemma find_by_id (out : list ModuleWithProgress) (i : nat) (m : ModuleWithProgress) :
  NoDup (map mp_id out) ->
  out !! i = Some m ->
  List.find (fun x => bool_decide (mp_id x = mp_id m)) out = Some m
  /\ list_find (fun x => mp_id x = mp_id m) out = Some (i, m).
Proof.
  intros Hnd Hm.
  assert (forall j y, out !! j = Some y -> mp_id y = mp_id m -> j = i) as Huniq.
  { intros j y Hy Heq.
    apply (NoDup_lookup _ j i (mp_id m) Hnd); rewrite list_lookup_fmap.
    - by rewrite Hy, <- Heq.
    - by rewrite Hm. }
  split.
  - clear Hnd. revert i Hm Huniq. induction out as [|x rest IH]; intros i Hm Huniq;
      [done|]. simpl. case_bool_decide as Hx.
    + assert (0%nat = i) as <- by (by apply (Huniq 0%nat x)).
      simpl in Hm. congruence.
    + destruct i as [|i]; simpl in Hm; [congruence|].
      apply (IH i Hm). intros j y Hy Heq.
      specialize (Huniq (S j) y Hy Heq). lia.
  - apply list_find_Some. split; [done|]. split; [done|].
    intros j y Hy Hj Heq. specialize (Huniq j y Hy Heq). lia.
Qed.

Lemma withProgressFrom_ext progressMap progressMap' previous currentModuleId modules :
  (forall k, progressMap' k = progressMap k) ->
  withProgressFrom progressMap' previous currentModuleId modules
  = withProgressFrom progressMap previous currentModuleId modules.
Proof.
  intros Hpm. revert previous currentModuleId.
  induction modules as [|m rest IH]; intros previous cur; [done|].
  simpl. rewrite !Hpm, IH. destruct previous as [p|]; by rewrite ?Hpm.
Qed.

(** X14. Completing a session and the module list agree on unlocking.
    After a successful [completeQuiz] of a session of the module listed at
    position [i], the list shows the returned [newModuleProgress] for that
    module, the module at position [i + 1] is unlocked exactly when that
    progress is at least 80, and [unlockedNextModule] is true exactly when
    that next module was locked before and is unlocked now; with distinct
    module ids the module page of the next module is then shown instead of
    redirecting.  The lists of other users do not change. *)
Theorem completeQuiz_unlocks_next (now completedAt : Z) (userId sessionId : string)
    (db db' : DB) (r : QuizResult) (session : QuizSessionRow) (i : nat)
    (current next : ModuleWithProgress) :
  completeQuiz now completedAt userId sessionId db = (db', Returned r) ->
  quizSession db !! sessionId = Some session ->
  getModulesWithProgress userId db !! i = Some current ->
  mp_id current = qs_moduleId session ->
  getModulesWithProgress userId db !! S i = Some next ->
  (exists current' next',
     getModulesWithProgress userId db' !! i = Some current'
     /\ getModulesWithProgress userId db' !! S i = Some next'
     /\ mp_id current' = mp_id current /\ mp_id next' = mp_id next
     /\ mp_progress current' = newModuleProgress r
     /\ isUnlocked next' = JS.geq (newModuleProgress r) 80
     /\ unlockedNextModule r = negb (isUnlocked next) && isUnlocked next'
     /\ (NoDup (map mod_id (modulesByOrder db)) ->
         modulePageAccess userId (mp_id next) db'
         = if JS.geq (newModuleProgress r) 80 then Shown else RedirectDashboard))
  /\ (forall other, other <> userId ->
        getModulesWithProgress other db' = getModulesWithProgress other db).
Proof.
  intros Hrun Hlook Hcur Hid Hnext.
  apply completeQuiz_Returned in Hrun
    as (s & Hfind & _ & _ & Hprog & Hnew & _ & _ & Hflag & _ & _ & _ & _ & Hmod).
  apply findSession_lookup in Hfind as [Hlook' _].
  assert (s = session) as -> by congruence.
  assert (modulesByOrder db' = modulesByOrder db) as Hsame
    by (unfold modulesByOrder; by rewrite Hmod).
  split.
  - assert (map mp_id (getModulesWithProgress userId db')
            = map mp_id (getModulesWithProgress userId db)) as Hids.
    { unfold getModulesWithProgress.
      by rewrite !withProgressFrom_ids, Hsame. }
    destruct (same_ids_lookup _ _ _ _ Hids Hcur) as (current' & Hcur' & Hid').
    destruct (same_ids_lookup _ _ _ _ Hids Hnext) as (next' & Hnext' & Hidn).
    exists current', next'.
    assert (mp_progress current' = newModuleProgress r) as Hp.
    { rewrite (proj1 (withProgressFrom_progress _ _ _ _ _ _ Hcur')).
      unfold progressMapGet. rewrite Hid', Hid, Hprog, lookup_insert_eq. by rewrite Hnew. }
    assert (isUnlocked next' = JS.geq (newModuleProgress r) 80) as Hu.
    { rewrite (proj2 (withProgressFrom_unlock _ _ _ _) _ _ _ Hcur' Hnext'), Hp. done. }
    split; [done|]. split; [done|]. split; [done|]. split; [done|].
    split; [done|]. split; [done|]. split.
    + rewrite Hflag, Hu, <- Hnew.
      rewrite (proj2 (withProgressFrom_unlock _ _ _ _) _ _ _ Hcur Hnext).
      rewrite (proj1 (withProgressFrom_progress _ _ _ _ _ _ Hcur)).
      unfold progressMapGet, storedProgress. by rewrite Hid.
    + intros Hnd. unfold modulePageAccess.
      assert (NoDup (map mp_id (getModulesWithProgress userId db'))) as Hnd'.
      { unfold getModulesWithProgress. by rewrite withProgressFrom_ids, Hsame. }
      rewrite <- Hidn.
      rewrite (proj1 (find_by_id _ _ _ Hnd' Hnext')). by rewrite Hu.
  - intros other Hother. unfold getModulesWithProgress. rewrite Hsame.
    assert (forall k, progressMapGet other db' k = progressMapGet other db k) as Hpm.
    { intros k. unfold progressMapGet. rewrite Hprog.
      rewrite lookup_insert_ne; [done|]. intros [= ? _]. done. }
    by apply withProgressFrom_ext.
Qed.

Lemma sample_modules_NoDup (db : DB) :
  module db = module seedDB -> NoDup (map mod_id (modulesByOrder db)).
Proof.
  intros Hmod. unfold modulesByOrder. rewrite Hmod.
  assert (map mod_id (Array_sort (fun a b => mod_order a <? mod_order b)
                        (map snd (map_to_list (module seedDB))))
          = ["m-vowels"; "m-k"]) as -> by (vm_compute; reflexivity).
  apply NoDup_cons. split; [|apply NoDup_singleton].
  intros H. apply list_elem_of_singleton in H. discriminate.
Qed.

Lemma completeQuiz_unlocks_next_witness :
  modulePageAccess "u-1" "m-k" batchedDB = RedirectDashboard
  /\ modulePageAccess "u-1" "m-k" completedDB = Shown.
Proof.
  split; [vm_compute; reflexivity|].
  destruct (completeQuiz_unlocks_next 9 9 "u-1" "s-1" batchedDB completedDB firstResult
              (with_score 5 (QuizSession_create "s-1" "u-1" "m-vowels" 5 0)) 0%nat
              (mkModuleWithProgress "m-vowels" "Vocales" 1
                 (map toQuizCharacter vowelRows) 0 true false true)
              (mkModuleWithProgress "m-k" "K" 2
                 (map toQuizCharacter kRows) 0 false false false))
    as [(current' & next' & _ & _ & _ & _ & _ & _ & _ & Hpage) _];
    [vm_compute; reflexivity ..|].
  cbn [mp_id] in Hpage.
  rewrite Hpage; [vm_compute; reflexivity|].
  apply sample_modules_NoDup. vm_compute. reflexivity.
Defined.

Lemma find_first_true {A} (P : A -> bool) (l : list A) (i : nat) (x : A) :
  l !! i = Some x -> P x = true ->
  (forall j y, (j < i)%nat -> l !! j = Some y -> P y = false) ->
  List.find P l = Some x.
Proof.
  revert i. induction l as [|a l IH]; intros i Hx HP Hbefore; [done|].
  destruct i as [|i]; simpl in *.
  - injection Hx as ->. by rewrite HP.
  - rewrite (Hbefore 0%nat a) by (done || lia).
    apply (IH i Hx HP). intros j y Hj Hy. apply (Hbefore (S j)); [lia|done].
Qed.

Lemma find_all_false {A} (P : A -> bool) (l : list A) :
  (forall x, x ∈ l -> P x = false) -> List.find P l = None.
Proof.
  induction l as [|a l IH]; intros H; [done|]. simpl.
  rewrite (H a) by (by left). apply IH. intros x Hx. apply H. by right.
Qed.

Lemma withProgressFrom_completed progressMap previous currentModuleId modules :
  length (List.filter isCompleted
            (withProgressFrom progressMap previous currentModuleId modules))
  = length (List.filter (fun m => JS.geq (default 0%Q (progressMap (mod_id m))) 100)
              modules).
Proof.
  revert previous currentModuleId.
  induction modules as [|m rest IH]; intros previous cur; [done|].
  simpl. destruct (JS.geq _ 100); simpl; by rewrite IH.
Qed.

(** X15. [getProgressSummary]: [totalModules] is the number of modules and
    [completedModules] the number of modules whose stored progress is at
    least 100.  When no
    module is unlocked and incomplete there is no current and no next
    module.  Otherwise (module ids being distinct) the current module is
    the first unlocked, incomplete entry, and the next module is the entry
    listed right after it, whether that one is locked or not; there is
    none when the current module is the last. *)
Theorem getProgressSummary_current_next (userId : string) (db : DB) :
  let out := getModulesWithProgress userId db in
  let summary := getProgressSummary userId db in
  totalModules summary = Z.of_nat (length (modulesByOrder db))
  /\ completedModules summary
     = Z.of_nat (length (List.filter
                          (fun m => JS.geq (storedProgress userId (mod_id m) db) 100)
                          (modulesByOrder db)))
  /\ ((forall m, m ∈ out -> openModule m = false) ->
      currentModule summary = None /\ nextModule summary = None)
  /\ (forall i m,
        NoDup (map mod_id (modulesByOrder db)) ->
        out !! i = Some m -> openModule m = true ->
        (forall j m', (j < i)%nat -> out !! j = Some m' -> openModule m' = false) ->
        currentModule summary = Some m /\ nextModule summary = out !! S i).
Proof.
  cbv zeta. unfold getProgressSummary, summarize. simpl.
  set (out := getModulesWithProgress userId db).
  assert (map mp_id out = map mod_id (modulesByOrder db)) as Hids
    by apply withProgressFrom_ids.
  assert (forall i m, out !! i = Some m ->
            (isCurrent m = true <->
             openModule m = true
             /\ forall j m', (j < i)%nat -> out !! j = Some m' ->
                  openModule m' = false)) as Hcur.
  { intros i m Hm. unfold out, getModulesWithProgress in Hm.
    rewrite (withProgressFrom_current _ _ _ _ _ _ Hm). tauto. }
  split; [by rewrite <- (length_map mp_id out), Hids, length_map|].
  split.
  { f_equal. apply withProgressFrom_completed. }
  split.
  - intros Hnone.
    rewrite (find_all_false isCurrent out); [done|].
    intros m Hm. apply list_elem_of_lookup_1 in Hm as Hi. destruct Hi as [i Hi].
    destruct (isCurrent m) eqn:Hc; [|done].
    apply (Hcur i m Hi) in Hc as [Hopen _]. rewrite (Hnone m Hm) in Hopen. done.
  - intros i m Hnd Hm Hopen Hbefore.
    assert (List.find isCurrent out = Some m) as ->.
    { apply (find_first_true isCurrent out i m Hm).
      - apply (Hcur i m Hm). done.
      - intros j y Hj Hy. destruct (isCurrent y) eqn:Hc; [|done].
        apply (Hcur j y Hy) in Hc as [Hopen' _].
        rewrite (Hbefore j y Hj Hy) in Hopen'. done. }
    split; [done|].
    assert (NoDup (map mp_id out)) as Hnd' by (by rewrite Hids).
    rewrite (proj2 (find_by_id out i m Hnd' Hm)).
    destruct (Z.ltb_spec (Z.of_nat i) (Z.of_nat (length out) - 1)) as [Hlt|Hge].
    + by rewrite Nat.add_1_r.
    + symmetry. apply lookup_ge_None_2. lia.
Qed.

Lemma getProgressSummary_current_next_witness :
  option_map mp_id (currentModule (getProgressSummary "u-1" batchedDB))
  = Some "m-vowels"
  /\ option_map mp_id (nextModule (getProgressSummary "u-1" batchedDB))
     = Some "m-k".
Proof.
  destruct (getProgressSummary_current_next "u-1" batchedDB)
    as (_ & _ & _ & H).
  destruct (H 0%nat (mkModuleWithProgress "m-vowels" "Vocales" 1
                       (map toQuizCharacter vowelRows) 0 true false true))
    as [-> ->].
  - apply sample_modules_NoDup. vm_compute. reflexivity.
  - vm_compute. reflexivity.
  - vm_compute. reflexivity.
  - intros j m' Hj. lia.
  - vm_compute. split; reflexivity.
Defined.

Lemma getModulesWithProgress_status_witness :
  exists p m,
    getModulesWithProgress "u-1" completedDB !! 0%nat = Some p
    /\ getModulesWithProgress "u-1" completedDB !! 1%nat = Some m
    /\ isUnlocked m = JS.geq (mp_progress p) 80.
Proof.
  eexists _, _. split; [vm_compute; reflexivity|]. split; [vm_compute; reflexivity|].
  apply (proj1 (proj2 (proj2 (getModulesWithProgress_status "u-1" completedDB)))
           0%nat); vm_compute; reflexivity.
Defined.

(** X16. [startQuiz] never reads the progress table: whatever the stored
    progress, it runs the same way, returns the same session or error and
    makes the same change to the store.  The lock a module shows in
    [getModulesWithProgress] is therefore enforced by the module page
    alone, not by the server function that starts the quiz. *)
Theorem startQuiz_ignores_progress (newId : string) (now : Z)
    (userId moduleId : string) (config : QuizConfig) (g : JS.RandomSource)
    (db : DB) (f : gmap (string * string) Q -> gmap (string * string) Q) :
  startQuiz newId now userId moduleId config g (set_userProgress f db)
  = (set_userProgress f (startQuiz newId now userId moduleId config g db).1,
     (startQuiz newId now userId moduleId config g db).2).
Proof.
  unfold startQuiz. srv.
  destruct (module db !! moduleId) as [m|]; [|done].
  destruct (length (moduleCharacters m) =? 0)%nat; [done|].
  change (statsMapOf userId (map ch_id (moduleCharacters m)) (set_userProgress f db))
    with (statsMapOf userId (map ch_id (moduleCharacters m)) db).
  destruct (selectAdaptiveCharacters _ _ g) as [[selected g1]|]; [|done].
  destruct (buildQuestions _ _ _ g1) as [qs g2].
  unfold createSession. simpl.
  destruct (quizSession db !! newId); [done|]. simpl.
  by destruct (shuffleArray qs g2).
Qed.

(** ** Statistics *)

Lemma insertSorted_Permutation {T} (before : T -> T -> bool) (x : T) (l : list T) :
  insertSorted before x l ≡ₚ x :: l.
Proof.
  induction l as [|y l IH]; simpl; [done|].
  destruct (before y x); [|done]. rewrite IH. apply Permutation_swap.
Qed.

Lemma Array_sort_Permutation {T} (before : T -> T -> bool) (l : list T) :
  Array_sort before l ≡ₚ l.
Proof.
  unfold Array_sort. induction l as [|x l IH]; simpl; [done|].
  by rewrite insertSorted_Permutation, IH.
Qed.

Section Sorting.
Context {T : Type} (before : T -> T -> bool) (le : T -> T -> Prop).
Hypothesis le_trans : forall a b c, le a b -> le b c -> le a c.
Hypothesis before_true : forall a b, before a b = true -> le a b.
Hypothesis before_false : forall a b, before a b = false -> le b a.

Lemma insertSorted_sorted (x : T) (l : list T) :
  StronglySorted le l -> StronglySorted le (insertSorted before x l).
Proof.
  induction 1 as [|y l Hsorted IH Hall]; simpl.
  - repeat constructor.
  - destruct (before y x) eqn:Hb.
    + constructor; [done|].
      rewrite insertSorted_Permutation. constructor; [by apply before_true|done].
    + apply before_false in Hb. constructor; [by constructor|].
      constructor; [done|]. eapply Forall_impl; [exact Hall|].
      intros z Hz. by eapply le_trans.
Qed.

Lemma Array_sort_sorted (l : list T) : StronglySorted le (Array_sort before l).
Proof.
  unfold Array_sort. induction l as [|x l IH]; simpl; [constructor|].
  by apply insertSorted_sorted.
Qed.

End Sorting.

Lemma Qltb_true (a b : Q) : Qltb a b = true <-> (a < b)%Q.
Proof.
  unfold Qltb. rewrite negb_true_iff. apply (geq_false a b).
Qed.

Lemma Qltb_false (a b : Q) : Qltb a b = false <-> (b <= a)%Q.
Proof.
  unfold Qltb. rewrite negb_false_iff. apply (geq_true a b).
Qed.

Lemma getModuleQuizStats_Returned userId moduleId db db' stats :
  getModuleQuizStats userId moduleId db = (db', Returned stats) ->
  exists m, module db !! moduleId = Some m /\ db' = db
    /\ characterStats stats
       = map (fun c => characterStatsOf (userCharacterStats db !! (userId, ch_id c)) c)
             (moduleCharacters m)
    /\ weakCharacters stats
       = Array_sort (fun a b => Qltb (cs_accuracy a) (cs_accuracy b))
           (List.filter (fun c => (0 <? cs_totalAttempts c)
                                  && Qltb (cs_accuracy c) WEAK_THRESHOLD)
                        (characterStats stats))
    /\ strongCharacters stats
       = Array_sort (fun a b => Qltb (cs_accuracy b) (cs_accuracy a))
           (List.filter (fun c => (3 <=? cs_totalAttempts c)
                                  && JS.geq (cs_accuracy c) STRONG_THRESHOLD)
                        (characterStats stats))
    /\ totalSessions stats
       = Z.of_nat (length (completedSessionsOf userId moduleId db))
    /\ averageScore stats
       = (let scores := map sessionPercentage (completedSessionsOf userId moduleId db) in
          if (0 <? length scores)%nat
          then (fold_left Qplus scores 0 / inject_Z (Z.of_nat (length scores)))%Q
          else 0%Q)
    /\ bestScore stats
       = match map sessionPercentage (completedSessionsOf userId moduleId db) with
         | first :: others => maxOf first others
         | [] => 0%Q
         end.
Proof.
  unfold getModuleQuizStats. srv.
  destruct (module db !! moduleId) as [m|]; [|done].
  intros [= <- <-]. exists m. simpl. repeat split; done.
Qed.

(** X17. The character lists of [getModuleQuizStats]: one [characterStats]
    entry per character of the module, in module order; [weakCharacters]
    holds exactly the entries attempted at least once with accuracy below
    0.6, listed by rising accuracy; [strongCharacters] exactly those
    attempted at least three times with accuracy of 0.85 or more, listed by
    falling accuracy.  No entry is in both lists, and a character never
    attempted is in neither.  For an unknown module the function throws
    "Module not found". *)
Theorem getModuleQuizStats_weak_strong (userId moduleId : string) (db : DB) :
  (module db !! moduleId = None ->
   getModuleQuizStats userId moduleId db = (db, Thrown "Module not found"))
  /\ (forall db' stats,
        getModuleQuizStats userId moduleId db = (db', Returned stats) ->
        db' = db
        /\ (exists m, module db !! moduleId = Some m
              /\ map cs_characterId (characterStats stats)
                 = map ch_id (moduleCharacters m))
        /\ (forall c, c ∈ weakCharacters stats <->
              c ∈ characterStats stats /\ 0 < cs_totalAttempts c
              /\ (cs_accuracy c < 0.6)%Q)
        /\ (forall c, c ∈ strongCharacters stats <->
              c ∈ characterStats stats /\ 3 <= cs_totalAttempts c
              /\ (0.85 <= cs_accuracy c)%Q)
        /\ StronglySorted (fun a b => (cs_accuracy a <= cs_accuracy b)%Q)
             (weakCharacters stats)
        /\ StronglySorted (fun a b => (cs_accuracy b <= cs_accuracy a)%Q)
             (strongCharacters stats)
        /\ (forall c, c ∈ weakCharacters stats -> c ∉ strongCharacters stats)
        /\ (forall c, c ∈ characterStats stats -> cs_totalAttempts c = 0 ->
              (c ∉ weakCharacters stats) /\ (c ∉ strongCharacters stats))).
Proof.
  split.
  { intros Hnone. unfold getModuleQuizStats. srv. by rewrite Hnone. }
  intros db' stats Hrun.
  apply getModuleQuizStats_Returned in Hrun
    as (m & Hmod & -> & Hcs & Hweak & Hstrong & _).
  assert (forall c, c ∈ weakCharacters stats <->
            c ∈ characterStats stats /\ 0 < cs_totalAttempts c
            /\ (cs_accuracy c < 0.6)%Q) as Hw.
  { intros c. rewrite Hweak, Array_sort_Permutation.
    rewrite list_elem_of_In, filter_In, <- list_elem_of_In.
    rewrite andb_true_iff, Z.ltb_lt, Qltb_true. done. }
  assert (forall c, c ∈ strongCharacters stats <->
            c ∈ characterStats stats /\ 3 <= cs_totalAttempts c
            /\ (0.85 <= cs_accuracy c)%Q) as Hs.
  { intros c. rewrite Hstrong, Array_sort_Permutation.
    rewrite list_elem_of_In, filter_In, <- list_elem_of_In.
    rewrite andb_true_iff, Z.leb_le, geq_true. done. }
  split; [done|]. split.
  { exists m. split; [done|]. rewrite Hcs, map_map. done. }
  split; [exact Hw|]. split; [exact Hs|]. split.
  { rewrite Hweak. apply Array_sort_sorted.
    - intros a b c ? ?. lra.
    - intros a b Hb. apply Qltb_true in Hb. lra.
    - intros a b Hb. by apply Qltb_false in Hb. }
  split.
  { rewrite Hstrong. apply Array_sort_sorted.
    - intros a b c ? ?. lra.
    - intros a b Hb. apply Qltb_true in Hb. lra.
    - intros a b Hb. by apply Qltb_false in Hb. }
  split.
  - intros c Hcw Hcs'. apply Hw in Hcw as (_ & _ & Hlt).
    apply Hs in Hcs' as (_ & _ & Hge). lra.
  - intros c Hc Hzero. split.
    + intros Hcw. apply Hw in Hcw as (_ & Hpos & _). lia.
    + intros Hcs'. apply Hs in Hcs' as (_ & Hpos & _). lia.
Qed.

Lemma getModuleQuizStats_weak_strong_witness :
  exists stats,
    getModuleQuizStats "u-1" "m-vowels" practisedDB = (practisedDB, Returned stats)
    /\ map cs_characterId (weakCharacters stats) = ["c-i"]
    /\ map cs_characterId (strongCharacters stats) = ["c-a"].
Proof.
  destruct (getModuleQuizStats "u-1" "m-vowels" practisedDB) as [db' [stats|e]] eqn:Hrun.
  - destruct (proj2 (getModuleQuizStats_weak_strong "u-1" "m-vowels" practisedDB)
                db' stats Hrun) as [Hdb _].
    rewrite Hdb in Hrun. exists stats. rewrite Hdb. split; [reflexivity|].
    vm_compute in Hrun. injection Hrun as <-. split; reflexivity.
  - vm_compute in Hrun. discriminate Hrun.
Defined.

Lemma completedSessionsOf_elem userId moduleId db s :
  s ∈ completedSessionsOf userId moduleId db
  <-> exists sid, quizSession db !! sid = Some s /\ completedFor userId moduleId s.
Proof.
  unfold completedSessionsOf. rewrite Array_sort_Permutation, list_elem_of_fmap.
  split.
  - intros ([sid s'] & -> & Hin). apply list_elem_of_filter in Hin as [Hc Hin].
    apply elem_of_map_to_list in Hin. by exists sid.
  - intros (sid & Hlook & Hc). exists (sid, s). split; [done|].
    apply list_elem_of_filter. split; [done|]. by apply elem_of_map_to_list.
Qed.

Lemma completedSessionsOf_length userId moduleId db :
  Z.of_nat (length (completedSessionsOf userId moduleId db))
  = countCompletedSessions userId moduleId db.
Proof.
  unfold completedSessionsOf, countCompletedSessions.
  by rewrite Array_sort_Permutation, length_map.
Qed.

Lemma completedSessionsOf_sorted userId moduleId db :
  StronglySorted
    (fun a b => default 0 (qs_completedAt b) <= default 0 (qs_completedAt a))
    (completedSessionsOf userId moduleId db).
Proof.
  apply Array_sort_sorted.
  - intros a b c ? ?. lia.
  - intros a b Hb. apply Z.ltb_lt in Hb. lia.
  - intros a b Hb. by apply Z.ltb_ge in Hb.
Qed.

Lemma maxOf_spec (first : Q) (others : list Q) :
  (maxOf first others = first \/ maxOf first others ∈ others)
  /\ (first <= maxOf first others)%Q
  /\ (forall x, x ∈ others -> (x <= maxOf first others)%Q).
Proof.
  unfold maxOf. revert first.
  induction others as [|y rest IH]; intros first; simpl.
  - split; [by left|]. split; [lra|]. intros x Hx. by apply elem_of_nil in Hx.
  - destruct (IH (JS.Math_max first y)) as (Hin & Hle & Hall).
    destruct (Math_max_cases first y) as [[Hfy Hm]|[Hyf Hm]]; rewrite Hm in *.
    + split.
      { destruct Hin as [->|Hin]; right; [by left|by right]. }
      split; [lra|]. intros x Hx. apply elem_of_cons in Hx as [->|Hx]; [done|].
      by apply Hall.
    + split.
      { destruct Hin as [->|Hin]; [by left|right; by right]. }
      split; [done|]. intros x Hx. apply elem_of_cons in Hx as [->|Hx]; [lra|].
      by apply Hall.
Qed.

(** X18. The session figures of [getModuleQuizStats], for sessions of at
    least one item: [totalSessions] is the number of completed sessions of
    the user in the module, the count [completeQuiz] uses; without any,
    [averageScore] and [bestScore] are 0; otherwise [bestScore] is the
    percentage of one of these sessions and none of them has a higher
    one. *)
Theorem getModuleQuizStats_scores (userId moduleId : string) (db db' : DB)
    (stats : ModuleQuizStats) :
  getModuleQuizStats userId moduleId db = (db', Returned stats) ->
  (forall sid s, quizSession db !! sid = Some s -> 0 < qs_totalItems s) ->
  totalSessions stats = countCompletedSessions userId moduleId db
  /\ (totalSessions stats = 0 -> averageScore stats = 0%Q /\ bestScore stats = 0%Q)
  /\ (0 < totalSessions stats ->
      (exists sid s, quizSession db !! sid = Some s
         /\ completedFor userId moduleId s
         /\ bestScore stats = sessionPercentage s)
      /\ (forall sid s, quizSession db !! sid = Some s ->
            completedFor userId moduleId s ->
            (sessionPercentage s <= bestScore stats)%Q)).
Proof.
  intros Hrun _.
  apply getModuleQuizStats_Returned in Hrun
    as (m & _ & _ & _ & _ & _ & Htotal & Havg & Hbest).
  pose proof (completedSessionsOf_elem userId moduleId db) as Helem.
  rewrite <- completedSessionsOf_length.
  destruct (completedSessionsOf userId moduleId db) as [|s0 rest].
  { simpl in *. split; [done|]. split; [done|]. rewrite Htotal. simpl. lia. }
  split; [done|]. split; [rewrite Htotal; simpl; lia|]. intros _.
  simpl in Hbest.
  pose proof (maxOf_spec (sessionPercentage s0) (map sessionPercentage rest))
    as (Hin & Hfirst & Hall). rewrite <- Hbest in *.
  assert (forall s, s ∈ s0 :: rest -> (sessionPercentage s <= bestScore stats)%Q)
    as Hle.
  { intros s Hs. apply elem_of_cons in Hs as [->|Hs]; [done|].
    apply Hall. by apply list_elem_of_fmap_2. }
  split.
  - destruct Hin as [Hin|Hin].
    + destruct (proj1 (Helem s0) ltac:(by left)) as (sid & Hlook & Hc).
      by exists sid, s0.
    + apply list_elem_of_fmap in Hin as (s & Hs & Hin).
      destruct (proj1 (Helem s) ltac:(by right)) as (sid & Hlook & Hc).
      by exists sid, s.
  - intros sid s Hlook Hc. apply Hle. apply Helem. by exists sid.
Qed.

Lemma getModuleQuizStats_scores_witness :
  exists stats sid s,
    getModuleQuizStats "u-1" "m-vowels" twiceCompletedDB
    = (twiceCompletedDB, Returned stats)
    /\ totalSessions stats = 2
    /\ quizSession twiceCompletedDB !! sid = Some s
    /\ bestScore stats = sessionPercentage s
    /\ (sessionPercentage s == 84)%Q.
Proof.
  destruct (getModuleQuizStats "u-1" "m-vowels" twiceCompletedDB)
    as [db' [stats|e]] eqn:Hrun.
  2:{ exfalso. vm_compute in Hrun. discriminate Hrun. }
  destruct (getModuleQuizStats_scores "u-1" "m-vowels" twiceCompletedDB db' stats Hrun)
    as (Htotal & _ & Hbest).
  { intros sid s Hlook.
    assert (Forall (fun kv => 0 < qs_totalItems kv.2)
                   (map_to_list (quizSession twiceCompletedDB))) as Hall.
    { vm_compute. repeat (constructor; [reflexivity|]). constructor. }
    apply elem_of_map_to_list in Hlook.
    exact (proj1 (Forall_forall _ _) Hall (sid, s) Hlook). }
  assert (totalSessions stats = 2) as Htwo
    by (rewrite Htotal; vm_compute; reflexivity).
  destruct (proj1 (Hbest ltac:(lia))) as (sid & s & Hlook & _ & Hs).
  destruct (getModuleQuizStats_Returned _ _ _ _ _ Hrun) as (_ & _ & Hdb & _).
  subst db'. exists stats, sid, s.
  split; [reflexivity|]. split; [exact Htwo|]. split; [exact Hlook|].
  split; [exact Hs|].
  rewrite <- Hs. vm_compute in Hrun. injection Hrun as <-.
  vm_compute. reflexivity.
Defined.

(** X19. [getQuizHistory] lists the user's completed sessions of the
    module, latest completion first, and keeps the first [limit] of them:
    its length is the smaller of [limit] and the number of completed
    sessions, every entry reports the score, item count and completion
    time of a completed session of that user and module, and a completed
    session that is left out was not completed later than any session
    listed. *)
Theorem getQuizHistory_latest (userId moduleId : string) (limit : nat) (db : DB) :
  let history := getQuizHistory userId moduleId limit db in
  length history
  = Nat.min limit (Z.to_nat (countCompletedSessions userId moduleId db))
  /\ StronglySorted (fun a b => he_completedAt b <= he_completedAt a) history
  /\ (forall e, e ∈ history ->
        exists sid s, quizSession db !! sid = Some s
          /\ completedFor userId moduleId s
          /\ he_sessionId e = qs_id s /\ he_score e = qs_score s
          /\ he_totalItems e = qs_totalItems s
          /\ qs_completedAt s = Some (he_completedAt e))
  /\ (forall sid s e, quizSession db !! sid = Some s ->
        completedFor userId moduleId s -> e ∈ history ->
        he_completedAt e < default 0 (qs_completedAt s) ->
        exists e', e' ∈ history /\ he_sessionId e' = qs_id s
                   /\ he_completedAt e' = default 0 (qs_completedAt s)).
Proof.
  cbv zeta. unfold getQuizHistory.
  pose proof (completedSessionsOf_sorted userId moduleId db) as Hsorted.
  pose proof (completedSessionsOf_elem userId moduleId db) as Helem.
  rewrite <- completedSessionsOf_length, Nat2Z.id.
  set (sessions := completedSessionsOf userId moduleId db) in *.
  rewrite <- (take_drop limit sessions) in Hsorted.
  split; [by rewrite length_map, length_take|]. split.
  { apply StronglySorted_app_1_l in Hsorted.
    induction Hsorted as [|s l Hs IH Hall]; simpl; constructor; [done|].
    apply Forall_fmap. eapply Forall_impl; [exact Hall|]. done. }
  split.
  - intros e He. apply list_elem_of_fmap in He as (s & -> & Hs).
    assert (s ∈ sessions) as Hin
      by (eapply elem_of_sublist; [exact Hs|apply sublist_take]).
    apply Helem in Hin as (sid & Hlook & Hc). exists sid, s. simpl.
    repeat split; try done; try apply Hc.
    destruct Hc as (_ & _ & Hc). by destruct (qs_completedAt s).
  - intros sid s e Hlook Hc He Hlater.
    apply list_elem_of_fmap in He as (s1 & -> & Hs1). simpl in Hlater.
    assert (s ∈ take limit sessions ++ drop limit sessions) as Hin
      by (rewrite take_drop; apply Helem; by exists sid).
    apply elem_of_app in Hin as [Hin|Hin].
    + eexists. split; [apply list_elem_of_fmap_2; exact Hin|]. done.
    + pose proof (StronglySorted_app_1_elem_of _ _ _ _ _ Hsorted Hs1 Hin) as Hle.
      simpl in Hle. lia.
Qed.

Lemma getQuizHistory_latest_witness :
  exists sid s,
    quizSession completedDB !! sid = Some s
    /\ completedFor "u-1" "m-vowels" s /\ qs_score s = 5.
Proof.
  destruct (proj1 (proj2 (proj2
              (getQuizHistory_latest "u-1" "m-vowels" 10 completedDB)))
              {| he_sessionId := "s-1"; he_score := 5; he_totalItems := 5;
                 he_percentage := inject_Z 5 / inject_Z 5 * 100;
                 he_completedAt := 9; he_timeSpentMs := 9 |})
    as (sid & s & Hlook & Hc & _ & Hscore & _).
  { vm_compute. left. }
  exists sid, s. split; [exact Hlook|]. split; [exact Hc|].
  exact (eq_sym Hscore).
Defined.

(** ** The answer queue's storage *)

Lemma List_filter_filter {A} (f g : A -> bool) (l : list A) :
  List.filter f (List.filter g l) = List.filter (fun a => g a && f a) l.
Proof.
  induction l as [|x l IH]; simpl; [done|].
  destruct (g x); simpl; [|done]. destruct (f x); by rewrite IH.
Qed.

(** X20. What the storage functions keep.  When [localStorage] accepts
    writes, [saveToStorage] replaces the whole entry: a later
    [loadFromStorage] returns exactly the saved answers that were not
    synced and are less than 24 hours old, whatever was stored before (the
    answers of other sessions included); and after
    [clearSessionFromStorage] it returns what it returned before without
    the answers of that session.  When [setItem] throws, both leave the
    storage as it was. *)
Theorem storage_round_trip (now : Z) (sessionId : string)
    (answers : list PendingAnswer) (st : LocalStorage) :
  (ls_full st = false ->
   loadFromStorage now (saveToStorage answers st)
   = List.filter (fun a => negb (bool_decide (status a = synced)) && recent now a)
                 answers
   /\ loadFromStorage now (clearSessionFromStorage sessionId now st)
      = List.filter (fun a => negb (bool_decide (pa_sessionId a = sessionId)))
                    (loadFromStorage now st)
   /\ (forall a, a ∈ loadFromStorage now (clearSessionFromStorage sessionId now st) ->
         pa_sessionId a <> sessionId))
  /\ (ls_full st = true ->
      saveToStorage answers st = st /\ clearSessionFromStorage sessionId now st = st).
Proof.
  split; intros Hfull.
  - assert (loadFromStorage now (clearSessionFromStorage sessionId now st)
            = List.filter (fun a => negb (bool_decide (pa_sessionId a = sessionId)))
                          (loadFromStorage now st)) as Hclear.
    { unfold clearSessionFromStorage, setItem. rewrite Hfull.
      unfold loadFromStorage at 1. simpl.
      rewrite List_filter_filter.
      unfold loadFromStorage. destruct (ls_item st) as [stored|]; [|done].
      rewrite !List_filter_filter. apply filter_ext. intros a.
      fold (recent now a). by destruct (recent now a), (negb _). }
    split; [|split; [exact Hclear|]].
    + unfold saveToStorage, setItem, loadFromStorage. rewrite Hfull. simpl.
      by rewrite List_filter_filter.
    + intros a Ha. rewrite Hclear in Ha.
      apply list_elem_of_In, filter_In in Ha as [_ Ha].
      apply negb_true_iff, bool_decide_eq_false in Ha. done.
  - unfold clearSessionFromStorage, saveToStorage, setItem. by rewrite Hfull.
Qed.

Lemma storage_round_trip_witness :
  loadFromStorage 100
    (saveToStorage (answersRef oneQueued)
       {| ls_item := Some (answersRef (hk_queue twoQueued)); ls_full := false |})
  = answersRef oneQueued.
Proof.
  rewrite (proj1 (proj1 (storage_round_trip 100 "s-1" (answersRef oneQueued)
                           {| ls_item := Some (answersRef (hk_queue twoQueued));
                              ls_full := false |}) eq_refl)).
  vm_compute. reflexivity.
Defined.

(** X21. Mounting the hook.  The effect that saves the (still empty)
    answers runs before the effect that loads the stored ones, so when
    [localStorage] accepts writes the stored entry is overwritten with the
    empty list and nothing is restored: the hook starts with no answers and
    score 0, whatever was stored.  Only when [setItem] throws does the hook
    restore the stored answers of its session that are less than 24 hours
    old, with the score set to the number of them flagged correct. *)
Theorem mountHook_restores (sessionId : string) (now : Z) (st : LocalStorage) :
  (ls_full st = false ->
   mountHook sessionId now st
   = ({| hs_answers := []; hs_localScore := 0 |},
      {| ls_item := Some []; ls_full := false |}))
  /\ (ls_full st = true ->
      let restored :=
        List.filter (fun a => bool_decide (pa_sessionId a = sessionId))
                    (loadFromStorage now st) in
      mountHook sessionId now st
      = ({| hs_answers := restored;
            hs_localScore := Z.of_nat (length (List.filter pa_isCorrect restored)) |},
         st)).
Proof.
  split; intros Hfull.
  - unfold mountHook, saveToStorage, setItem. rewrite Hfull. simpl. done.
  - cbv zeta. unfold mountHook, saveToStorage, setItem. rewrite Hfull. simpl.
    rewrite Hfull.
    destruct (List.filter _ (loadFromStorage now st)) as [|a rest]; simpl; done.
Qed.

Lemma mountHook_restores_witness :
  hs_answers (mountHook "s-1" 100
                {| ls_item := Some (answersRef oneQueued); ls_full := false |}).1
  = []
  /\ hs_answers (mountHook "s-1" 100
                   {| ls_item := Some (answersRef oneQueued); ls_full := true |}).1
     = answersRef oneQueued.
Proof.
  split.
  - by rewrite (proj1 (mountHook_restores "s-1" 100
                         {| ls_item := Some (answersRef oneQueued);
                            ls_full := false |}) eq_refl).
  - rewrite (proj2 (mountHook_restores "s-1" 100
                      {| ls_item := Some (answersRef oneQueued);
                         ls_full := true |}) eq_refl).
    vm_compute. reflexivity.
Defined.

(** ** The sync indicator *)

Lemma filter_count_pos {A} (f : A -> bool) (l : list A) :
  0 < Z.of_nat (length (List.filter f l)) <-> exists a, a ∈ l /\ f a = true.
Proof.
  split.
  - destruct (List.filter f l) as [|a rest] eqn:Hf; simpl; [lia|]. intros _.
    assert (In a (List.filter f l)) as Hin by (rewrite Hf; by left).
    apply filter_In in Hin as [Hin Ha]. exists a. split; [|done].
    by apply list_elem_of_In.
  - intros (a & Hin & Ha).
    assert (In a (List.filter f l)) as Hf
      by (apply filter_In; split; [by apply list_elem_of_In|done]).
    destruct (List.filter f l); [done|]. simpl. lia.
Qed.

(** X22. What [QuizSyncStatus] shows for the state [getQueueState]
    reports.  It shows "saving" exactly when some answer is pending or
    syncing; otherwise "n unsaved" exactly when n > 0 answers are failed
    with their retries used up; otherwise nothing.  So it shows nothing
    exactly when [checkSync] would resolve with [true]: every answer is
    synced or failed with retries left, and the failed ones are not
    shown. *)
Theorem QuizSyncStatus_shows (current : list PendingAnswer) (elapsed : Z) :
  let shown := QuizSyncStatus (getQueueState current) in
  (shown = Saving <->
   exists a, a ∈ current /\ (status a = pending \/ status a = syncing))
  /\ (forall n, shown = Unsaved n <->
        (forall a, a ∈ current -> status a <> pending /\ status a <> syncing)
        /\ 0 < n
        /\ n = Z.of_nat (length (List.filter
                 (fun a => bool_decide (status a = failed)
                           && (MAX_RETRIES <=? retryCount a)) current)))
  /\ (shown = Hidden <->
      forall a, a ∈ current ->
        status a = synced \/ (status a = failed /\ retryCount a < MAX_RETRIES))
  /\ (shown = Hidden <-> checkSync current elapsed = Some true).
Proof.
  intros shown.
  set (isPending := fun a : PendingAnswer => bool_decide (status a = pending)).
  set (isSyncing := fun a : PendingAnswer => bool_decide (status a = syncing)).
  set (isTerminal := fun a : PendingAnswer =>
                       bool_decide (status a = failed) && (MAX_RETRIES <=? retryCount a)).
  pose proof (filter_count_pos isPending current) as Hp.
  pose proof (filter_count_pos isSyncing current) as Hs.
  pose proof (filter_count_pos isTerminal current) as Hf.
  set (p := Z.of_nat (length (List.filter isPending current))) in *.
  set (s := Z.of_nat (length (List.filter isSyncing current))) in *.
  set (f := Z.of_nat (length (List.filter isTerminal current))) in *.
  assert ((exists a, a ∈ current /\ (status a = pending \/ status a = syncing))
          <-> 0 < p \/ 0 < s) as Hbusy.
  { rewrite Hp, Hs. unfold isPending, isSyncing. split.
    - intros (a & Hin & [H|H]); [left|right]; exists a;
        (split; [done|by apply bool_decide_eq_true]).
    - intros [(a & Hin & H)|(a & Hin & H)]; exists a;
        apply bool_decide_eq_true in H; auto. }
  assert ((forall a, a ∈ current -> status a <> pending /\ status a <> syncing)
          <-> ~ exists a, a ∈ current /\ (status a = pending \/ status a = syncing))
    as Hidle.
  { split.
    - intros Hall (a & Ha & [H|H]); destruct (Hall a Ha) as [H1 H2]; tauto.
    - intros Hn a Ha. split; intros H; apply Hn; exists a; tauto. }
  assert ((forall a, a ∈ current ->
             status a = synced \/ (status a = failed /\ retryCount a < MAX_RETRIES))
          <-> (forall a, a ∈ current -> status a <> pending /\ status a <> syncing)
              /\ ~ 0 < f) as Hquiet.
  { rewrite Hf. unfold isTerminal. split.
    - intros Hall. split.
      + intros a Ha. destruct (Hall a Ha) as [H|[H _]]; rewrite H; done.
      + intros (a & Ha & Ht). apply andb_true_iff in Ht as [Hst Hr].
        apply bool_decide_eq_true in Hst. apply Z.leb_le in Hr.
        destruct (Hall a Ha) as [H|[_ H]]; [congruence|lia].
    - intros [Hidle' Hnone] a Ha. destruct (Hidle' a Ha) as [H1 H2].
      destruct (status a) eqn:Hst; try done; [by left|]. right. split; [done|].
      destruct (Z.ltb_spec (retryCount a) MAX_RETRIES) as [|Hge]; [done|].
      exfalso. apply Hnone. exists a. split; [done|].
      rewrite Hst. simpl. by apply Z.leb_le. }
  assert (0 <= p /\ 0 <= s /\ 0 <= f) as (Hp0 & Hs0 & Hf0) by (unfold p, s, f; lia).
  assert ((0 < p \/ 0 < s) /\ shown = Saving
          \/ (p = 0 /\ s = 0 /\ 0 < f /\ shown = Unsaved f)
          \/ (p = 0 /\ s = 0 /\ f = 0 /\ shown = Hidden)) as Hshape.
  { unfold shown, QuizSyncStatus, getQueueState. simpl.
    fold isPending isSyncing isTerminal. fold p s f.
    destruct (Z.eqb_spec p 0) as [Hp1|Hp1]; simpl.
    - destruct (Z.eqb_spec s 0) as [Hs1|Hs1]; simpl.
      + destruct (Z.eqb_spec f 0) as [Hf1|Hf1]; simpl.
        * right. right. done.
        * rewrite Hp1, Hs1. simpl.
          destruct (Z.ltb_spec 0 f); [|lia]. right. left. done.
      + rewrite Hp1. simpl. destruct (Z.ltb_spec 0 s); [|lia].
        left. split; [by right|done].
    - destruct (Z.ltb_spec 0 p); [|lia]. simpl. left. split; [by left|done]. }
  assert ((forall a, a ∈ current -> status a <> pending /\ status a <> syncing)
          <-> p = 0 /\ s = 0) as Hidle2.
  { split.
    - intros Hi. apply (proj1 Hidle) in Hi.
      assert (~ (0 < p \/ 0 < s)) by (intros Hb; apply Hi, Hbusy, Hb). lia.
    - intros [? ?]. apply Hidle. intros Hb. apply Hbusy in Hb. lia. }
  assert ((forall a, a ∈ current ->
             status a = synced \/ (status a = failed /\ retryCount a < MAX_RETRIES))
          <-> p = 0 /\ s = 0 /\ f = 0) as Hquiet2.
  { split.
    - intros H. apply Hquiet in H as [Hi Hn]. apply Hidle2 in Hi. lia.
    - intros (? & ? & ?). apply Hquiet. split; [apply Hidle2; lia|lia]. }
  clear Hp Hs Hf Hidle Hquiet.
  split; [|split; [intros n|split]].
  - split.
    + intros He. apply Hbusy.
      destruct Hshape as [[Hb _]|[(_ & _ & _ & He')|(_ & _ & _ & He')]];
        [done|congruence|congruence].
    + intros Hb. apply Hbusy in Hb.
      destruct Hshape as [[_ He]|[(? & ? & _)|(? & ? & _)]]; [done|lia|lia].
  - split.
    + intros He.
      destruct Hshape as [[_ He']|[(? & ? & ? & He')|(_ & _ & _ & He')]];
        rewrite He' in He; try discriminate.
      injection He as <-. split; [apply Hidle2; lia|]. split; [lia|done].
    + intros (Hi & Hn & ->). apply Hidle2 in Hi.
      destruct Hshape as [[Hb _]|[(_ & _ & _ & He')|(_ & _ & ? & _)]];
        [lia|done|lia].
  - split.
    + intros He. apply Hquiet2.
      destruct Hshape as [[_ He']|[(_ & _ & _ & He')|(? & ? & ? & _)]];
        [congruence|congruence|lia].
    + intros Hq. apply Hquiet2 in Hq.
      destruct Hshape as [[Hb _]|[(_ & _ & ? & _)|(_ & _ & _ & He')]];
        [lia|lia|done].
  - split.
    + intros He. apply checkSync_true, Hquiet2.
      destruct Hshape as [[_ He']|[(_ & _ & _ & He')|(? & ? & ? & _)]];
        [congruence|congruence|lia].
    + intros Hc. pose proof (proj1 (checkSync_true current elapsed) Hc) as Hq.
      apply Hquiet2 in Hq. clear Hc.
      destruct Hshape as [[Hb _]|[(_ & _ & ? & _)|(_ & _ & _ & He')]];
        [lia|lia|done].
Qed.

Lemma QuizSyncStatus_shows_witness :
  checkSync (answersRef (processQueue unreachable oneQueued).1) 100 = Some true.
Proof.
  apply (proj1 (proj2 (proj2 (proj2
           (QuizSyncStatus_shows (answersRef (processQueue unreachable oneQueued).1)
              100))))).
  vm_compute. reflexivity.
Defined.

(** ** Playing a quiz through *)

Lemma batchScore_cons (a : BatchAnswer) (l : list BatchAnswer) :
  batchScore (a :: l) = (if ba_isCorrect a then 1 else 0) + batchScore l.
Proof.
  unfold batchScore. rewrite filter_cons.
  destruct (ba_isCorrect a).
  - rewrite decide_True by done. rewrite length_cons. lia.
  - rewrite decide_False by done. lia.
Qed.

Lemma batchScore_app (l1 l2 : list BatchAnswer) :
  batchScore (l1 ++ l2) = batchScore l1 + batchScore l2.
Proof.
  unfold batchScore. rewrite filter_app, length_app. lia.
Qed.

Lemma playThrough_not_playing (answers : list (string * Z)) (c : Container) :
  ct_state c <> playing -> playThrough answers c = c.
Proof.
  intros Hst. unfold playThrough.
  induction answers as [|a rest IH]; [done|]. simpl.
  assert (answerQuestion c a = c) as ->; [|exact IH].
  unfold answerQuestion. by destruct (ct_state c).
Qed.

Lemma playThrough_from (answers : list (string * Z)) (c : Container) :
  ct_state c = playing ->
  (length answers + currentIndex c <= length (questions (ct_session c)))%nat ->
  let c' := playThrough answers c in
  ct_session c' = ct_session c
  /\ ct_answersRef c'
     = ct_answersRef c
       ++ zip_with localAnswer (drop (currentIndex c) (questions (ct_session c))) answers
  /\ ct_localScore c'
     = ct_localScore c
       + batchScore (zip_with localAnswer
                       (drop (currentIndex c) (questions (ct_session c))) answers)
  /\ (answers <> [] ->
      (length answers + currentIndex c)%nat = length (questions (ct_session c)) ->
      ct_state c' = completing)
  /\ ((length answers + currentIndex c < length (questions (ct_session c)))%nat ->
      ct_state c' = playing
      /\ currentIndex c' = (currentIndex c + length answers)%nat).
Proof.
  revert c. induction answers as [|a rest IH]; intros c Hst Hlen; cbv zeta.
  - simpl. rewrite zip_with_nil_r, app_nil_r. change (batchScore []) with 0.
    repeat split; try done; try lia.
  - simpl in Hlen.
    destruct (lookup_lt_is_Some_2 (questions (ct_session c)) (currentIndex c)
                ltac:(lia)) as [q Hq].
    change (playThrough (a :: rest) c) with (playThrough rest (answerQuestion c a)).
    rewrite (drop_S _ _ _ Hq). cbn [zip_with].
    rewrite batchScore_cons.
    set (c1 := answerQuestion c a).
    assert (ct_session c1 = ct_session c
            /\ ct_answersRef c1 = ct_answersRef c ++ [localAnswer q a]
            /\ ct_localScore c1
               = ct_localScore c + (if ba_isCorrect (localAnswer q a) then 1 else 0)
            /\ (isLastQuestion c = true -> ct_state c1 = completing)
            /\ (isLastQuestion c = false ->
                ct_state c1 = playing /\ currentIndex c1 = S (currentIndex c)))
      as (Hs1 & Ha1 & Hsc1 & Hlast & Hnext).
    { unfold c1, answerQuestion, handleAnswer. rewrite Hst, Hq.
      unfold feedbackTimer, localAnswer, sameReading. simpl.
      destruct (isLastQuestion c); simpl;
        (split; [done|]; split; [done|]; split;
         [by destruct (JS.strictEq _ _); simpl; lia|];
         split; intros Hx; try discriminate; try done; try (split; [done|lia])). }
    unfold isLastQuestion in Hlast, Hnext.
    destruct (Z.eqb_spec (Z.of_nat (currentIndex c))
                (Z.of_nat (length (questions (ct_session c))) - 1)) as [Heq|Hne].
    + assert (rest = []) as -> by (apply nil_length_inv; lia).
      specialize (Hlast eq_refl).
      rewrite playThrough_not_playing by (rewrite Hlast; done).
      rewrite zip_with_nil_r. change (batchScore []) with 0.
      split; [done|]. split; [done|]. split; [lia|]. split; [done|]. simpl. lia.
    + destruct (Hnext eq_refl) as [Hp1 Hi1].
      destruct (IH c1 Hp1 ltac:(rewrite Hs1, Hi1; lia)) as (Hs & Ha & Hsc & Hc & Hp).
      rewrite Hs1, Hi1, Ha1, Hsc1 in *.
      split; [done|]. split; [by rewrite Ha, <- app_assoc|]. split; [lia|]. split.
      * intros _ Hfull.
        assert (rest <> []) as Hrest
          by (intros ->; simpl in Hfull; lia).
        apply (Hc Hrest). simpl in Hfull. lia.
      * intros Hlt. destruct (Hp ltac:(simpl in Hlt; lia)) as [-> ->].
        split; [done|]. simpl. lia.
Qed.

(** X23. Playing a quiz through in the container.  With one answer given
    to each of the session's questions in turn, the container ends in
    state [completing] holding exactly one local answer per question, in
    question order: the question's character, the text given, and the
    flag of the case-insensitive comparison with the question's
    [correctAnswer].  Its local score is the number of these flagged
    correct, so it lies between 0 and the number of questions; answers
    given after that are ignored. *)
Theorem playThrough_all (session : QuizSession) (answers : list (string * Z)) :
  length answers = length (questions session) ->
  (0 < length (questions session))%nat ->
  let c := playThrough answers (initialContainer session) in
  ct_state c = completing
  /\ ct_session c = session
  /\ ct_answersRef c = zip_with localAnswer (questions session) answers
  /\ length (ct_answersRef c) = length (questions session)
  /\ ct_localScore c = batchScore (ct_answersRef c)
  /\ 0 <= ct_localScore c <= Z.of_nat (length (questions session))
  /\ (forall more, playThrough more c = c).
Proof.
  intros Hlen Hpos c.
  destruct (playThrough_from answers (initialContainer session) eq_refl
              ltac:(simpl; lia)) as (Hs & Ha & Hsc & Hc & _).
  simpl in Hs, Ha, Hsc, Hc. fold c in Hs, Ha, Hsc, Hc.
  rewrite drop_0 in Ha, Hsc.
  assert (ct_state c = completing) as Hst.
  { apply Hc; [|lia]. intros ->. simpl in Hlen. lia. }
  assert (length (ct_answersRef c) = length (questions session)) as Hl.
  { rewrite Ha, length_zip_with. lia. }
  pose proof (batchScore_bounds (ct_answersRef c)) as Hb.
  split; [done|]. split; [done|]. split; [done|]. split; [done|].
  rewrite Hsc, <- Ha at 1. rewrite Z.add_0_l.
  split; [done|]. split; [rewrite Hsc, <- Ha, Z.add_0_l; lia|].
  intros more. apply playThrough_not_playing. by rewrite Hst.
Qed.

Lemma playThrough_all_witness :
  ct_state
    (playThrough (map (fun c => (ch_reading c, 800)) vowelRows)
       (initialContainer
          {| session_id := "s-1"; session_moduleId := "m-vowels";
             session_moduleName := "Vocales";
             questions :=
               (buildQuestions (map toQuizCharacter vowelRows)
                  (map ch_reading vowelRows) 4 cyclicDraws).1;
             session_totalItems := 5; session_startedAt := 0 |}))
  = completing.
Proof.
  apply playThrough_all.
  - vm_compute. reflexivity.
  - vm_compute. lia.
Defined.

(** ** An honest quiz from start to completion *)

Lemma step_answers_owned db db' : answers_owned db -> step db db' -> answers_owned db'.
Proof.
  intros Hinv Hstep a.
  destruct Hstep as [? ? ? ? ? ? ? H|? ? ? ? ? ? ? H|? ? ? ? ? H|? ? ? ? ? H|? ? ? H].
  - apply startQuiz_Returned in H as (t & _ & Hs & _ & Ha & _).
    rewrite Ha, Hs. intros Hin. specialize (Hinv a Hin).
    destruct (decide (newId = qa_sessionId a)) as [->|Hne].
    + rewrite lookup_insert_eq. by eexists.
    + by rewrite lookup_insert_ne.
  - apply submitAnswer_Returned in H
      as (s & ch & Hact & _ & _ & _ & _ & Ha & Hs & _).
    apply findActiveSession_lookup in Hact as (Hlook & _).
    assert (forall sid, is_Some (quizSession db !! sid) ->
                        is_Some (quizSession db' !! sid)) as Hmono.
    { intros sid Hsome. rewrite Hs. destruct (sameReading _ _); [|done].
      destruct (decide (sessionId = sid)) as [->|Hne].
      - rewrite lookup_insert_eq. by eexists.
      - by rewrite lookup_insert_ne. }
    rewrite Ha. intros Hin. apply elem_of_app in Hin as [Hin|Hin].
    + apply Hmono. by apply Hinv.
    + apply list_elem_of_singleton in Hin as ->. simpl. apply Hmono.
      rewrite Hlook. by eexists.
  - apply submitAnswersBatch_Returned in H
      as (s & Hact & _ & _ & _ & Ha & Hs & _).
    apply findActiveSession_lookup in Hact as (Hlook & _).
    assert (forall sid, is_Some (quizSession db !! sid) ->
                        is_Some (quizSession db' !! sid)) as Hmono.
    { intros sid Hsome. rewrite Hs.
      destruct (decide (sessionId = sid)) as [->|Hne].
      - rewrite lookup_insert_eq. by eexists.
      - by rewrite lookup_insert_ne. }
    rewrite Ha. intros Hin. apply elem_of_app in Hin as [Hin|Hin].
    + apply Hmono. by apply Hinv.
    + apply list_elem_of_fmap in Hin as (b & -> & _). simpl. apply Hmono.
      rewrite Hlook. by eexists.
  - apply completeQuiz_Returned in H
      as (s & Hfind & _ & Hs & _ & _ & _ & _ & _ & _ & Ha & _).
    rewrite Ha, Hs. intros Hin. specialize (Hinv a Hin).
    destruct (decide (sessionId = qa_sessionId a)) as [->|Hne].
    + rewrite lookup_insert_eq. by eexists.
    + by rewrite lookup_insert_ne.
  - apply abandonQuiz_Returned in H as (Hs & Ha & _).
    rewrite Ha, Hs. intros Hin. apply list_elem_of_filter in Hin as [Hne Hin].
    rewrite lookup_delete_ne by done. by apply Hinv.
Qed.

Lemma reachable_answers_owned db : reachable db -> answers_owned db.
Proof.
  induction 1 as [db (_ & Ha & _)|db db' _ IH Hstep].
  - intros a Hin. rewrite Ha in Hin. by apply elem_of_nil in Hin.
  - by eapply step_answers_owned.
Qed.

Lemma startQuiz_session newId now userId moduleId config g db db' session g' :
  startQuiz newId now userId moduleId config g db = (db', Returned (session, g')) ->
  session_id session = newId
  /\ session_totalItems session = Z.of_nat (length (questions session))
  /\ quizSession db !! newId = None
  /\ quizSession db' =
       <[newId := QuizSession_create newId userId moduleId
                    (Z.of_nat (length (questions session))) now]> (quizSession db)
  /\ quizAnswer db' = quizAnswer db.
Proof.
  unfold startQuiz. unfold bind, query, throw, ret. simpl.
  destruct (module db !! moduleId) as [m|]; [|done].
  destruct (length (moduleCharacters m) =? 0)%nat; [done|].
  destruct (selectAdaptiveCharacters _ _ g) as [[selected g1]|]; [|done].
  destruct (buildQuestions _ _ _ g1) as [qs g2].
  unfold createSession. simpl.
  destruct (quizSession db !! newId) eqn:Hfresh; [done|]. simpl.
  pose proof (shuffleArray_length qs g2) as Hlen.
  destruct (shuffleArray qs g2) as [shuffled g3]. simpl in *.
  intros [= <- <- <-]. simpl. rewrite Hlen. done.
Qed.

(** X24. An honest quiz runs to completion.  In a reachable state, after
    [startQuiz] has returned a session with at least one question and the
    learner has answered every question once in the container, the
    container's final step (the batch, then [completeQuiz]) succeeds: the
    returned score is the container's local score, between 0 and the
    returned [totalItems], which is the number of questions; one answer is
    stored per question, and the session is stored completed with that
    score. *)
Theorem honest_quiz_completes (newId : string)
    (now batchNow later completedAt : Z)
    (userId moduleId : string) (config : QuizConfig) (g g' : JS.RandomSource)
    (db db1 : DB) (session : QuizSession) (answers : list (string * Z)) :
  reachable db ->
  startQuiz newId now userId moduleId config g db = (db1, Returned (session, g')) ->
  (0 < length (questions session))%nat ->
  length answers = length (questions session) ->
  let c := playThrough answers (initialContainer session) in
  exists db2 r,
    advanceLast batchNow later completedAt userId c db1 = (db2, Returned r)
    /\ qr_score r = ct_localScore c
    /\ qr_totalItems r = Z.of_nat (length (questions session))
    /\ 0 <= qr_score r <= qr_totalItems r
    /\ countAnswers newId db2 = qr_totalItems r
    /\ exists row, quizSession db2 !! newId = Some row
         /\ qs_completedAt row = Some completedAt /\ qs_score row = qr_score r
         /\ qs_totalItems row = qr_totalItems r.
Proof.
  intros Hreach Hstart Hpos Hlen c.
  apply reachable_answers_owned in Hreach.
  apply startQuiz_session in Hstart as (Hid & Htotal & Hfresh & Hsess & Hans).
  destruct (playThrough_from answers (initialContainer session) eq_refl
              ltac:(simpl; lia)) as (Hs & Ha & Hsc & _).
  simpl in Hs, Ha, Hsc. fold c in Hs, Ha, Hsc. rewrite drop_0 in Ha, Hsc.
  assert (length (ct_answersRef c) = length (questions session)) as Hl.
  { rewrite Ha, length_zip_with. lia. }
  assert (ct_localScore c = batchScore (ct_answersRef c)) as Hscore
    by (rewrite Hsc, Ha; lia).
  pose proof (batchScore_bounds (ct_answersRef c)) as Hb.
  set (row0 := QuizSession_create newId userId moduleId
                 (Z.of_nat (length (questions session))) now) in *.
  assert (findActiveSession newId userId db1 = Some row0) as Hact.
  { unfold findActiveSession, findSession. rewrite Hsess, lookup_insert_eq.
    simpl. by rewrite decide_True. }
  assert (countAnswers newId db1 = 0) as Hzero.
  { unfold countAnswers, answersOf. rewrite Hans.
    rewrite filter_none; [done|]. intros a Hin Heq.
    specialize (Hreach a Hin). rewrite Heq, Hfresh in Hreach.
    by destruct Hreach. }
  unfold advanceLast, bind. rewrite Hs, Hid.
  destruct (submitAnswersBatch batchNow userId newId (ct_answersRef c) db1)
    as [db1' [r1|e]] eqn:Hbatch.
  2:{ exfalso. revert Hbatch. unfold submitAnswersBatch.
      unfold bind, query, throw, transaction, write, ret, updateSession. simpl.
      rewrite Hact, Hzero. simpl.
      rewrite Hsess, lookup_insert_eq. simpl.
      match goal with
      | |- context [forEach (ct_answersRef c) (batchStats batchNow userId) ?d] =>
          destruct (forEach_batchStats batchNow userId (ct_answersRef c) d)
            as (db3 & -> & _)
      end.
      done. }
  apply submitAnswersBatch_Returned in Hbatch
    as (s & Hact' & _ & _ & _ & Hans1 & Hsess1 & _).
  assert (s = row0) as -> by congruence.
  set (row1 := with_score (batchScore (ct_answersRef c)) row0) in *.
  assert (quizSession db1' !! newId = Some row1) as Hlook1
    by (by rewrite Hsess1, lookup_insert_eq).
  destruct (completeQuiz later completedAt userId newId db1')
    as [db2 [r|e]] eqn:Hdone.
  2:{ exfalso. revert Hdone. unfold completeQuiz.
      unfold bind, query, throw, transaction, write, ret, updateSession. simpl.
      unfold findSession. rewrite Hlook1. simpl. rewrite decide_True by done.
      simpl. rewrite Hlook1. simpl. done. }
  apply completeQuiz_Returned in Hdone
    as (s & Hfind & _ & Hsess2 & _ & _ & Hrs & Hrt & _ & _ & Hans2 & _).
  apply findSession_lookup in Hfind as [Hlook _].
  assert (s = row1) as -> by congruence.
  exists db2, r. split; [done|]. simpl in Hrs, Hrt.
  split; [by rewrite Hrs, Hscore|]. split; [done|].
  split; [rewrite Hrs, Hrt; lia|]. split.
  - rewrite Hrt. unfold countAnswers, answersOf in *. rewrite Hans2, Hans1.
    rewrite filter_app, length_app, filter_batchRow_same, length_map, Hl.
    lia.
  - exists (with_completedAt completedAt row1).
    split; [by rewrite Hsess2, lookup_insert_eq|]. simpl.
    split; [done|]. split; [by rewrite Hrs|by rewrite Hrt].
Qed.

Lemma honest_quiz_completes_witness :
  match startQuiz "s-1" 0 "u-1" "m-vowels" DEFAULT_QUIZ_CONFIG cyclicDraws seedDB with
  | (db1, Returned (session, _)) =>
      exists db2 r,
        advanceLast 8 9 10 "u-1"
          (playThrough (map (fun q => (correctAnswer q, 800)) (questions session))
             (initialContainer session)) db1
        = (db2, Returned r)
  | _ => True
  end.
Proof.
  destruct (startQuiz "s-1" 0 "u-1" "m-vowels" DEFAULT_QUIZ_CONFIG cyclicDraws seedDB)
    as [db1 [[session g']|e]] eqn:Hstart; [|exact I].
  destruct (honest_quiz_completes "s-1" 0 8 9 10 "u-1" "m-vowels" DEFAULT_QUIZ_CONFIG
              cyclicDraws g' seedDB db1 session
              (map (fun q => (correctAnswer q, 800)) (questions session)))
    as (db2 & r & Hrun & _).
  - apply reachable_initial, seedDB_initial.
  - exact Hstart.
  - revert Hstart. vm_compute. intros [= <- <- <-]. simpl. lia.
  - apply length_map.
  - exists db2, r. exact Hrun.
Defined.

(** ** One delivery pass *)

Lemma passStep_id deliver p a : pa_id (passStep deliver p a) = pa_id a.
Proof. unfold passStep. case_decide; [|done]. by destruct (deliver p). Qed.

Lemma processLoop_spec (deliver : PendingAnswer -> bool)
    (pendingAnswers : list PendingAnswer) (t : PassTrace) :
  cell (processLoop deliver true pendingAnswers t)
  = fold_left (fun c p => map (passStep deliver p) c) pendingAnswers (cell t)
  /\ attempted (processLoop deliver true pendingAnswers t)
     = attempted t ++ pendingAnswers
  /\ timers (processLoop deliver true pendingAnswers t)
     = timers t ++ map retryDelay
                     (List.filter (fun p => negb (deliver p)) pendingAnswers).
Proof.
  revert t. induction pendingAnswers as [|p rest IH]; intros t.
  - simpl. by rewrite !app_nil_r.
  - cbn [processLoop negb fold_left List.filter].
    assert (forall f,
              (forall a, pa_id (f a) = pa_id a) ->
              updateById (pa_id p) f (updateById (pa_id p) (with_status syncing) (cell t))
              = map (fun a => if decide (pa_id a = pa_id p)
                              then f (with_status syncing a) else a) (cell t))
      as Hupd.
    { intros f Hf. unfold updateById. rewrite map_map. apply map_ext. intros a.
      destruct (decide (pa_id a = pa_id p)) as [Heq|Hne].
      - simpl. by rewrite decide_True.
      - by rewrite decide_False. }
    destruct (deliver p) eqn:Hd; simpl.
    + destruct (IH {| cell := updateById (pa_id p) (with_status synced)
                                (updateById (pa_id p) (with_status syncing) (cell t));
                      attempted := attempted t ++ [p];
                      timers := timers t |}) as (Hc & Ha & Ht).
      rewrite Hc, Ha, Ht. simpl. rewrite Hupd by done.
      split; [|split; [by rewrite <- app_assoc|done]].
      f_equal. apply map_ext. intros a. unfold passStep. by rewrite Hd.
    + destruct (IH {| cell := updateById (pa_id p) with_failure
                                (updateById (pa_id p) (with_status syncing) (cell t));
                      attempted := attempted t ++ [p];
                      timers := timers t ++ [retryDelay p] |}) as (Hc & Ha & Ht).
      rewrite Hc, Ha, Ht. simpl. rewrite Hupd by done.
      split; [|split; [by rewrite <- app_assoc|by rewrite <- app_assoc]].
      f_equal. apply map_ext. intros a. unfold passStep. by rewrite Hd.
Qed.

Lemma find_id_absent (i : string) (l : list PendingAnswer) :
  i ∉ map pa_id l ->
  List.find (fun p => bool_decide (pa_id p = i)) l = None.
Proof.
  intros Hnot. apply find_all_false. intros p Hp.
  apply bool_decide_eq_false. intros <-. apply Hnot.
  by apply list_elem_of_fmap_2.
Qed.

Lemma fold_passStep (deliver : PendingAnswer -> bool)
    (pendingAnswers c : list PendingAnswer) :
  NoDup (map pa_id pendingAnswers) ->
  fold_left (fun c p => map (passStep deliver p) c) pendingAnswers c
  = map (fun a =>
           match List.find (fun p => bool_decide (pa_id p = pa_id a)) pendingAnswers with
           | Some p => if deliver p then with_status synced a else with_failure a
           | None => a
           end) c.
Proof.
  revert c. induction pendingAnswers as [|p rest IH]; intros c Hnd.
  - simpl. by rewrite map_id.
  - apply NoDup_cons in Hnd as [Hp Hnd]. cbn [fold_left].
    rewrite (IH _ Hnd), map_map. apply map_ext. intros a.
    rewrite passStep_id. cbn [List.find]. unfold passStep.
    destruct (decide (pa_id a = pa_id p)) as [Heq|Hne].
    + rewrite bool_decide_eq_true_2 by done.
      rewrite Heq, (find_id_absent (pa_id p) rest Hp). done.
    + rewrite bool_decide_eq_false_2 by (intros H; by apply Hne). done.
Qed.

Lemma find_filter_own (f : PendingAnswer -> bool) (l : list PendingAnswer)
    (a : PendingAnswer) :
  NoDup (map pa_id l) -> a ∈ l ->
  List.find (fun p => bool_decide (pa_id p = pa_id a)) (List.filter f l)
  = if f a then Some a else None.
Proof.
  induction l as [|x l IH]; intros Hnd Hin; [by apply elem_of_nil in Hin|].
  apply NoDup_cons in Hnd as [Hx Hnd].
  assert (forall l', (forall p, p ∈ l' -> p ∈ l) ->
            List.find (fun p => bool_decide (pa_id p = pa_id x)) l' = None) as Hnone.
  { intros l' Hsub. apply find_all_false. intros p Hp.
    apply bool_decide_eq_false. intros Heq. apply Hx. rewrite <- Heq.
    apply list_elem_of_fmap_2. by apply Hsub. }
  assert (forall p, p ∈ List.filter f l -> p ∈ l) as Hsub.
  { intros p Hp. apply list_elem_of_In, filter_In in Hp as [Hp _].
    by apply list_elem_of_In. }
  apply elem_of_cons in Hin as [->|Hin]; simpl.
  - destruct (f x); simpl.
    + by rewrite bool_decide_eq_true_2.
    + by apply Hnone.
  - assert (pa_id x <> pa_id a) as Hne.
    { intros Heq. apply Hx. rewrite Heq. by apply list_elem_of_fmap_2. }
    destruct (f x); simpl.
    + rewrite bool_decide_eq_false_2 by done. by apply IH.
    + by apply IH.
Qed.

(** X25. One delivery pass, run to its end on a mounted hook whose queued
    answers have distinct ids and with no pass in progress: it sends
    exactly the answers that are pending or failed with retries left, in
    queue order; each one delivered becomes synced, each one not delivered
    becomes failed with its retry count raised by one and gets one retry
    timer; every other answer is left as it is, and the order and the ids
    of the queue do not change.  If no retry count exceeded 3 and pending
    answers had retries left, the same holds afterwards. *)
Theorem processQueue_pass (deliver : PendingAnswer -> bool) (q : Queue) :
  processingRef q = false -> mountedRef q = true ->
  NoDup (map pa_id (answersRef q)) ->
  answersRef (processQueue deliver q).1 = map (delivered deliver) (answersRef q)
  /\ attempted (processQueue deliver q).2 = List.filter deliverable (answersRef q)
  /\ timers (processQueue deliver q).2
     = map retryDelay
         (List.filter (fun a => negb (deliver a))
            (List.filter deliverable (answersRef q)))
  /\ processingRef (processQueue deliver q).1 = false
  /\ map pa_id (answersRef (processQueue deliver q).1) = map pa_id (answersRef q)
  /\ ((forall a, a ∈ answersRef q ->
         retryCount a <= MAX_RETRIES
         /\ (status a = pending -> retryCount a < MAX_RETRIES)) ->
      forall a, a ∈ answersRef (processQueue deliver q).1 ->
        retryCount a <= MAX_RETRIES
        /\ (status a = pending -> retryCount a < MAX_RETRIES)).
Proof.
  intros Hproc Hmount Hnd. unfold processQueue. rewrite Hproc, Hmount. simpl.
  destruct (processLoop_spec deliver (List.filter deliverable (answersRef q))
              {| cell := answersRef q; attempted := []; timers := [] |})
    as (Hc & Ha & Ht).
  simpl in Hc, Ha, Ht.
  assert (NoDup (map pa_id (List.filter deliverable (answersRef q)))) as Hnd'.
  { clear -Hnd. induction (answersRef q) as [|x l IH]; simpl; [constructor|].
    apply NoDup_cons in Hnd as [Hx Hnd].
    destruct (deliverable x); simpl; [|by apply IH].
    apply NoDup_cons. split; [|by apply IH].
    intros Hin. apply Hx. apply list_elem_of_fmap in Hin as (p & -> & Hp).
    apply list_elem_of_In, filter_In in Hp as [Hp _].
    by apply list_elem_of_fmap_2, list_elem_of_In. }
  rewrite (fold_passStep deliver _ _ Hnd') in Hc.
  assert (cell (processLoop deliver true (List.filter deliverable (answersRef q))
                  {| cell := answersRef q; attempted := []; timers := [] |})
          = map (delivered deliver) (answersRef q)) as Hcell.
  { rewrite Hc. apply map_ext_in. intros a Hin.
    rewrite (find_filter_own deliverable (answersRef q) a Hnd)
      by (by apply list_elem_of_In).
    unfold delivered. by destruct (deliverable a). }
  rewrite Hcell, Ha, Ht.
  split; [done|]. split; [done|]. split; [done|]. split; [done|]. split.
  - rewrite map_map. apply map_ext. intros a. unfold delivered.
    destruct (deliverable a); [|done]. by destruct (deliver a).
  - intros Hwf a Hin. apply list_elem_of_fmap in Hin as (a0 & -> & Hin).
    destruct (Hwf a0 Hin) as [Hle Hpend]. unfold delivered.
    destruct (deliverable a0) eqn:Hd; [|done].
    destruct (deliver a0); simpl; [done|].
    split; [|done].
    unfold deliverable in Hd. apply orb_true_iff in Hd as [Hd|Hd].
    + apply bool_decide_eq_true in Hd. specialize (Hpend Hd). lia.
    + apply andb_true_iff in Hd as [_ Hd]. apply Z.ltb_lt in Hd. lia.
Qed.

Lemma processQueue_pass_witness :
  map status (answersRef (processQueue unreachable (hk_queue twoQueued)).1)
  = [failed; failed]
  /\ map retryCount (answersRef (processQueue unreachable (hk_queue twoQueued)).1)
     = [1; 1].
Proof.
  destruct (processQueue_pass unreachable (hk_queue twoQueued)) as (-> & _).
  - reflexivity.
  - reflexivity.
  - vm_compute. apply NoDup_cons. split; [|apply NoDup_singleton].
    intros H. apply list_elem_of_singleton in H. discriminate.
  - vm_compute. split; reflexivity.
Defined.
